(** * monica-file-processor: the chunked-processing and rate-limited
      dispatch pipeline of [src/services/monicaService.js]

    The JavaScript module keeps two pieces of module-level mutable state
    ([processingProgress] and [rateLimits]) and talks to three outside
    parties: the clock ([Date.now]), the file system ([fs.readFile],
    [fs.writeFile]) and the remote completion service ([axios.post]).
    The embedding threads one [World] value through every function
    (explicit state passing), models a thrown [Error] as a [Throw]
    result carrying its message, and records the outside-visible effects
    in a ghost [trace].

    Numbers.  Timestamps, counters and lengths are integers ([Z]); the
    character/4 token estimates and the extrapolated end time are exact
    rationals ([Q]), where JavaScript rounds to the nearest double.  On
    integers below 2^50 the two agree on the comparisons and on
    [Math.floor(limit * 0.8)] that the code performs.

    Runs.  The module serves one worker: files and chunks are processed
    one after the other, and while the worker is suspended at an
    [await] on I/O or on a timer the HTTP layer may serve a cancel
    request.  A run is determined by the environment ([Env]: process
    configuration, registry, file system, and what happens during each
    suspension) and by the finite list of replies the remote service
    gives; a request issued after the last of them is never answered.
    Every terminating execution of the JavaScript code is such a run
    (an execution in which the service answers 429 for ever does not
    terminate and has no final state).  Console and log-file output is
    not modelled. *)

From Stdlib Require Import Ascii String ZArith QArith Qround Lia.
From stdpp Require Import base strings list gmap pretty.

Local Open Scope Z_scope.

(** ** Small JavaScript idioms *)

(** The line feed of the template literals. *)
Definition LF : string := String "010"%char EmptyString.

(** A value that is either a string or [undefined]; both [undefined]
    and the empty string are falsy. *)
Definition truthy (v : option string) : bool :=
  match v with
  | Some s => negb (String.eqb s EmptyString)
  | None => false
  end.

(** [a || b] on optional strings, with a string as last alternative. *)
Definition orElse (v : option string) (fallback : string) : string :=
  match v with
  | Some s => if String.eqb s EmptyString then fallback else s
  | None => fallback
  end.

(** [arr.slice(-n)]: the last [n] elements. *)
Definition slice_last {A} (n : nat) (l : list A) : list A :=
  skipn (length l - n)%nat l.

(** [arr.join(sep)] on an array of strings. *)
Fixpoint join (sep : string) (parts : list string) : string :=
  match parts with
  | [] => EmptyString
  | [p] => p
  | p :: rest => p +:+ sep +:+ join sep rest
  end.

(** Node's POSIX [path.basename]: trailing separators are skipped and
    the component after the last remaining separator is returned. *)
Definition is_slash (c : ascii) : bool := Ascii.eqb c "/"%char.

Fixpoint drop_slashes (cs : list ascii) : list ascii :=
  match cs with
  | c :: rest => if is_slash c then drop_slashes rest else cs
  | [] => []
  end.

Fixpoint take_component (cs : list ascii) : list ascii :=
  match cs with
  | c :: rest => if is_slash c then [] else c :: take_component rest
  | [] => []
  end.

Definition basename (p : string) : string :=
  string_of_list_ascii
    (rev (take_component (drop_slashes (rev (list_ascii_of_string p))))).

(** A JavaScript exception: only [error.message] is ever inspected. *)
Inductive Result (A : Type) : Type :=
| Return (value : A)
| Throw (message : string).
Arguments Return {A} value.
Arguments Throw {A} message.

(** ** Data model *)

(** [processingProgress.status]. *)
Inductive Status := idle | processing | completed | error_status | cancelled_status.

#[global] Instance Status_eq_dec : EqDecision Status.
Proof. solve_decision. Defined.

(** One element of [processingProgress.processingHistory]. *)
Record HistoryEntry := {
  h_file : string;
  h_model : string;
  h_duration : Z;
  h_timestamp : Z;
  h_success : bool;
  h_error : option string
}.

(** The global progress tracking object (lines 7-21). *)
Record Progress := {
  currentFile : option string;
  currentFileNumber : Z;
  totalFiles : Z;
  totalChunks : Z;
  processedChunks : Z;
  startTime : option Z;
  estimatedEndTime : option Q;
  status : Status;
  error : option string;
  lastUpdated : Z;
  processingHistory : list HistoryEntry;
  processedFiles : gset string;
  cancelled : bool
}.

(** A property of an object literal handed to [Object.assign]. *)
Inductive Assignment :=
| set_currentFile (v : option string)
| set_currentFileNumber (v : Z)
| set_totalFiles (v : Z)
| set_totalChunks (v : Z)
| set_processedChunks (v : Z)
| set_startTime (v : option Z)
| set_estimatedEndTime (v : option Q)
| set_status (v : Status)
| set_error (v : option string)
| set_lastUpdated (v : Z)
| set_processingHistory (v : list HistoryEntry)
| set_processedFiles (v : gset string)
| set_cancelled (v : bool).

Definition assign (p : Progress) (a : Assignment) : Progress :=
  let '{| currentFile := cf; currentFileNumber := cn; totalFiles := tf;
          totalChunks := tc; processedChunks := pc; startTime := st;
          estimatedEndTime := et; status := s; error := e;
          lastUpdated := lu; processingHistory := ph;
          processedFiles := pf; cancelled := c |} := p in
  match a with
  | set_currentFile v => Build_Progress v cn tf tc pc st et s e lu ph pf c
  | set_currentFileNumber v => Build_Progress cf v tf tc pc st et s e lu ph pf c
  | set_totalFiles v => Build_Progress cf cn v tc pc st et s e lu ph pf c
  | set_totalChunks v => Build_Progress cf cn tf v pc st et s e lu ph pf c
  | set_processedChunks v => Build_Progress cf cn tf tc v st et s e lu ph pf c
  | set_startTime v => Build_Progress cf cn tf tc pc v et s e lu ph pf c
  | set_estimatedEndTime v => Build_Progress cf cn tf tc pc st v s e lu ph pf c
  | set_status v => Build_Progress cf cn tf tc pc st et v e lu ph pf c
  | set_error v => Build_Progress cf cn tf tc pc st et s v lu ph pf c
  | set_lastUpdated v => Build_Progress cf cn tf tc pc st et s e v ph pf c
  | set_processingHistory v => Build_Progress cf cn tf tc pc st et s e lu v pf c
  | set_processedFiles v => Build_Progress cf cn tf tc pc st et s e lu ph v c
  | set_cancelled v => Build_Progress cf cn tf tc pc st et s e lu ph pf v
  end.

(** [Object.assign(target, {...})]: later properties win. *)
Definition Object_assign (target : Progress) (source : list Assignment) : Progress :=
  fold_left assign source target.

(** An element of [rateLimits[modelKey].tokens]. *)
Record TokenEntry := { tk_timestamp : Z; tk_count : Q }.

(** [rateLimits[modelKey]] (lines 196-199). *)
Record RateWindow := { requests : list Z; tokens : list TokenEntry }.

(** Modelled from the spec: [models.json] is not part of the sources;
    a registry entry has the fields the module reads, and by the data
    model of the specification [rpm] is a positive integer. *)
Record Model := { key : string; tokenLimit : Z; rpm : positive }.

(** The reply of the remote service to one [axios.post] (lines 545-663).
    A resolved reply is a 2xx answer whose body is a JSON object;
    [usage] holds [prompt_tokens] and [completion_tokens] when present,
    [content] is [choices[0].message.content] when that path exists. *)
Inductive HttpOutcome :=
| Resolved (usage : option (Q * Q)) (content : option string)
| Rejected (http_status : Z) (retry_after : option Z) (error_message : option string)
| NoReply
| SetupFailure (message : string).

(** Ghost record of outside-visible effects, oldest first.  A call of
    [trackRequest] with a non-empty key leaves [EvRecord] when it
    records the request and [EvRecordFailed] when it throws. *)
Inductive Event :=
| EvCompletion (content prompt : string) (model : option string)
| EvAdmit (modelKey : string)
| EvSleep (ms : Z)
| EvPost (model message : string)
| EvRecord (modelKey : string) (at_time : Z) (total : Q)
| EvRecordFailed (modelKey : string)
| EvWrite (path text : string).

(** What happens while the worker is suspended at an [await]: some time
    passes and a cancel request may be served by the HTTP layer. *)
Record Tick := { elapsed : N; cancel_requested : bool }.

(** The process state. *)
Record World := {
  processingProgress : Progress;
  rateLimits : gmap string RateWindow;
  clock : Z;
  suspensions : nat;
  trace : list Event
}.

(** Everything outside the module that a run depends on. *)
Record Env := {
  MONICA_API_KEY : option string;
  MONICA_API_ENDPOINT : option string;
  DEFAULT_MODEL : option string;
  modelData : list Model;
  readFile : string -> Result string;
  writeFile : string -> string -> Result unit;
  schedule : nat -> Tick
}.

Definition with_progress (f : Progress -> Progress) (w : World) : World :=
  {| processingProgress := f (processingProgress w);
     rateLimits := rateLimits w; clock := clock w;
     suspensions := suspensions w; trace := trace w |}.

Definition with_rateLimits (f : gmap string RateWindow -> gmap string RateWindow)
    (w : World) : World :=
  {| processingProgress := processingProgress w;
     rateLimits := f (rateLimits w); clock := clock w;
     suspensions := suspensions w; trace := trace w |}.

Definition emit (e : Event) (w : World) : World :=
  {| processingProgress := processingProgress w;
     rateLimits := rateLimits w; clock := clock w;
     suspensions := suspensions w; trace := trace w ++ [e] |}.

(** ** Progress tracker (lines 40-125) *)

(** [updateProgress(update)] (lines 40-45). *)
Definition updateProgress (update : list Assignment) (w : World) : World :=
  with_progress
    (fun p => Object_assign p (update ++ [set_lastUpdated (clock w)])) w.

(** [resetProgress()] (lines 50-68). *)
Definition resetProgress (w : World) : World :=
  with_progress
    (fun p => Object_assign p
       [set_currentFile None; set_currentFileNumber 0; set_totalFiles 0;
        set_totalChunks 0; set_processedChunks 0; set_startTime None;
        set_estimatedEndTime None; set_status idle; set_error None;
        set_lastUpdated (clock w); set_processingHistory [];
        set_processedFiles ∅; set_cancelled false]) w.

(** [setTotalFiles(total)] (lines 74-82). *)
Definition setTotalFiles (total : Z) (w : World) : World :=
  updateProgress [set_totalFiles total] (resetProgress w).

(** [cancelProcessing()] (lines 86-95). *)
Definition cancelProcessing (w : World) : World :=
  if decide (status (processingProgress w) = processing) then
    updateProgress
      [set_cancelled true; set_status cancelled_status;
       set_error (Some "Processing cancelled by user")] w
  else w.

(** [trackFileProcessing(filePath)] (lines 102-125). *)
Definition trackFileProcessing (filePath : string) (w : World) : Z * World :=
  let fileName := basename filePath in
  let p := processingProgress w in
  if decide (fileName ∈ processedFiles p) then (currentFileNumber p, w)
  else
    let w1 := with_progress
                (fun p => assign p (set_processedFiles ({[fileName]} ∪ processedFiles p))) w in
    let newFileNumber := Z.min (currentFileNumber p + 1) (totalFiles p) in
    (newFileNumber,
     updateProgress
       [set_currentFileNumber newFileNumber; set_currentFile (Some fileName)] w1).

(** [str.includes(needle)]. *)
Fixpoint includes (needle hay : string) : bool :=
  String.prefix needle hay ||
  match hay with
  | String _ rest => includes needle rest
  | EmptyString => false
  end.

(** [value || fallback] on numbers: zero is falsy. *)
Definition numberOr (value fallback : Q) : Q :=
  if Qeq_bool value 0 then fallback else value.

(** A [null] operand of an arithmetic operator counts as zero. *)
Definition numberOf (v : option Z) : Z := default 0 v.

Definition emptyWindow : RateWindow := {| requests := []; tokens := [] |}.

(** [rateLimits[modelKey]] after the lazy initialisation of lines
    195-200 and 249-254. *)
Definition windowOf (modelKey : string) (w : World) : RateWindow :=
  default emptyWindow (rateLimits w !! modelKey).

Section Pipeline.

Context (env : Env).

(** The statements that fill [chunks] from [fileContent] and
    [charsPerChunk]: in the source they are elided between the
    declaration [const chunks = []] and its first use (line 427,
    [// ... [existing chunking code] ...]). *)
Context (existingChunkingCode : string -> Z -> list string).

(** The worker is suspended at an [await] for at least [atLeast]
    milliseconds; the environment decides how much longer and whether
    a cancel request is served meanwhile. *)
Definition suspend (atLeast : Z) (w : World) : World :=
  let tick := schedule env (suspensions w) in
  let resumed :=
    {| processingProgress := processingProgress w;
       rateLimits := rateLimits w;
       clock := clock w + Z.max 0 atLeast + Z.of_N (elapsed tick);
       suspensions := S (suspensions w);
       trace := trace w |} in
  if cancel_requested tick then cancelProcessing resumed else resumed.

(** ** Model registry (lines 156-183) *)

Definition getModelInfo (modelKey : string) : option Model :=
  if String.eqb modelKey EmptyString then None
  else List.find (fun m => String.eqb (key m) modelKey) (modelData env).

Definition DEFAULT_TOKEN_LIMIT : Z := 100000.

Definition getModelTokenLimit (modelKey : string) : Z :=
  match getModelInfo modelKey with
  | Some model => tokenLimit model
  | None => DEFAULT_TOKEN_LIMIT
  end.

(** ** Rate limiter (lines 190-267) *)

(** One activation of [checkRateLimits]; [budget] bounds the number
    of re-checks (see [checkRateLimits_budget_irrelevant]). *)
Fixpoint checkRateLimits_from (budget : nat) (modelKey : string) (w : World) : World :=
  match getModelInfo modelKey with
  | None => w
  | Some model =>
    let window := windowOf modelKey w in
    let now := clock w in
    let oneMinuteAgo := now - 60000 in
    let cleaned :=
      {| requests := filter (fun timestamp => oneMinuteAgo < timestamp) (requests window);
         tokens := filter (fun entry => oneMinuteAgo < tk_timestamp entry) (tokens window) |} in
    let w1 := with_rateLimits (insert modelKey cleaned) w in
    if Z.pos (rpm model) <=? Z.of_nat (length (requests cleaned)) then
      match requests cleaned with
      | oldestRequest :: _ =>
        let waitTime := Z.max 0 (oldestRequest + 60000 - now) in
        let w2 := if 0 <? waitTime
                  then suspend waitTime (emit (EvSleep waitTime) w1)
                  else w1 in
        match budget with
        | S budget' => checkRateLimits_from budget' modelKey w2
        | O => w2
        end
      | [] => w1 (* not reached: [rpm] is positive *)
      end
    else w1
  end.

(** [checkRateLimits(modelKey)] as called by its users. *)
Definition checkRateLimits (modelKey : string) (w : World) : World :=
  checkRateLimits_from (length (requests (windowOf modelKey w))) modelKey
    (emit (EvAdmit modelKey) w).

(** [rateLimits] is a plain object (line 149, [const rateLimits = {}]):
    besides the windows stored in it, a lookup finds the properties
    every object inherits from [Object.prototype].  These are their
    names; each of them holds a function or an object, hence a truthy
    value without a property [requests].  The keys of the registry are
    model identifiers and none of them is taken to be such a name
    ([models.json] is not part of the sources), so that
    [checkRateLimits], which returns early for every key without a
    registry entry, never meets one. *)
Definition inheritedProperty (key : string) : bool :=
  existsb (String.eqb key)
    ["constructor"; "__proto__"; "hasOwnProperty"; "isPrototypeOf";
     "propertyIsEnumerable"; "toLocaleString"; "toString"; "valueOf";
     "__defineGetter__"; "__defineSetter__"; "__lookupGetter__";
     "__lookupSetter__"].

(** The message of the [TypeError] raised by
    [rateLimits[modelKey].requests.push(now)] (line 260) when
    [requests] is undefined. *)
Definition cannotPush : string :=
  "Cannot read properties of undefined (reading 'push')".

(** [rateLimits[modelKey]] finds no window but an inherited property. *)
Definition inheritedOnly (modelKey : string) (w : World) : bool :=
  match rateLimits w !! modelKey with
  | Some _ => false
  | None => inheritedProperty modelKey
  end.

(** [trackRequest(modelKey, inputTokens, outputTokens)] (lines
    246-267).  Where the lookup finds an inherited property, the
    initialisation of lines 249-254 is skipped and line 260 throws
    before anything is recorded. *)
Definition trackRequest (modelKey : string) (inputTokens outputTokens : Q)
    (w : World) : Result unit * World :=
  if String.eqb modelKey EmptyString then (Return tt, w)
  else if inheritedOnly modelKey w then
    (Throw cannotPush, emit (EvRecordFailed modelKey) w)
  else
    let window := windowOf modelKey w in
    let now := clock w in
    let totalTokens := (inputTokens + outputTokens)%Q in
    (Return tt,
     emit (EvRecord modelKey now totalTokens)
       (with_rateLimits
          (insert modelKey
             {| requests := requests window ++ [now];
                tokens := tokens window ++
                          [{| tk_timestamp := now; tk_count := totalTokens |}] |}) w)).

(** ** API client (lines 499-665) *)

(** One activation of [callMonicaApi] against the replies the remote
    service is going to give; a request issued after the last of them
    fails without a response.  The 429 branch re-enters the function
    with the remaining replies.  An error thrown by [trackRequest]
    (line 561) carries neither a response nor a request, so the
    handler rethrows it as it is (line 662). *)
Fixpoint callMonicaApi_from (replies : list HttpOutcome)
    (fileContent prompt : string) (model : option string) (w : World)
    {struct replies} : Result string * World * list HttpOutcome :=
  let defaultModel := orElse (DEFAULT_MODEL env) "gpt-4o" in
  if negb (truthy (MONICA_API_KEY env)) || negb (truthy (MONICA_API_ENDPOINT env)) then
    (Throw "Monica API key or endpoint not configured", w, replies)
  else
    let message := prompt +:+ LF +:+ LF +:+ "File Content:" +:+ LF +:+ fileContent in
    let selectedModel := orElse model defaultModel in
    let estimatedInputTokens := (inject_Z (Z.of_nat (String.length message)) / 4)%Q in
    let estimatedOutputTokens := (estimatedInputTokens / 2)%Q in
    let w1 := checkRateLimits selectedModel w in
    let w2 := suspend 0 (emit (EvPost selectedModel message) w1) in
    match replies with
    | [] => (Throw "No response received from API", w2, [])
    | Resolved usage content :: later =>
      let actualInputTokens :=
        match usage with
        | Some (prompt_tokens, _) => numberOr prompt_tokens estimatedInputTokens
        | None => estimatedInputTokens
        end in
      let actualOutputTokens :=
        match usage with
        | Some (_, completion_tokens) => numberOr completion_tokens estimatedOutputTokens
        | None => estimatedOutputTokens
        end in
      match trackRequest selectedModel actualInputTokens actualOutputTokens w2 with
      | (Throw reason, w3) => (Throw reason, w3, later)
      | (Return _, w3) =>
        match content with
        | Some text => (Return text, w3, later)
        | None => (Throw "Unexpected API response format", w3, later)
        end
      end
    | Rejected http_status retry_after error_message :: later =>
      if (http_status =? 400) && truthy error_message &&
         includes "maximum context length" (orElse error_message EmptyString) then
        (Throw ("Token limit exceeded: " +:+ orElse error_message EmptyString), w2, later)
      else if http_status =? 429 then
        let retryAfter := default 60 retry_after in
        let w3 := suspend (retryAfter * 1000) (emit (EvSleep (retryAfter * 1000)) w2) in
        callMonicaApi_from later fileContent prompt model w3
      else
        (Throw ("API error: " +:+ pretty http_status +:+ " - " +:+
                orElse error_message "Unknown error"), w2, later)
    | NoReply :: later => (Throw "No response received from API", w2, later)
    | SetupFailure message :: later => (Throw message, w2, later)
    end.

(** [callMonicaApi(fileContent, prompt, model)] as called by the
    orchestrator: the ghost event marks one completion call. *)
Definition callMonicaApi (fileContent prompt : string) (model : option string)
    (replies : list HttpOutcome) (w : World)
    : Result string * World * list HttpOutcome :=
  callMonicaApi_from replies fileContent prompt model
    (emit (EvCompletion fileContent prompt model) w).

(** ** Orchestrator (lines 277-491) *)

(** The prompt of chunk [i] (0-based) out of [n] (line 451). *)
Definition chunkPrompt (prompt : string) (i n : nat) : string :=
  prompt +:+ LF +:+ LF +:+ "[This is chunk " +:+ pretty (i + 1)%nat +:+ " of " +:+
  pretty n +:+ " from the original file]".

(** The value assigned to [estimatedEndTime] at line 465, evaluated
    in world [w] for chunk index [i] of [n]. *)
Definition extrapolatedEnd (i n : nat) (w : World) : Q :=
  let start := numberOf (startTime (processingProgress w)) in
  (inject_Z start +
   inject_Z (clock w - start) / inject_Z (Z.of_nat (i + 1)) * inject_Z (Z.of_nat n))%Q.

(** The placeholder pushed for a failed chunk (line 477). *)
Definition chunkErrorText (message : string) : string :=
  "[Error processing this chunk: " +:+ message +:+ "]".

(** The body of the loop of [processLargeFile] for index [i]
    (lines 447-483): the text pushed to [responses], whether the
    chunk succeeded, and the new state. *)
Definition processChunk (n i : nat) (chunk prompt model : string)
    (replies : list HttpOutcome) (w : World)
    : string * bool * World * list HttpOutcome :=
  let w1 := checkRateLimits model w in
  match callMonicaApi chunk (chunkPrompt prompt i n) (Some model) replies w1 with
  | (Return chunkResponse, w2, later) =>
    (chunkResponse, true,
     updateProgress
       [set_processedChunks (Z.of_nat (i + 1));
        set_estimatedEndTime (Some (extrapolatedEnd i n w2))] w2,
     later)
  | (Throw message, w2, later) =>
    (chunkErrorText message, false,
     updateProgress [set_processedChunks (Z.of_nat (i + 1))] w2,
     later)
  end.

(** [for (let i = ...; i < chunks.length; i++)] over the chunks from
    index [i] on, pushing to [responses]. *)
Fixpoint chunkLoop (n i : nat) (remaining : list string) (prompt model : string)
    (responses : list string) (replies : list HttpOutcome) (w : World)
    : list string * World * list HttpOutcome :=
  match remaining with
  | [] => (responses, w, replies)
  | chunk :: rest =>
    let '(text, _, w1, later) := processChunk n i chunk prompt model replies w in
    chunkLoop n (S i) rest prompt model (responses ++ [text]) later w1
  end.

Definition chunkSeparator : string := LF +:+ LF +:+ " Next Chunk " +:+ LF +:+ LF.

(** [processLargeFile(fileContent, prompt, model, maxTokensPerChunk)]. *)
Definition processLargeFile (fileContent prompt model : string)
    (maxTokensPerChunk : Z) (replies : list HttpOutcome) (w : World)
    : string * World * list HttpOutcome :=
  let charsPerChunk := maxTokensPerChunk * 4 in
  let chunks := existingChunkingCode fileContent charsPerChunk in
  let w1 := updateProgress
              [set_totalChunks (Z.of_nat (length chunks)); set_processedChunks 0] w in
  let '(responses, w2, later) :=
    chunkLoop (length chunks) 0 chunks prompt model [] replies w1 in
  (join chunkSeparator responses, w2, later).

(** [model || process.env.DEFAULT_MODEL || 'gpt-4o'] (line 308). *)
Definition selectModel (model : option string) : string :=
  orElse model (orElse (DEFAULT_MODEL env) "gpt-4o").

(** [Math.floor(modelTokenLimit * 0.8)] (line 314), on the exact
    product. *)
Definition MAX_TOKENS_PER_CHUNK (modelTokenLimit : Z) : Z :=
  Qfloor (inject_Z modelTokenLimit * (8 # 10))%Q.

(** [fileContent.length / 4] (line 317). *)
Definition estimatedTokens (fileContent : string) : Q :=
  (inject_Z (Z.of_nat (String.length fileContent)) / 4)%Q.

(** [estimatedTokens > MAX_TOKENS_PER_CHUNK] (line 325). *)
Definition needsChunking (fileContent : string) (modelTokenLimit : Z) : bool :=
  negb (Qle_bool (estimatedTokens fileContent)
                 (inject_Z (MAX_TOKENS_PER_CHUNK modelTokenLimit))).

Definition historyEntry (file model : string) (duration timestamp : Z)
    (success : bool) (err : option string) : HistoryEntry :=
  {| h_file := file; h_model := model; h_duration := duration;
     h_timestamp := timestamp; h_success := success; h_error := err |}.

(** The [try] block of [processFile] (lines 292-370). *)
Definition processFile_try (startTime : Z) (inputPath outputPath prompt : string)
    (model : option string) (replies : list HttpOutcome) (w : World)
    : Result string * World * list HttpOutcome :=
  let w1 := suspend 0 w in
  match readFile env inputPath with
  | Throw message => (Throw message, w1, replies)
  | Return fileContent =>
    let selectedModel := selectModel model in
    let modelTokenLimit := getModelTokenLimit selectedModel in
    let '(outcome, w3, later) :=
      if needsChunking fileContent modelTokenLimit then
        let '(response, w2, later) :=
          processLargeFile fileContent prompt selectedModel
            (MAX_TOKENS_PER_CHUNK modelTokenLimit) replies w1 in
        (Return response, w2, later)
      else
        let w2 := updateProgress [set_totalChunks 1; set_processedChunks 0] w1 in
        match callMonicaApi fileContent prompt (Some selectedModel) replies w2 with
        | (Return response, w2', later) =>
          (Return response, updateProgress [set_processedChunks 1] w2', later)
        | (Throw message, w2', later) => (Throw message, w2', later)
        end in
    match outcome with
    | Throw message => (Throw message, w3, later)
    | Return response =>
      let w4 := suspend 0 w3 in
      match writeFile env outputPath response with
      | Throw message => (Throw message, w4, later)
      | Return _ =>
        let w5 := emit (EvWrite outputPath response) w4 in
        let duration := clock w5 - startTime in
        (Return outputPath,
         updateProgress
           [set_status completed; set_error None;
            set_processingHistory
              (slice_last 9 (processingHistory (processingProgress w5)) ++
               [historyEntry (basename inputPath) selectedModel duration
                  (clock w5) true None])] w5,
         later)
      end
    end
  end.

(** The [catch] block of [processFile] (lines 371-405). *)
Definition processFile_catch (startTime : Z) (inputPath : string)
    (model : option string) (message : string) (w : World)
    : Result string * World :=
  let duration := clock w - startTime in
  (Throw ("Failed to process file: " +:+ message),
   updateProgress
     [set_status error_status; set_error (Some message);
      set_processingHistory
        (slice_last 9 (processingHistory (processingProgress w)) ++
         [historyEntry (basename inputPath) (orElse model "default") duration
            (clock w) false (Some message)])] w).

(** [processFile(inputPath, outputPath, prompt, model)] (lines 277-406). *)
Definition processFile (inputPath outputPath prompt : string)
    (model : option string) (replies : list HttpOutcome) (w : World)
    : Result string * World * list HttpOutcome :=
  let startTime := clock w in
  let '(fileNumber, w1) := trackFileProcessing inputPath w in
  let w2 := updateProgress
              [set_status processing; set_startTime (Some startTime);
               set_totalChunks 0; set_processedChunks 0; set_error None] w1 in
  match processFile_try startTime inputPath outputPath prompt model replies w2 with
  | (Return path, w3, later) => (Return path, w3, later)
  | (Throw message, w3, later) =>
    let '(failure, w4) := processFile_catch startTime inputPath model message w3 in
    (failure, w4, later)
  end.

End Pipeline.

(** The chunk array as the published source builds it: declared empty
    (line 425) and never pushed to before the loop. *)
Definition publishedChunks : string -> Z -> list string := fun _ _ => [].

(** ** Concrete worlds for examples *)

(** The module state right after loading (lines 7-21 and 149). *)
Definition loadedProgress (now : Z) : Progress :=
  {| currentFile := None; currentFileNumber := 0; totalFiles := 0;
     totalChunks := 0; processedChunks := 0; startTime := None;
     estimatedEndTime := None; status := idle; error := None;
     lastUpdated := now; processingHistory := []; processedFiles := ∅;
     cancelled := false |}.

Definition loadedWorld (now : Z) : World :=
  {| processingProgress := loadedProgress now; rateLimits := ∅;
     clock := now; suspensions := 0; trace := [] |}.

(** A quiet environment: credentials configured, every await resumes
    after [latency] milliseconds, nobody cancels. *)
Definition quietEnv (models : list Model) (files : string -> Result string)
    (latency : N) : Env :=
  {| MONICA_API_KEY := Some "key";
     MONICA_API_ENDPOINT := Some "https://api.example/v1/chat/completions";
     DEFAULT_MODEL := None;
     modelData := models;
     readFile := files;
     writeFile := fun _ _ => Return tt;
     schedule := fun _ => {| elapsed := latency; cancel_requested := false |} |}.

(** A world in the middle of a job. *)
Definition busyWorld (now : Z) : World :=
  updateProgress
    [set_status processing; set_startTime (Some now); set_totalChunks 0;
     set_processedChunks 0; set_error None] (loadedWorld now).


(** ** Predicates used in the statements *)

(** Fields that neither the rate limiter, the API client nor a cancel
    request served during a suspension ever write. *)
Definition keepsJob (p p' : Progress) : Prop :=
  currentFile p' = currentFile p /\
  currentFileNumber p' = currentFileNumber p /\
  totalFiles p' = totalFiles p /\
  totalChunks p' = totalChunks p /\
  processedChunks p' = processedChunks p /\
  startTime p' = startTime p /\
  estimatedEndTime p' = estimatedEndTime p /\
  processingHistory p' = processingHistory p /\
  processedFiles p' = processedFiles p /\
  (cancelled p = true -> cancelled p' = true).

(** Fields the chunk loop leaves alone as well. *)
Definition keepsFile (p p' : Progress) : Prop :=
  currentFile p' = currentFile p /\
  currentFileNumber p' = currentFileNumber p /\
  totalFiles p' = totalFiles p /\
  totalChunks p' = totalChunks p /\
  startTime p' = startTime p /\
  processingHistory p' = processingHistory p /\
  processedFiles p' = processedFiles p /\
  (cancelled p = true -> cancelled p' = true).


(** Fields that nothing between the first and the last update of
    [processFile] writes. *)
Definition keepsBatch (p p' : Progress) : Prop :=
  currentFile p' = currentFile p /\
  currentFileNumber p' = currentFileNumber p /\
  totalFiles p' = totalFiles p /\
  startTime p' = startTime p /\
  processingHistory p' = processingHistory p /\
  processedFiles p' = processedFiles p /\
  (cancelled p = true -> cancelled p' = true).

Definition isSleep (e : Event) : Prop :=
  match e with EvSleep _ => True | _ => False end.

(** A reply that ends a client call with an error: anything but a 2xx
    answer and a 429, which is retried. *)
Definition isFailure (reply : HttpOutcome) : Prop :=
  match reply with
  | Resolved _ _ => False
  | Rejected http_status _ _ => http_status <> 429
  | NoReply | SetupFailure _ => True
  end.

(** The shape of the rate-limiter and network events of one client
    call for model [m], by the replies it consumed: every [EvPost] is
    preceded by one [EvAdmit] (and the sleeps of that admission); the
    event of one call of [trackRequest] follows the post answered by a
    2xx reply and nothing else, [EvRecord] or, for a key naming an
    inherited property, [EvRecordFailed]; after a 429 the client
    sleeps and starts over. *)
Inductive ClientRun (m : string) : list HttpOutcome -> list Event -> Prop :=
| run_unconfigured :
    ClientRun m [] []
| run_unanswered sleeps message :
    Forall isSleep sleeps ->
    ClientRun m [] (EvAdmit m :: sleeps ++ [EvPost m message])
| run_resolved usage content sleeps message at_time total :
    Forall isSleep sleeps ->
    ClientRun m [Resolved usage content]
      (EvAdmit m :: sleeps ++ [EvPost m message; EvRecord m at_time total])
| run_unrecorded usage content sleeps message :
    Forall isSleep sleeps ->
    inheritedProperty m = true ->
    ClientRun m [Resolved usage content]
      (EvAdmit m :: sleeps ++ [EvPost m message; EvRecordFailed m])
| run_failed reply sleeps message :
    isFailure reply ->
    Forall isSleep sleeps ->
    ClientRun m [reply] (EvAdmit m :: sleeps ++ [EvPost m message])
| run_retried retry_after error_message sleeps message consumed events :
    Forall isSleep sleeps ->
    ClientRun m consumed events ->
    ClientRun m (Rejected 429 retry_after error_message :: consumed)
      (EvAdmit m :: sleeps ++
       EvPost m message :: EvSleep (default 60 retry_after * 1000) :: events).

(** The contents handed to the API client by the orchestrator, in
    call order. *)
Definition completionOf (e : Event) : option string :=
  match e with EvCompletion content _ _ => Some content | _ => None end.

Definition completionCalls (events : list Event) : list string :=
  omap completionOf events.

(** A chunk array within the character budget. *)
Definition withinBudget (charsPerChunk : Z) (chunks : list string) : Prop :=
  Forall (fun chunk => Z.of_nat (String.length chunk) <= charsPerChunk) chunks.

(** A reply that does not carry a completion text. *)
Definition noCompletion (reply : HttpOutcome) : Prop :=
  match reply with
  | Resolved _ (Some _) => False
  | _ => True
  end.

(** The text pushed for a failed chunk. *)
Definition isPlaceholder (text : string) : Prop :=
  exists message : string,
    text = "[Error processing this chunk: " +:+ message +:+ "]".

(** A stand-in for the elided chunk-building statements that yields a
    given array, for running the loop on concrete chunks. *)
Definition fixedChunks (chunks : list string) : string -> Z -> list string :=
  fun _ _ => chunks.

(** A registry with one small model, so that short texts already take
    the chunked path. *)
Definition tinyModel : Model := {| key := "tiny"; tokenLimit := 2; rpm := 2 |}.

Definition tinyEnv : Env :=
  quietEnv [tinyModel] (fun _ => Return "abcdefgh") 5.

(** An environment in which the HTTP layer serves one cancel request,
    during the suspension number [k] of the worker. *)
Definition cancelDuring (k : nat) : Env :=
  {| MONICA_API_KEY := Some "key";
     MONICA_API_ENDPOINT := Some "https://api.example/v1/chat/completions";
     DEFAULT_MODEL := None;
     modelData := [tinyModel];
     readFile := fun _ => Return "abcdefgh";
     writeFile := fun _ _ => Return tt;
     schedule := fun i => {| elapsed := 5; cancel_requested := Nat.eqb i k |} |}.

(** Counting rate-limiter and network events. *)
Definition isAdmit (e : Event) : bool :=
  match e with EvAdmit _ => true | _ => false end.
Definition isPost (e : Event) : bool :=
  match e with EvPost _ _ => true | _ => false end.
Definition isRecord (e : Event) : bool :=
  match e with EvRecord _ _ _ | EvRecordFailed _ => true | _ => false end.
Definition isResolved (reply : HttpOutcome) : bool :=
  match reply with Resolved _ _ => true | _ => false end.

Definition admissions (events : list Event) : nat := length (List.filter isAdmit events).
Definition posts (events : list Event) : nat := length (List.filter isPost events).
Definition records (events : list Event) : nat := length (List.filter isRecord events).
Definition resolvedReplies (replies : list HttpOutcome) : nat :=
  length (List.filter isResolved replies).

(** [timestamp > oneMinuteAgo] at time [now]: not yet purged. *)
Definition recent (now timestamp : Z) : Prop := now - 60000 < timestamp.

#[global] Instance recent_dec now timestamp : Decision (recent now timestamp) :=
  Z.lt_dec (now - 60000) timestamp.

(** The times at which requests for [modelKey] were recorded, oldest
    first, read off the ghost trace. *)
Definition recordedOf (modelKey : string) (e : Event) : option Z :=
  match e with
  | EvRecord k at_time _ => if String.eqb k modelKey then Some at_time else None
  | _ => None
  end.

Definition recordedAt (modelKey : string) (events : list Event) : list Z :=
  omap (recordedOf modelKey) events.

(** The recorded requests that fall in the trailing 60-second window
    ending at [t]. *)
Definition inTrailingWindow (t : Z) (recorded : list Z) : list Z :=
  filter (fun x => t - 60000 < x /\ x <= t) recorded.

(** No trailing 60-second window holds more than [R] recorded requests. *)
Definition withinRate (R : nat) (recorded : list Z) : Prop :=
  forall t : Z, (length (inTrailingWindow t recorded) <= R)%nat.

(** The request list of [modelKey] holds every recorded request that is
    still recent. *)
Definition windowTracksTrace (modelKey : string) (w : World) : Prop :=
  filter (recent (clock w)) (requests (windowOf modelKey w)) =
  filter (recent (clock w)) (recordedAt modelKey (trace w)).

(** The invariant of the rate limiter, for every model of the registry. *)
Definition rateInvariant (env : Env) (w : World) : Prop :=
  forall modelKey model,
    getModelInfo env modelKey = Some model ->
    windowTracksTrace modelKey w /\
    withinRate (Pos.to_nat (rpm model)) (recordedAt modelKey (trace w)).

(** A slot is free for [modelKey]: fewer than its limit of recorded
    requests are still recent. *)
Definition hasSlot (env : Env) (modelKey : string) (w : World) : Prop :=
  forall model, getModelInfo env modelKey = Some model ->
    (length (filter (recent (clock w)) (recordedAt modelKey (trace w)))
     < Pos.to_nat (rpm model))%nat.

(** The state after two requests for the model ["tiny"] (limit: two
    per minute) were recorded back to back at time 1000. *)
Definition fullWindow : World :=
  (trackRequest "tiny" 1 1 (trackRequest "tiny" 1 1 (loadedWorld 1000)).2).2.

(** The end-to-end scenario of the specification: a content of 40,000
    characters for a model with a token limit of 10,000. *)
Definition scenarioContent : string :=
  String.concat EmptyString (repeat "0123456789" 4000).

Definition scenarioModel : Model :=
  {| key := "scenario"; tokenLimit := 10000; rpm := 60 |}.

Definition scenarioEnv : Env :=
  quietEnv [scenarioModel] (fun _ => Return scenarioContent) 5.

From Stdlib Require Import Sorted Lqa.


(** * The rest of the module and its callers *)

(** ** File name helpers ([utils/fileUtils.js]) *)

(** A character class of the regular expression [/[^a-z0-9]/gi]: the
    ASCII letters and digits.  Strings are sequences of code units
    below 256; none of those above 127 matches a letter
    case-insensitively. *)
Definition isAlphanumeric (c : ascii) : bool :=
  let n := nat_of_ascii c in
  ((48 <=? n) && (n <=? 57) || (65 <=? n) && (n <=? 90) || (97 <=? n) && (n <=? 122))%nat.

(** [toLowerCase] on one code unit of an ASCII string. *)
Definition toLowerChar (c : ascii) : ascii :=
  let n := nat_of_ascii c in
  if ((65 <=? n) && (n <=? 90))%nat then ascii_of_nat (n + 32) else c.

Fixpoint mapString (f : ascii -> ascii) (s : string) : string :=
  match s with
  | EmptyString => EmptyString
  | String c rest => String (f c) (mapString f rest)
  end.

(** [createSafeFilename(filename)] (lines 692-696):
    [filename.replace(/[^a-z0-9]/gi, '_').toLowerCase()]. *)
Definition createSafeFilename (filename : string) : string :=
  mapString toLowerChar
    (mapString (fun c => if isAlphanumeric c then c else "_"%char) filename).

(** The alphabet of safe names: lower-case letters, digits, underscore. *)
Definition isSafeChar (c : ascii) : bool :=
  let n := nat_of_ascii c in
  ((48 <=? n) && (n <=? 57) || (97 <=? n) && (n <=? 122) || (n =? 95))%nat.

Fixpoint allChars (p : ascii -> bool) (s : string) : bool :=
  match s with
  | EmptyString => true
  | String c rest => p c && allChars p rest
  end.

(** ** The batch of [POST /process-files] ([routes/uploadRoutes.js]) *)

(** An element of [filesToProcess] (lines 220-225 and 232-236). *)
Record UploadedFile := {
  originalname : string;
  path : string;
  isServerFile : bool
}.

(** The [filter] callback of lines 239-247 over the files still to be
    visited, with the [Map] of names seen so far. *)
Fixpoint dedupeFrom (seenFiles : gmap string UploadedFile)
    (files : list UploadedFile) : list UploadedFile :=
  match files with
  | [] => []
  | file :: rest =>
    match seenFiles !! originalname file with
    | Some _ => dedupeFrom seenFiles rest
    | None => file :: dedupeFrom (<[originalname file := file]> seenFiles) rest
    end
  end.

(** The deduplication of [filesToProcess] (lines 239-247). *)
Definition dedupe (files : list UploadedFile) : list UploadedFile :=
  dedupeFrom ∅ files.

(** ** Invariants of the progress tracker *)

(** The file counter counts the distinct base names seen, up to the
    announced total. *)
Definition counterInvariant (p : Progress) : Prop :=
  currentFileNumber p = Z.min (Z.of_nat (size (processedFiles p))) (totalFiles p).

(** ** The steps of the worker *)

(** An assignment to the chunk counters or the estimate, the only
    fields written between the first and the last update of
    [processFile]. *)
Definition isCounterAssignment (a : Assignment) : Prop :=
  match a with
  | set_totalChunks _ | set_processedChunks _ | set_estimatedEndTime _ => True
  | _ => False
  end.

(** Lines 202-211: the window of [modelKey] purged at the current time. *)
Definition purge (modelKey : string) (w : World) : World :=
  with_rateLimits
    (insert modelKey
       {| requests := filter (fun timestamp => clock w - 60000 < timestamp)
                        (requests (windowOf modelKey w));
          tokens := filter (fun entry => clock w - 60000 < tk_timestamp entry)
                      (tokens (windowOf modelKey w)) |}) w.

(** The events of the limiter and of the client that come with no
    change of the windows and no file written. *)
Definition isWorkerEvent (e : Event) : Prop :=
  match e with
  | EvRecord _ _ _ | EvRecordFailed _ | EvWrite _ _ => False
  | _ => True
  end.

(** The files written, in order: path and content. *)
Definition writeOf (e : Event) : option (string * string) :=
  match e with EvWrite path text => Some (path, text) | _ => None end.

Definition writes (events : list Event) : list (string * string) :=
  omap writeOf events.

(** [Worker env key w w']: the state [w'] is reached from [w] by the
    steps the worker takes for the model [key] inside the [try] block
    of [processFile] before the output is written: counter updates,
    events of the limiter and the client, suspensions (with the cancel
    requests served meanwhile), purges of the window of [key] when it
    is registered, and recordings of a request for [key]. *)
Inductive Worker (env : Env) (key : string) (w : World) : World -> Prop :=
| worker_start :
    Worker env key w w
| worker_update u w' :
    Forall isCounterAssignment u -> Worker env key w w' ->
    Worker env key w (updateProgress u w')
| worker_emit e w' :
    isWorkerEvent e -> Worker env key w w' ->
    Worker env key w (emit e w')
| worker_suspend atLeast w' :
    Worker env key w w' -> Worker env key w (suspend env atLeast w')
| worker_purge model w' :
    getModelInfo env key = Some model -> Worker env key w w' ->
    Worker env key w (purge key w')
| worker_record inputTokens outputTokens w' :
    key <> EmptyString -> Worker env key w w' ->
    Worker env key w (trackRequest key inputTokens outputTokens w').2.

(** The first update of [processFile] (lines 284-290), after the file
    was tracked. *)
Definition processFile_started (inputPath : string) (w : World) : World :=
  updateProgress
    [set_status processing; set_startTime (Some (clock w));
     set_totalChunks 0; set_processedChunks 0; set_error None]
    (trackFileProcessing inputPath w).2.

(** A cancel request is served at one of the suspensions numbered
    [from], ..., [to - 1]. *)
Definition cancelServed (env : Env) (from to : nat) : bool :=
  existsb (fun n => cancel_requested (schedule env n)) (seq from (to - from)).

(** ** Invariants of the request windows *)

(** The token entries carry the timestamps of the requests, the
    timestamps are in ascending order and none lies in the future. *)
Definition windowOrdered (now : Z) (window : RateWindow) : Prop :=
  map tk_timestamp (tokens window) = requests window /\
  StronglySorted Z.le (requests window) /\
  Forall (fun timestamp => timestamp <= now) (requests window).

Definition windowsOrdered (w : World) : Prop :=
  forall modelKey window,
    rateLimits w !! modelKey = Some window -> windowOrdered (clock w) window.

(** ** Waiting *)



(** The credentials the client checks before anything else (lines
    501-503). *)
Definition unconfigured (env : Env) : bool :=
  negb (truthy (MONICA_API_KEY env)) || negb (truthy (MONICA_API_ENDPOINT env)).

Definition notConfigured : string := "Monica API key or endpoint not configured".

(** The events that involve neither the network, nor the windows, nor
    the file system. *)
Definition isOffline (e : Event) : Prop :=
  match e with
  | EvCompletion _ _ _ | EvAdmit _ | EvSleep _ => True
  | _ => False
  end.

(** ** The loop of [POST /process-files] ([routes/uploadRoutes.js], lines 272-338) *)

(** One element of [results] (lines 307-313 and 319-324); [failure]
    is the property [error]. *)
Record BatchResult := {
  originalName : string;
  processedName : option string;
  success : bool;
  url : option string;
  failure : option string;
  duration : Z
}.

(** The variables the loop updates: the module state, [results],
    [successCount], [failCount], and the paths handed to
    [fs.unlinkSync] so far. *)
Record Batch := {
  world : World;
  results : list BatchResult;
  successCount : nat;
  failCount : nat;
  unlinked : list string
}.

(** What the loop takes from its surroundings: the host functions
    [path.join] and [fs.statSync] (which throws when the file is
    missing), the output folder made for the request, and the fields
    [prompt] and [model] of the request body. *)
Record Request := {
  path_join : string -> string -> string;
  fs_statSync : World -> string -> Result Z;
  outputFolderName : string;
  outputDir : string;
  req_prompt : string;
  req_model : option string
}.

Section Handler.

Context (env : Env).
Context (existingChunkingCode : string -> Z -> list string).
Context (req : Request).

(** The body of the loop after the cancellation check (lines 291-337). *)
Definition processUpload (file : UploadedFile) (replies : list HttpOutcome) (b : Batch)
    : Batch * list HttpOutcome :=
  let fileStartTime := clock (world b) in
  let outputFilename := "processed_" +:+ originalname file in
  let outputPath := path_join req (outputDir req) outputFilename in
  let '(outcome, w1, later) :=
    processFile env existingChunkingCode (path file) outputPath (req_prompt req)
      (req_model req) replies (world b) in
  let thrown :=
    match outcome with
    | Return _ =>
      match fs_statSync req w1 outputPath with
      | Return _ => None
      | Throw message => Some message
      end
    | Throw message => Some message
    end in
  let duration := clock w1 - fileStartTime in
  let unlinked' := if isServerFile file then unlinked b else unlinked b ++ [path file] in
  match thrown with
  | None =>
    ({| world := w1;
        results := results b ++
          [{| originalName := originalname file;
              processedName := Some outputFilename;
              success := true;
              url := Some ("/a../data/outputs/" +:+ outputFolderName req +:+ "/" +:+
                           outputFilename);
              failure := None;
              duration := duration |}];
        successCount := S (successCount b);
        failCount := failCount b;
        unlinked := unlinked' |}, later)
  | Some message =>
    ({| world := w1;
        results := results b ++
          [{| originalName := originalname file;
              processedName := None;
              success := false;
              url := None;
              failure := Some message;
              duration := duration |}];
        successCount := successCount b;
        failCount := S (failCount b);
        unlinked := unlinked' |}, later)
  end.

(** [for (let i = 0; i < filesToProcess.length; i++)] over the files
    from index [i] on (lines 283-338). *)
Fixpoint uploadLoop (remaining : list UploadedFile) (replies : list HttpOutcome)
    (b : Batch) : Batch * list HttpOutcome :=
  match remaining with
  | [] => (b, replies)
  | file :: rest =>
    let progress := processingProgress (world b) in
    if cancelled progress || bool_decide (status progress = cancelled_status)
    then (b, replies)
    else
      let '(b1, later) := processUpload file replies b in
      uploadLoop rest later b1
  end.

(** Lines 272-338: the counters are initialised, the progress object
    is reset for [filesToProcess.length] files, the loop runs. *)
Definition processBatch (filesToProcess : list UploadedFile)
    (replies : list HttpOutcome) (w : World) : Batch * list HttpOutcome :=
  uploadLoop filesToProcess replies
    {| world := setTotalFiles (Z.of_nat (length filesToProcess)) w;
       results := []; successCount := 0; failCount := 0; unlinked := [] |}.

(** [Uploads b replies done b' later]: the loop processed the files
    [done], one after the other, from the state [b] with the replies
    [replies] to the state [b'] with the replies [later] left; at the
    head of each iteration no cancellation was seen. *)
Inductive Uploads : Batch -> list HttpOutcome -> list UploadedFile ->
                    Batch -> list HttpOutcome -> Prop :=
| uploads_none b replies :
    Uploads b replies [] b replies
| uploads_next b replies file done b' later :
    cancelled (processingProgress (world b)) = false ->
    status (processingProgress (world b)) <> cancelled_status ->
    Uploads (processUpload file replies b).1 (processUpload file replies b).2
      done b' later ->
    Uploads b replies (file :: done) b' later.

End Handler.

(** The files of a batch that were processed, given its results. *)
Definition processed (b : Batch) (files : list UploadedFile) : list UploadedFile :=
  take (length (results b)) files.

(** A result as the loop builds it for a file. *)
Definition resultOf (outputFolderName : string) (file : UploadedFile)
    (entry : BatchResult) : Prop :=
  originalName entry = originalname file /\
  if success entry then
    processedName entry = Some ("processed_" +:+ originalname file) /\
    url entry = Some ("/a../data/outputs/" +:+ outputFolderName +:+ "/" +:+
                      "processed_" +:+ originalname file) /\
    failure entry = None
  else
    processedName entry = None /\ url entry = None /\ failure entry <> None.

(** The fields a counter update leaves alone. *)
Definition sameJob (p p' : Progress) : Prop :=
  keepsBatch p p' /\ status p' = status p /\ cancelled p' = cancelled p /\
  error p' = error p.

(** The prompt and the model of each call of the API client, in call
    order. *)
Definition promptOf (e : Event) : option (string * option string) :=
  match e with EvCompletion _ prompt model => Some (prompt, model) | _ => None end.

Definition completionPrompts (events : list Event) : list (string * option string) :=
  omap promptOf events.

(** * The prompt store ([routes/promptRoutes.js]) *)

(** An element of the array [prompts] of [prompts.json]. *)
Record Prompt := { prompt_name : string; prompt_text : string }.

(** The answers of [POST /prompts]: 400, "Prompt updated
    successfully", "Prompt saved successfully", 500. *)
Inductive SaveReply := save_rejected | save_updated | save_added | save_failed.

(** The answers of [DELETE /prompts/:name]: 404 for a missing file,
    404 for a missing prompt, success, 500. *)
Inductive DeleteReply := delete_no_data | delete_not_found | delete_done | delete_failed.

(** [arr.findIndex(p)], with [None] for [-1]. *)
Fixpoint findIndex {A} (p : A -> bool) (l : list A) : option nat :=
  match l with
  | [] => None
  | x :: rest => if p x then Some 0%nat else option_map S (findIndex p rest)
  end.

(** [POST /prompts] (lines 42-93).  [stored] is the content of
    [prompts.json], [None] when the file is missing or cannot be
    parsed; [writable] tells whether [fs.writeFile] succeeds. *)
Definition savePrompt (name text : option string) (stored : option (list Prompt))
    (writable : bool) : SaveReply * option (list Prompt) :=
  if negb (truthy name) || negb (truthy text) then (save_rejected, stored)
  else
    let entry := {| prompt_name := default EmptyString name;
                    prompt_text := default EmptyString text |} in
    let prompts := default [] stored in
    let existingIndex :=
      findIndex (fun p => String.eqb (prompt_name p) (prompt_name entry)) prompts in
    let prompts' :=
      match existingIndex with
      | Some index => <[index := entry]> prompts
      | None => prompts ++ [entry]
      end in
    if writable then
      (match existingIndex with Some _ => save_updated | None => save_added end,
       Some prompts')
    else (save_failed, stored).

(** [DELETE /prompts/:name] (lines 96-139). *)
Definition deletePrompt (promptName : string) (stored : option (list Prompt))
    (writable : bool) : DeleteReply * option (list Prompt) :=
  match stored with
  | None => (delete_no_data, None)
  | Some prompts =>
    let remaining :=
      List.filter (fun p => negb (String.eqb (prompt_name p) promptName)) prompts in
    if (length remaining =? length prompts)%nat then (delete_not_found, stored)
    else if writable then (delete_done, Some remaining)
    else (delete_failed, stored)
  end.

(** The text a reader of the array finds under [name]: that of the
    first entry with this name. *)
Definition promptText (name : string) (prompts : list Prompt) : option string :=
  option_map prompt_text
    (List.find (fun p => String.eqb (prompt_name p) name) prompts).

(** The update [savePrompt] makes, by recursion on the array: the
    first entry with the name of [entry] is replaced, or [entry] is
    appended. *)
Fixpoint upsert (entry : Prompt) (prompts : list Prompt) : list Prompt :=
  match prompts with
  | [] => [entry]
  | p :: rest =>
    if String.eqb (prompt_name p) (prompt_name entry) then entry :: rest
    else p :: upsert entry rest
  end.
(** ** Frame properties of the progress tracker *)

Lemma keepsJob_refl p : keepsJob p p.
Proof. unfold keepsJob; tauto. Qed.

Lemma keepsJob_trans p q r : keepsJob p q -> keepsJob q r -> keepsJob p r.
Proof. unfold keepsJob; intros H1 H2; intuition congruence. Qed.

Lemma keepsFile_refl p : keepsFile p p.
Proof. unfold keepsFile; tauto. Qed.

Lemma keepsFile_trans p q r : keepsFile p q -> keepsFile q r -> keepsFile p r.
Proof. unfold keepsFile; intros H1 H2; intuition congruence. Qed.

Lemma keepsJob_keepsFile p q : keepsJob p q -> keepsFile p q.
Proof. unfold keepsJob, keepsFile; tauto. Qed.

Create HintDb frames.
Lemma keepsBatch_refl p : keepsBatch p p.
Proof. unfold keepsBatch; tauto. Qed.

Lemma keepsBatch_trans p q r : keepsBatch p q -> keepsBatch q r -> keepsBatch p r.
Proof. unfold keepsBatch; intros H1 H2; intuition congruence. Qed.

Lemma keepsFile_keepsBatch p q : keepsFile p q -> keepsBatch p q.
Proof. unfold keepsFile, keepsBatch; tauto. Qed.

Lemma keepsJob_keepsBatch p q : keepsJob p q -> keepsBatch p q.
Proof. unfold keepsJob, keepsBatch; tauto. Qed.

#[local] Hint Resolve keepsJob_refl keepsFile_refl keepsBatch_refl
  keepsJob_keepsFile keepsFile_keepsBatch keepsJob_keepsBatch : frames.

(** Unfold an update of the progress record down to its fields. *)
Ltac open_progress :=
  repeat match goal with
         | w : World |- _ => destruct w as [[] ? ? ? ?]
         end;
  cbn in *.

Lemma cancelProcessing_keepsJob w :
  keepsJob (processingProgress w) (processingProgress (cancelProcessing w)).
Proof.
  unfold cancelProcessing. case_decide; [|apply keepsJob_refl].
  open_progress. unfold keepsJob; cbn; tauto.
Qed.

Lemma cancelProcessing_rest w :
  rateLimits (cancelProcessing w) = rateLimits w /\
  clock (cancelProcessing w) = clock w /\
  suspensions (cancelProcessing w) = suspensions w /\
  trace (cancelProcessing w) = trace w.
Proof. unfold cancelProcessing. case_decide; open_progress; tauto. Qed.

Lemma updateProgress_rest u w :
  rateLimits (updateProgress u w) = rateLimits w /\
  clock (updateProgress u w) = clock w /\
  suspensions (updateProgress u w) = suspensions w /\
  trace (updateProgress u w) = trace w.
Proof. destruct w; cbn; tauto. Qed.

(** ** C9: cancelProcessing *)

(** C9. [cancelProcessing] takes effect only when the status is
    [processing]: it then sets [cancelled], the status [cancelled] and
    the explanatory error message (stamping [lastUpdated]) and leaves
    every other field and the rest of the state as it was; under every
    other status the state is returned unchanged. *)
Theorem cancelProcessing_only_while_processing (w : World) :
  (status (processingProgress w) = processing ->
   let p := processingProgress w in
   let p' := processingProgress (cancelProcessing w) in
   cancelled p' = true /\ status p' = cancelled_status /\
   error p' = Some "Processing cancelled by user" /\
   lastUpdated p' = clock w /\
   currentFile p' = currentFile p /\
   currentFileNumber p' = currentFileNumber p /\
   totalFiles p' = totalFiles p /\ totalChunks p' = totalChunks p /\
   processedChunks p' = processedChunks p /\ startTime p' = startTime p /\
   estimatedEndTime p' = estimatedEndTime p /\
   processingHistory p' = processingHistory p /\
   processedFiles p' = processedFiles p /\
   rateLimits (cancelProcessing w) = rateLimits w /\
   clock (cancelProcessing w) = clock w /\
   trace (cancelProcessing w) = trace w) /\
  (status (processingProgress w) <> processing -> cancelProcessing w = w).
Proof.
  split; intros Hst.
  - unfold cancelProcessing. rewrite decide_True by exact Hst.
    open_progress. repeat split; reflexivity.
  - unfold cancelProcessing. rewrite decide_False by exact Hst. reflexivity.
Qed.

Lemma cancelProcessing_only_while_processing_witness :
  status (processingProgress (cancelProcessing (busyWorld 5))) = cancelled_status /\
  cancelled (processingProgress (cancelProcessing (busyWorld 5))) = true /\
  cancelProcessing (loadedWorld 5) = loadedWorld 5.
Proof.
  split; [|split].
  - apply (proj1 (cancelProcessing_only_while_processing (busyWorld 5))). reflexivity.
  - apply (proj1 (cancelProcessing_only_while_processing (busyWorld 5))). reflexivity.
  - apply (proj2 (cancelProcessing_only_while_processing (loadedWorld 5))). discriminate.
Defined.

(** ** C7: trackRequest *)

Lemma String_eqb_empty_false s : s <> EmptyString -> String.eqb s EmptyString = false.
Proof. intros H. apply String.eqb_neq. exact H. Qed.

(** The two outcomes of [trackRequest] for a non-empty key. *)
Lemma trackRequest_recorded modelKey i o w :
  modelKey <> EmptyString ->
  inheritedOnly modelKey w = false ->
  trackRequest modelKey i o w =
  (Return tt,
   emit (EvRecord modelKey (clock w) (i + o)%Q)
     (with_rateLimits
        (insert modelKey
           {| requests := requests (windowOf modelKey w) ++ [clock w];
              tokens := tokens (windowOf modelKey w) ++
                        [{| tk_timestamp := clock w; tk_count := (i + o)%Q |}] |}) w)).
Proof.
  intros Hne Hown. unfold trackRequest.
  rewrite (String_eqb_empty_false _ Hne), Hown. reflexivity.
Qed.

Lemma trackRequest_thrown modelKey i o w :
  modelKey <> EmptyString ->
  inheritedOnly modelKey w = true ->
  trackRequest modelKey i o w = (Throw cannotPush, emit (EvRecordFailed modelKey) w).
Proof.
  intros Hne Hinh. unfold trackRequest.
  rewrite (String_eqb_empty_false _ Hne), Hinh. reflexivity.
Qed.

Lemma inheritedOnly_own modelKey w :
  is_Some (rateLimits w !! modelKey) -> inheritedOnly modelKey w = false.
Proof. unfold inheritedOnly. intros [window ->]. reflexivity. Qed.





(** ** Updates of the progress record *)

Lemma updateProgress_chunk_done v e w :
  let w' := updateProgress [set_processedChunks v; set_estimatedEndTime e] w in
  processedChunks (processingProgress w') = v /\
  estimatedEndTime (processingProgress w') = e /\
  keepsFile (processingProgress w) (processingProgress w').
Proof. open_progress. unfold keepsFile; cbn. tauto. Qed.

Lemma updateProgress_chunk_failed v w :
  let w' := updateProgress [set_processedChunks v] w in
  processedChunks (processingProgress w') = v /\
  estimatedEndTime (processingProgress w') = estimatedEndTime (processingProgress w) /\
  keepsFile (processingProgress w) (processingProgress w').
Proof. open_progress. unfold keepsFile; cbn. tauto. Qed.

Lemma extrapolatedEnd_ext i n w w' :
  clock w' = clock w ->
  startTime (processingProgress w') = startTime (processingProgress w) ->
  extrapolatedEnd i n w' = extrapolatedEnd i n w.
Proof. unfold extrapolatedEnd. intros -> ->. reflexivity. Qed.

Lemma updateProgress_chunk_counters total done w :
  let w' := updateProgress [set_totalChunks total; set_processedChunks done] w in
  totalChunks (processingProgress w') = total /\
  processedChunks (processingProgress w') = done /\
  keepsBatch (processingProgress w) (processingProgress w').
Proof. open_progress. unfold keepsBatch; cbn. tauto. Qed.

Lemma updateProgress_outcome st err history w :
  let p := processingProgress w in
  let p' := processingProgress
              (updateProgress
                 [set_status st; set_error err; set_processingHistory history] w) in
  status p' = st /\ error p' = err /\ processingHistory p' = history /\
  totalChunks p' = totalChunks p /\ processedChunks p' = processedChunks p /\
  estimatedEndTime p' = estimatedEndTime p /\ cancelled p' = cancelled p /\
  currentFile p' = currentFile p /\ currentFileNumber p' = currentFileNumber p /\
  totalFiles p' = totalFiles p /\ startTime p' = startTime p /\
  processedFiles p' = processedFiles p /\ lastUpdated p' = clock w.
Proof. open_progress. repeat split; reflexivity. Qed.

Lemma updateProgress_single_done w :
  let w' := updateProgress [set_processedChunks 1] w in
  totalChunks (processingProgress w') = totalChunks (processingProgress w) /\
  keepsBatch (processingProgress w) (processingProgress w').
Proof. open_progress. unfold keepsBatch; cbn. tauto. Qed.

Lemma trackFileProcessing_frame filePath w :
  let w' := (trackFileProcessing filePath w).2 in
  processingHistory (processingProgress w') = processingHistory (processingProgress w) /\
  cancelled (processingProgress w') = cancelled (processingProgress w) /\
  clock w' = clock w /\ trace w' = trace w /\ rateLimits w' = rateLimits w.
Proof.
  cbn zeta. unfold trackFileProcessing. case_decide; [tauto|].
  open_progress. tauto.
Qed.

Lemma updateProgress_start start w :
  let w' := updateProgress
              [set_status processing; set_startTime (Some start);
               set_totalChunks 0; set_processedChunks 0; set_error None] w in
  processingHistory (processingProgress w') = processingHistory (processingProgress w) /\
  cancelled (processingProgress w') = cancelled (processingProgress w) /\
  status (processingProgress w') = processing.
Proof. open_progress. tauto. Qed.

(** ** Suspension and the rate limiter: frames and emitted events *)

Section Frames.

Context (env : Env).

Lemma suspend_keepsJob d w :
  keepsJob (processingProgress w) (processingProgress (suspend env d w)).
Proof.
  unfold suspend. destruct (cancel_requested _).
  - apply (cancelProcessing_keepsJob
             {| processingProgress := processingProgress w;
                rateLimits := rateLimits w;
                clock := clock w + Z.max 0 d + Z.of_N (elapsed (schedule env (suspensions w)));
                suspensions := S (suspensions w); trace := trace w |}).
  - apply keepsJob_refl.
Qed.

Lemma suspend_rest d w :
  rateLimits (suspend env d w) = rateLimits w /\
  trace (suspend env d w) = trace w /\
  clock (suspend env d w) =
    clock w + Z.max 0 d + Z.of_N (elapsed (schedule env (suspensions w))).
Proof.
  unfold suspend. destruct (cancel_requested _).
  - match goal with |- context [cancelProcessing ?x] =>
      destruct (cancelProcessing_rest x) as (-> & -> & _ & ->) end.
    cbn. tauto.
  - cbn. tauto.
Qed.


(** What one admission does to everything but the window of its key. *)
Lemma checkRateLimits_from_frame budget modelKey w :
  let w' := checkRateLimits_from env budget modelKey w in
  keepsJob (processingProgress w) (processingProgress w') /\
  clock w <= clock w' /\
  (forall other : string, other <> modelKey ->
     rateLimits w' !! other = rateLimits w !! other) /\
  exists sleeps, trace w' = trace w ++ sleeps /\ Forall isSleep sleeps.
Proof.
  revert w. induction budget as [|budget IH]; intros w; cbn zeta.
  all: cbn [checkRateLimits_from].
  all: destruct (getModelInfo env modelKey) as [model|];
    [|repeat split; [apply keepsJob_refl .. | lia | exists []; rewrite app_nil_r; auto]].
  all: match goal with
       | |- context [Z.pos ?r <=? ?n] => destruct (Z.pos r <=? n)
       end.
  all: try (cbn; repeat split;
            [apply keepsJob_refl .. | lia
            | intros other Ho; apply lookup_insert_ne; congruence
            | exists []; rewrite app_nil_r; auto]).
  all: match goal with
       | |- context [match ?l with [] => _ | _ :: _ => _ end] => destruct l as [|oldest rest]
       end.
  all: try (cbn; repeat split;
            [apply keepsJob_refl .. | lia
            | intros other Ho; apply lookup_insert_ne; congruence
            | exists []; rewrite app_nil_r; auto]).
  all: destruct (0 <? Z.max 0 (oldest + 60000 - clock w)) eqn:Hwait.
  - (* budget 0, waiting *)
    match goal with |- context [suspend env ?d ?x] =>
      pose proof (suspend_keepsJob d x) as Hk;
      destruct (suspend_rest d x) as (Hr & Ht & Hc) end.
    rewrite Hr, Ht, Hc. cbn in *. repeat split; try apply Hk.
    + lia.
    + intros other Ho. apply lookup_insert_ne. congruence.
    + eexists. split; [reflexivity|]. repeat constructor.
  - cbn. repeat split; try apply keepsJob_refl; try lia.
    + intros other Ho. apply lookup_insert_ne. congruence.
    + exists []. rewrite app_nil_r. auto.
  - match goal with |- context [checkRateLimits_from env budget modelKey ?x] =>
      specialize (IH x); cbn zeta in IH;
      destruct IH as (Hk' & Hc' & Ho' & sleeps & Ht' & Hs') end.
    match type of Hk' with context [suspend env ?d ?x] =>
      pose proof (suspend_keepsJob d x) as Hk;
      destruct (suspend_rest d x) as (Hr & Ht & Hc) end.
    rewrite Hc in Hc'. rewrite Ht in Ht'. cbn in *.
    split; [eapply keepsJob_trans; eauto|].
    split; [lia|]. split.
    + intros other Ho. rewrite Ho' by exact Ho. rewrite Hr.
      apply lookup_insert_ne. congruence.
    + eexists. split.
      * rewrite Ht', <- app_assoc. reflexivity.
      * constructor; [exact I | exact Hs'].
  - match goal with |- context [checkRateLimits_from env budget modelKey ?x] =>
      specialize (IH x); cbn zeta in IH;
      destruct IH as (Hk' & Hc' & Ho' & sleeps & Ht' & Hs') end.
    cbn in *. repeat split; try apply Hk'; try lia.
    + intros other Ho. rewrite Ho' by exact Ho.
      apply lookup_insert_ne. congruence.
    + exists sleeps. auto.
Qed.

End Frames.

Section Client.

Context (env : Env).

Lemma orElse_nonempty v fallback :
  fallback <> EmptyString -> orElse v fallback <> EmptyString.
Proof.
  intros Hf. destruct v as [s|]; cbn; [|exact Hf].
  destruct (String.eqb s EmptyString) eqn:E; [exact Hf|].
  apply String.eqb_neq. exact E.
Qed.

Lemma selectModel_nonempty model : selectModel env model <> EmptyString.
Proof.
  unfold selectModel. apply orElse_nonempty, orElse_nonempty. discriminate.
Qed.

Lemma checkRateLimits_frame modelKey w :
  let w' := checkRateLimits env modelKey w in
  keepsJob (processingProgress w) (processingProgress w') /\
  clock w <= clock w' /\
  (forall other : string, other <> modelKey ->
     rateLimits w' !! other = rateLimits w !! other) /\
  exists sleeps, trace w' = trace w ++ EvAdmit modelKey :: sleeps /\
                 Forall isSleep sleeps.
Proof.
  cbn zeta. unfold checkRateLimits.
  match goal with |- context [checkRateLimits_from env ?b modelKey ?x] =>
    destruct (checkRateLimits_from_frame env b modelKey x)
      as (Hk & Hc & Ho & sleeps & Ht & Hs) end.
  cbn in *. repeat split; try apply Hk; try lia; [exact Ho|].
  exists sleeps. rewrite Ht, <- app_assoc. auto.
Qed.

Lemma trackRequest_frame modelKey i o w :
  modelKey <> EmptyString ->
  let run := trackRequest modelKey i o w in
  processingProgress run.2 = processingProgress w /\
  clock run.2 = clock w /\
  (inheritedOnly modelKey w = false /\ run.1 = Return tt /\
   trace run.2 = trace w ++ [EvRecord modelKey (clock w) (i + o)%Q] \/
   inheritedOnly modelKey w = true /\ run.1 = Throw cannotPush /\
   inheritedProperty modelKey = true /\ rateLimits run.2 = rateLimits w /\
   trace run.2 = trace w ++ [EvRecordFailed modelKey]).
Proof.
  intros Hne. cbn zeta.
  destruct (inheritedOnly modelKey w) eqn:Hinh.
  - rewrite (trackRequest_thrown _ _ _ _ Hne Hinh). cbn.
    split; [reflexivity|]. split; [reflexivity|]. right.
    split; [reflexivity|]. split; [reflexivity|]. split; [|tauto].
    unfold inheritedOnly in Hinh. destruct (rateLimits w !! modelKey); [discriminate|].
    exact Hinh.
  - rewrite (trackRequest_recorded _ _ _ _ Hne Hinh). cbn. tauto.
Qed.

(** One client call: frame, monotone clock, and the shape of what it
    emitted by the replies it consumed. *)
Lemma callMonicaApi_from_run replies fileContent prompt model w r w' later :
  callMonicaApi_from env replies fileContent prompt model w = (r, w', later) ->
  keepsJob (processingProgress w) (processingProgress w') /\
  clock w <= clock w' /\
  exists consumed events,
    replies = consumed ++ later /\
    trace w' = trace w ++ events /\
    ClientRun (selectModel env model) consumed events /\
    (forall text, r = Return text ->
       exists usage, consumed <> [] /\ last consumed = Some (Resolved usage (Some text))).
Proof.
  revert w r w' later.
  induction replies as [|reply replies IH]; intros w r w' later;
    cbn [callMonicaApi_from].
  all: destruct (negb (truthy (MONICA_API_KEY env)) ||
                 negb (truthy (MONICA_API_ENDPOINT env))).
  all: try (intros [= <- <- <-]; split; [apply keepsJob_refl|]; split; [lia|];
            exists [], []; rewrite !app_nil_r; repeat split;
            [constructor | discriminate]).
  all: fold (selectModel env model).
  all: set (m := selectModel env model).
  all: set (message := prompt +:+ LF +:+ LF +:+ "File Content:" +:+ LF +:+ fileContent).
  all: destruct (checkRateLimits_frame m w) as (Hk1 & Hc1 & _ & sleeps & Ht1 & Hs1);
    cbn zeta in *.
  all: set (w1 := checkRateLimits env m w) in *.
  all: pose proof (suspend_keepsJob env 0 (emit (EvPost m message) w1)) as Hk2;
    destruct (suspend_rest env 0 (emit (EvPost m message) w1)) as (Hr2 & Ht2 & Hc2);
    set (w2 := suspend env 0 (emit (EvPost m message) w1)) in *.
  all: assert (Hk12 : keepsJob (processingProgress w) (processingProgress w2))
    by (eapply keepsJob_trans; [exact Hk1 | exact Hk2]).
  all: assert (Hc12 : clock w <= clock w2) by (rewrite Hc2; cbn; lia).
  all: assert (Ht12 : trace w2 = trace w ++ EvAdmit m :: sleeps ++ [EvPost m message])
    by (rewrite Ht2; cbn; rewrite Ht1, <- app_assoc; reflexivity).
  - (* no reply left *)
    intros [= <- <- <-]. repeat split; try apply Hk12; try lia.
    exists [], (EvAdmit m :: sleeps ++ [EvPost m message]).
    repeat split; [exact Ht12 | constructor; exact Hs1 | discriminate].
  - destruct reply as [usage content|http_status retry_after error_message| |msg].
    + (* resolved *)
      match goal with |- context [trackRequest m ?i ?o w2] =>
        destruct (trackRequest_frame m i o w2 (selectModel_nonempty model))
          as (Hp3 & Hc3 & Hout);
        destruct (trackRequest m i o w2) as [r3 w3] end.
      cbn [fst snd] in Hp3, Hc3, Hout.
      destruct Hout as [(_ & -> & Ht3)|(_ & -> & Hinh & _ & Ht3)].
      * assert (Hrun : exists at_time total,
                   trace w3 = trace w ++
                     (EvAdmit m :: sleeps ++
                      [EvPost m message; EvRecord m at_time total])).
        { do 2 eexists. rewrite Ht3, Ht12, <- app_assoc. cbn.
          rewrite <- app_assoc. reflexivity. }
        destruct Hrun as (at_time & total & Hrun).
        destruct content as [text|]; intros [= <- <- <-].
        all: split; [rewrite Hp3; exact Hk12|]; split; [lia|].
        all: eexists [Resolved usage _], _; repeat split;
          [exact Hrun | constructor; exact Hs1 | ].
        -- intros t [= <-]. exists usage. split; [discriminate | reflexivity].
        -- discriminate.
      * intros [= <- <- <-].
        split; [rewrite Hp3; exact Hk12|]. split; [lia|].
        exists [Resolved usage content],
               (EvAdmit m :: sleeps ++ [EvPost m message; EvRecordFailed m]).
        split; [reflexivity|]. split.
        { rewrite Ht3, Ht12, <- app_assoc. cbn. rewrite <- app_assoc. reflexivity. }
        split; [apply run_unrecorded; assumption | discriminate].
    + (* rejected *)
      destruct ((http_status =? 400) && truthy error_message &&
                includes "maximum context length" (orElse error_message EmptyString))
        eqn:Htoken.
      { intros [= <- <- <-]. split; [exact Hk12|]. split; [lia|].
        eexists [Rejected http_status retry_after error_message], _.
        repeat split; [exact Ht12 | | discriminate].
        constructor; [|exact Hs1]. cbn.
        apply andb_prop in Htoken as [Htoken _].
        apply andb_prop in Htoken as [Htoken _]. lia. }
      destruct (http_status =? 429) eqn:H429.
      * apply Z.eqb_eq in H429. subst http_status.
        set (ms := default 60 retry_after * 1000).
        pose proof (suspend_keepsJob env ms (emit (EvSleep ms) w2)) as Hk3.
        destruct (suspend_rest env ms (emit (EvSleep ms) w2)) as (Hr3 & Ht3 & Hc3).
        set (w3 := suspend env ms (emit (EvSleep ms) w2)) in *.
        intros Hrec. apply IH in Hrec.
        destruct Hrec as (Hk4 & Hc4 & consumed & events & Hsplit & Ht4 & Hrun & Hret).
        split; [eapply keepsJob_trans; [|exact Hk4];
                eapply keepsJob_trans; [exact Hk12 | exact Hk3]|].
        split; [rewrite Hc3 in Hc4; cbn in Hc4; lia|].
        exists (Rejected 429 retry_after error_message :: consumed),
               (EvAdmit m :: sleeps ++ EvPost m message :: EvSleep ms :: events).
        repeat split.
        -- cbn. rewrite Hsplit. reflexivity.
        -- rewrite Ht4, Ht3. cbn. rewrite Ht12. rewrite <- !app_assoc. cbn.
           rewrite <- !app_assoc. reflexivity.
        -- constructor; assumption.
        -- intros text Htext. destruct (Hret text Htext) as (usage & Hne & Hlast).
           exists usage. split; [discriminate|].
           destruct consumed; [congruence | exact Hlast].
      * intros [= <- <- <-]. split; [exact Hk12|]. split; [lia|].
        eexists [Rejected http_status retry_after error_message], _.
        repeat split; [exact Ht12 | | discriminate].
        constructor; [|exact Hs1]. cbn. apply Z.eqb_neq in H429. exact H429.
    + intros [= <- <- <-]. split; [exact Hk12|]. split; [lia|].
      eexists [NoReply], _.
      repeat split; [exact Ht12 | constructor; [exact I | exact Hs1] | discriminate].
    + intros [= <- <- <-]. split; [exact Hk12|]. split; [lia|].
      eexists [SetupFailure msg], _.
      repeat split; [exact Ht12 | constructor; [exact I | exact Hs1] | discriminate].
Qed.

End Client.

(** ** The chunk loop *)

Lemma completionCalls_app a b :
  completionCalls (a ++ b) = completionCalls a ++ completionCalls b.
Proof. apply omap_app. Qed.

Lemma completionCalls_sleeps sleeps :
  Forall isSleep sleeps -> completionCalls sleeps = [].
Proof.
  induction 1 as [|e l He _ IH]; [reflexivity|].
  destruct e; try contradiction. exact IH.
Qed.

Lemma completionCalls_client m consumed events :
  ClientRun m consumed events -> completionCalls events = [].
Proof.
  induction 1 as [|s msg Hs|u c s msg t q Hs|u c s msg Hs Hinh|reply s msg Hf Hs
                  |ra em s msg co ev Hs _ IH];
    cbn; rewrite ?completionCalls_app, ?(completionCalls_sleeps _ Hs);
    cbn; auto.
Qed.

Section Loop.

Context (env : Env).

Lemma callMonicaApi_run fileContent prompt model replies w r w' later :
  callMonicaApi env fileContent prompt model replies w = (r, w', later) ->
  keepsJob (processingProgress w) (processingProgress w') /\
  clock w <= clock w' /\
  exists consumed events,
    replies = consumed ++ later /\
    trace w' = trace w ++ EvCompletion fileContent prompt model :: events /\
    ClientRun (selectModel env model) consumed events /\
    (forall text, r = Return text ->
       exists usage, consumed <> [] /\ last consumed = Some (Resolved usage (Some text))).
Proof.
  unfold callMonicaApi. intros H.
  apply callMonicaApi_from_run in H.
  destruct H as (Hk & Hc & consumed & events & Hsplit & Ht & Hrun & Hret).
  split; [exact Hk|]. split; [exact Hc|].
  exists consumed, events. repeat split; auto.
  rewrite Ht. cbn. rewrite <- app_assoc. reflexivity.
Qed.

(** One iteration of the loop. *)
Lemma processChunk_run n i chunk prompt model replies w text ok w' later :
  processChunk env n i chunk prompt model replies w = (text, ok, w', later) ->
  keepsFile (processingProgress w) (processingProgress w') /\
  clock w <= clock w' /\
  processedChunks (processingProgress w') = Z.of_nat (i + 1) /\
  (ok = true ->
     estimatedEndTime (processingProgress w') = Some (extrapolatedEnd i n w')) /\
  (ok = false ->
     estimatedEndTime (processingProgress w') = estimatedEndTime (processingProgress w) /\
     exists message, text = chunkErrorText message) /\
  exists sleeps consumed events,
    replies = consumed ++ later /\
    Forall isSleep sleeps /\
    trace w' = trace w ++
               EvAdmit model :: sleeps ++
               EvCompletion chunk (chunkPrompt prompt i n) (Some model) :: events /\
    ClientRun (selectModel env (Some model)) consumed events /\
    (ok = true ->
       exists usage, consumed <> [] /\ last consumed = Some (Resolved usage (Some text))).
Proof.
  unfold processChunk.
  destruct (checkRateLimits_frame env model w) as (Hk1 & Hc1 & _ & sleeps & Ht1 & Hs1).
  cbn zeta in *. set (w1 := checkRateLimits env model w) in *.
  destruct (callMonicaApi env chunk (chunkPrompt prompt i n) (Some model) replies w1)
    as [[r w2] later2] eqn:Hcall.
  apply callMonicaApi_run in Hcall.
  destruct Hcall as (Hk2 & Hc2 & consumed & events & Hsplit & Ht2 & Hrun & Hret).
  assert (Hk12 : keepsJob (processingProgress w) (processingProgress w2))
    by (eapply keepsJob_trans; eauto).
  assert (Ht12 : trace w2 = trace w ++ EvAdmit model :: sleeps ++
                   EvCompletion chunk (chunkPrompt prompt i n) (Some model) :: events).
  { rewrite Ht2, Ht1, <- app_assoc. reflexivity. }
  destruct r as [chunkResponse|message]; intros [= <- <- <- <-].
  - match goal with |- context [updateProgress ?u w2] =>
      destruct (updateProgress_chunk_done (Z.of_nat (i + 1))
                  (Some (extrapolatedEnd i n w2)) w2) as (Hp & He & Hf);
      destruct (updateProgress_rest u w2) as (_ & Hc3 & _ & Ht3);
      set (w3 := updateProgress u w2) in * end.
    split; [eapply keepsFile_trans; [apply keepsJob_keepsFile; exact Hk12 | exact Hf]|].
    split; [lia|]. split; [exact Hp|]. split.
    + intros _. rewrite He. f_equal. symmetry.
      apply extrapolatedEnd_ext; [exact Hc3 | apply Hf].
    + split; [discriminate|].
      exists sleeps, consumed, events. rewrite Ht3. repeat split; auto.
  - match goal with |- context [updateProgress ?u w2] =>
      destruct (updateProgress_chunk_failed (Z.of_nat (i + 1)) w2) as (Hp & He & Hf);
      destruct (updateProgress_rest u w2) as (_ & Hc3 & _ & Ht3);
      set (w3 := updateProgress u w2) in * end.
    split; [eapply keepsFile_trans; [apply keepsJob_keepsFile; exact Hk12 | exact Hf]|].
    split; [lia|]. split; [exact Hp|]. split; [discriminate|]. split.
    + intros _. split; [|eexists; reflexivity].
      rewrite He. apply Hk12.
    + exists sleeps, consumed, events. rewrite Ht3. repeat split; auto.
      discriminate.
Qed.

(** The whole loop from index [i] on. *)
Lemma chunkLoop_run n i remaining prompt model responses replies w responses' w' later :
  chunkLoop env n i remaining prompt model responses replies w = (responses', w', later) ->
  keepsFile (processingProgress w) (processingProgress w') /\
  clock w <= clock w' /\
  (exists texts,
     responses' = responses ++ texts /\ length texts = length remaining /\
     (Forall noCompletion replies -> Forall isPlaceholder texts)) /\
  processedChunks (processingProgress w') =
    match remaining with
    | [] => processedChunks (processingProgress w)
    | _ :: _ => Z.of_nat (i + length remaining)
    end /\
  exists events,
    trace w' = trace w ++ events /\ completionCalls events = remaining.
Proof.
  revert i responses replies w.
  induction remaining as [|chunk rest IH]; intros i responses replies w; cbn [chunkLoop].
  - intros [= <- <- <-]. split; [apply keepsFile_refl|]. split; [lia|].
    split; [exists []; rewrite app_nil_r; auto|]. split; [reflexivity|].
    exists []. rewrite app_nil_r. auto.
  - destruct (processChunk env n i chunk prompt model replies w)
      as [[[text ok] w1] later1] eqn:Hbody.
    apply processChunk_run in Hbody.
    destruct Hbody as (Hf1 & Hc1 & Hp1 & _ & Hfail &
                       sleeps & consumed & events1 & Hsplit & Hs & Ht1 & Hrun & Hok).
    intros Hloop. apply IH in Hloop.
    destruct Hloop as (Hf2 & Hc2 & (texts & Hresp & Hlen & Hall) & Hp2 & events2 & Ht2 & Hcalls).
    split; [eapply keepsFile_trans; eauto|]. split; [lia|]. split; [|split].
    + exists (text :: texts). rewrite Hresp, <- app_assoc. cbn.
      split; [reflexivity|]. split; [congruence|].
      intros Hnone. subst replies. apply Forall_app in Hnone as [Hcons Hlater].
      constructor; [|apply Hall; exact Hlater].
      destruct ok.
      * destruct (Hok eq_refl) as (usage & Hne & Hlast).
        apply last_Some in Hlast as (front & ->).
        apply Forall_app in Hcons as [_ Hbad].
        inversion Hbad as [|? ? Hcontra _]. contradiction.
      * destruct (Hfail eq_refl) as (_ & message & ->). exists message. reflexivity.
    + rewrite Hp2. destruct rest as [|next rest'].
      * rewrite Hp1. cbn [length]. lia.
      * cbn [length]. lia.
    + exists ((EvAdmit model :: sleeps ++
               EvCompletion chunk (chunkPrompt prompt i n) (Some model) :: events1) ++ events2).
      split; [rewrite Ht2, Ht1, <- app_assoc; reflexivity|].
      change (EvAdmit model :: sleeps ++
              EvCompletion chunk (chunkPrompt prompt i n) (Some model) :: events1)
        with ([EvAdmit model] ++ sleeps ++
              [EvCompletion chunk (chunkPrompt prompt i n) (Some model)] ++ events1).
      rewrite !completionCalls_app, (completionCalls_sleeps _ Hs),
        (completionCalls_client _ _ _ Hrun), Hcalls.
      reflexivity.
Qed.

End Loop.

(** ** The orchestrator *)

Section Orchestrator.

Context (env : Env) (chunker : string -> Z -> list string).

Lemma processLargeFile_run fileContent prompt model budget replies w response w' later :
  processLargeFile env chunker fileContent prompt model budget replies w
    = (response, w', later) ->
  let chunks := chunker fileContent (budget * 4) in
  keepsBatch (processingProgress w) (processingProgress w') /\
  clock w <= clock w' /\
  totalChunks (processingProgress w') = Z.of_nat (length chunks) /\
  (exists texts,
     response = join chunkSeparator texts /\ length texts = length chunks /\
     (Forall noCompletion replies -> Forall isPlaceholder texts)) /\
  exists events,
    trace w' = trace w ++ events /\ completionCalls events = chunks.
Proof.
  unfold processLargeFile. cbn zeta.
  set (chunks := chunker fileContent (budget * 4)).
  match goal with |- context [updateProgress ?u w] =>
    destruct (updateProgress_chunk_counters (Z.of_nat (length chunks)) 0 w)
      as (Htot & _ & Hb1);
    destruct (updateProgress_rest u w) as (_ & Hc1 & _ & Ht1);
    set (w1 := updateProgress u w) in * end.
  destruct (chunkLoop env (length chunks) 0 chunks prompt model [] replies w1)
    as [[responses w2] later2] eqn:Hloop.
  intros [= <- <- <-].
  apply chunkLoop_run in Hloop.
  destruct Hloop as (Hf & Hc & (texts & Hresp & Hlen & Hall) & _ & events & Ht & Hcalls).
  split; [eapply keepsBatch_trans; [exact Hb1 | apply keepsFile_keepsBatch, Hf]|].
  split; [lia|].
  split; [destruct Hf as (_ & _ & _ & -> & _); exact Htot|].
  split; [exists texts; cbn in Hresp; subst responses; auto|].
  exists events. rewrite Ht, Ht1. auto.
Qed.

(** The [try] block: what it emits, how it ends, and what it leaves
    of the progress state. *)
Lemma processFile_try_run start inputPath outputPath prompt model replies w r w' later :
  processFile_try env chunker start inputPath outputPath prompt model replies w
    = (r, w', later) ->
  clock w <= clock w' /\
  (exists events,
     trace w' = trace w ++ events /\
     match readFile env inputPath with
     | Throw message => r = Throw message /\ completionCalls events = []
     | Return fileContent =>
       let limit := getModelTokenLimit env (selectModel env model) in
       let chunks := chunker fileContent (MAX_TOKENS_PER_CHUNK limit * 4) in
       if needsChunking fileContent limit then
         completionCalls events = chunks /\
         totalChunks (processingProgress w') = Z.of_nat (length chunks) /\
         exists texts,
           length texts = length chunks /\
           (Forall noCompletion replies -> Forall isPlaceholder texts) /\
           match writeFile env outputPath (join chunkSeparator texts) with
           | Return _ =>
             r = Return outputPath /\
             last events = Some (EvWrite outputPath (join chunkSeparator texts))
           | Throw message => r = Throw message
           end
       else
         completionCalls events = [fileContent] /\
         totalChunks (processingProgress w') = 1
     end) /\
  match r with
  | Return path =>
    path = outputPath /\
    exists w5,
      keepsBatch (processingProgress w) (processingProgress w5) /\
      w' = updateProgress
             [set_status completed; set_error None;
              set_processingHistory
                (slice_last 9 (processingHistory (processingProgress w5)) ++
                 [historyEntry (basename inputPath) (selectModel env model)
                    (clock w5 - start) (clock w5) true None])] w5
  | Throw _ => keepsBatch (processingProgress w) (processingProgress w')
  end.
Proof.
  unfold processFile_try.
  pose proof (suspend_keepsJob env 0 w) as Hk1.
  destruct (suspend_rest env 0 w) as (_ & Ht1 & Hc1).
  set (w1 := suspend env 0 w) in *.
  destruct (readFile env inputPath) as [fileContent|message].
  2:{ intros [= <- <- <-]. split; [lia|]. split.
      - exists []. rewrite app_nil_r. auto.
      - auto with frames. }
  cbn zeta. set (limit := getModelTokenLimit env (selectModel env model)).
  destruct (needsChunking fileContent limit).
  - (* chunked *)
    destruct (processLargeFile env chunker fileContent prompt (selectModel env model)
                (MAX_TOKENS_PER_CHUNK limit) replies w1)
      as [[response w2] later2] eqn:Hlarge.
    apply processLargeFile_run in Hlarge. cbn zeta in Hlarge.
    destruct Hlarge as (Hb2 & Hc2 & Htot & (texts & -> & Hlen & Hall) & events & Ht2 & Hcalls).
    pose proof (suspend_keepsJob env 0 w2) as Hk4.
    destruct (suspend_rest env 0 w2) as (_ & Ht4 & Hc4).
    set (w4 := suspend env 0 w2) in *.
    assert (Hb14 : keepsBatch (processingProgress w) (processingProgress w4)).
    { eapply keepsBatch_trans; [apply keepsJob_keepsBatch, Hk1|].
      eapply keepsBatch_trans; [exact Hb2 | apply keepsJob_keepsBatch, Hk4]. }
    assert (Htot4 : totalChunks (processingProgress w4) =
                    Z.of_nat (length (chunker fileContent (MAX_TOKENS_PER_CHUNK limit * 4)))).
    { destruct Hk4 as (_ & _ & _ & -> & _). exact Htot. }
    destruct (writeFile env outputPath (join chunkSeparator texts)) as [[]|message] eqn:Hwrite;
      intros [= <- <- <-].
    + split; [rewrite (proj1 (proj2 (updateProgress_rest _ _))); cbn; lia|].
      split.
      * exists (events ++ [EvWrite outputPath (join chunkSeparator texts)]).
        split; [|split; [|split]].
        -- rewrite (proj2 (proj2 (proj2 (updateProgress_rest _ _)))). cbn.
           rewrite Ht4, Ht2, Ht1, <- app_assoc. reflexivity.
        -- rewrite completionCalls_app, Hcalls. cbn. apply app_nil_r.
        -- match goal with |- context [updateProgress [set_status ?a; set_error ?b;
                                         set_processingHistory ?c] ?x] =>
             destruct (updateProgress_outcome a b c x) as (_ & _ & _ & -> & _) end.
           exact Htot4.
        -- exists texts. rewrite Hwrite. repeat split; auto.
           apply last_snoc.
      * split; [reflexivity|].
        exists (emit (EvWrite outputPath (join chunkSeparator texts)) w4).
        split; [exact Hb14 | reflexivity].
    + split; [lia|]. split; [|exact Hb14].
      exists events. split; [rewrite Ht4, Ht2, Ht1; reflexivity|].
      split; [exact Hcalls|]. split; [exact Htot4|].
      exists texts. rewrite Hwrite. auto.
  - (* single unit *)
    match goal with |- context [updateProgress ?u w1] =>
      destruct (updateProgress_chunk_counters 1 0 w1) as (Htot & _ & Hb2);
      destruct (updateProgress_rest u w1) as (_ & Hc2 & _ & Ht2);
      set (w2 := updateProgress u w1) in * end.
    destruct (callMonicaApi env fileContent prompt (Some (selectModel env model)) replies w2)
      as [[r3 w3] later3] eqn:Hcall.
    apply callMonicaApi_run in Hcall.
    destruct Hcall as (Hk3 & Hc3 & consumed & events & _ & Ht3 & Hrun & _).
    assert (Hb13 : keepsBatch (processingProgress w) (processingProgress w3)).
    { eapply keepsBatch_trans; [apply keepsJob_keepsBatch, Hk1|].
      eapply keepsBatch_trans; [exact Hb2 | apply keepsJob_keepsBatch, Hk3]. }
    assert (Htot3 : totalChunks (processingProgress w3) = 1).
    { destruct Hk3 as (_ & _ & _ & -> & _). exact Htot. }
    assert (Hcalls : completionCalls
                       (EvCompletion fileContent prompt (Some (selectModel env model)) :: events)
                     = [fileContent]).
    { cbn. f_equal. exact (completionCalls_client _ _ _ Hrun). }
    destruct r3 as [response|message].
    2:{ intros [= <- <- <-]. split; [lia|]. split; [|exact Hb13].
        eexists. split; [rewrite Ht3, Ht2, Ht1; reflexivity|]. auto. }
    destruct (updateProgress_single_done w3) as (Htot3' & Hb3').
    destruct (updateProgress_rest [set_processedChunks 1] w3) as (_ & Hc3' & _ & Ht3').
    set (w3' := updateProgress [set_processedChunks 1] w3) in *.
    pose proof (suspend_keepsJob env 0 w3') as Hk4.
    destruct (suspend_rest env 0 w3') as (_ & Ht4 & Hc4).
    set (w4 := suspend env 0 w3') in *.
    assert (Hb14 : keepsBatch (processingProgress w) (processingProgress w4)).
    { eapply keepsBatch_trans; [exact Hb13|].
      eapply keepsBatch_trans; [exact Hb3' | apply keepsJob_keepsBatch, Hk4]. }
    assert (Htot4 : totalChunks (processingProgress w4) = 1).
    { destruct Hk4 as (_ & _ & _ & -> & _). congruence. }
    destruct (writeFile env outputPath response) as [[]|message] eqn:Hwrite;
      intros [= <- <- <-].
    + split; [rewrite (proj1 (proj2 (updateProgress_rest _ _))); cbn; lia|].
      split.
      * eexists. split; [|split].
        -- rewrite (proj2 (proj2 (proj2 (updateProgress_rest _ _)))). cbn.
           rewrite Ht4, Ht3', Ht3, Ht2, Ht1, <- app_assoc. reflexivity.
        -- rewrite completionCalls_app, Hcalls. reflexivity.
        -- match goal with |- context [updateProgress [set_status ?a; set_error ?b;
                                         set_processingHistory ?c] ?x] =>
             destruct (updateProgress_outcome a b c x) as (_ & _ & _ & -> & _) end.
           exact Htot4.
      * split; [reflexivity|].
        exists (emit (EvWrite outputPath response) w4).
        split; [exact Hb14 | reflexivity].
    + split; [lia|]. split; [|exact Hb14].
      eexists. split; [rewrite Ht4, Ht3', Ht3, Ht2, Ht1; reflexivity|]. auto.
Qed.

End Orchestrator.

(** ** C6: one terminal status and one history entry per invocation *)

(** How one invocation ends. *)
Lemma processFile_outcome
    (env : Env) (chunker : string -> Z -> list string)
    (inputPath outputPath prompt : string) (model : option string)
    (replies : list HttpOutcome) (w : World)
    (r : Result string) (w' : World) (later : list HttpOutcome) :
  processFile env chunker inputPath outputPath prompt model replies w = (r, w', later) ->
  let p := processingProgress w in
  let p' := processingProgress w' in
  (r = Return outputPath /\
   status p' = completed /\ error p' = None /\
   exists entry,
     processingHistory p' = slice_last 9 (processingHistory p) ++ [entry] /\
     h_file entry = basename inputPath /\
     h_success entry = true /\ h_error entry = None)
  \/
  (exists message,
     r = Throw ("Failed to process file: " +:+ message) /\
     status p' = error_status /\ error p' = Some message /\
     exists entry,
       processingHistory p' = slice_last 9 (processingHistory p) ++ [entry] /\
       h_file entry = basename inputPath /\
       h_success entry = false /\ h_error entry = Some message).
Proof.
  cbn zeta. unfold processFile.
  destruct (trackFileProcessing inputPath w) as [fileNumber w1] eqn:Htrack.
  pose proof (trackFileProcessing_frame inputPath w) as Hf1.
  rewrite Htrack in Hf1. cbn in Hf1. destruct Hf1 as (Hh1 & _).
  match goal with |- context [updateProgress ?u w1] =>
    destruct (updateProgress_start (clock w) w1) as (Hh2 & _);
    set (w2 := updateProgress u w1) in * end.
  destruct (processFile_try env chunker (clock w) inputPath outputPath prompt model replies w2)
    as [[r3 w3] later3] eqn:Htry.
  apply processFile_try_run in Htry. destruct Htry as (_ & _ & Hend).
  destruct r3 as [path|message].
  - intros [= <- <- <-].
    left. destruct Hend as (-> & w5 & Hb & ->).
    match goal with |- context [updateProgress [set_status ?a; set_error ?b;
                                    set_processingHistory ?c] ?x] =>
      destruct (updateProgress_outcome a b c x) as (-> & -> & -> & _) end.
    repeat split. eexists. split.
    { destruct Hb as (_ & _ & _ & _ & -> & _). rewrite Hh2, Hh1. reflexivity. }
    repeat split.
  - unfold processFile_catch. intros [= <- <- <-].
    right. exists message.
    match goal with |- context [updateProgress [set_status ?a; set_error ?b;
                                    set_processingHistory ?c] ?x] =>
      destruct (updateProgress_outcome a b c x) as (-> & -> & -> & _) end.
    repeat split. eexists. split.
    { destruct Hend as (_ & _ & _ & _ & -> & _). rewrite Hh2, Hh1. reflexivity. }
    repeat split.
Qed.

(** C6. Whatever the file system, the remote service and the HTTP layer
    do, one invocation of [processFile] ends in exactly one of two
    ways.  Either it returns the output path, the status is
    [completed], the error is cleared and the history is the last nine
    old entries followed by one new entry for this file with
    [success = true]; or it throws the generic failure
    ["Failed to process file: <message>"], the status is [error], the
    error field holds the message and the history is the last nine old
    entries followed by one new entry for this file with
    [success = false] and that message. *)
Theorem processFile_one_terminal_entry
    (env : Env) (chunker : string -> Z -> list string)
    (inputPath outputPath prompt : string) (model : option string)
    (replies : list HttpOutcome) (w : World) :
  let run := processFile env chunker inputPath outputPath prompt model replies w in
  let result := run.1.1 in
  let p := processingProgress w in
  let p' := processingProgress run.1.2 in
  (result = Return outputPath /\
   status p' = completed /\ error p' = None /\
   exists entry,
     processingHistory p' = slice_last 9 (processingHistory p) ++ [entry] /\
     h_file entry = basename inputPath /\
     h_success entry = true /\ h_error entry = None)
  \/
  (exists message,
     result = Throw ("Failed to process file: " +:+ message) /\
     status p' = error_status /\ error p' = Some message /\
     exists entry,
       processingHistory p' = slice_last 9 (processingHistory p) ++ [entry] /\
       h_file entry = basename inputPath /\
       h_success entry = false /\ h_error entry = Some message).
Proof.
  cbn zeta.
  destruct (processFile env chunker inputPath outputPath prompt model replies w)
    as [[r w'] later] eqn:Hrun.
  exact (processFile_outcome _ _ _ _ _ _ _ _ _ _ _ Hrun).
Qed.

(** ** C1: the trigger policy and the number of completion calls *)

Lemma needsChunking_spec fileContent limit :
  needsChunking fileContent limit = false <->
  (estimatedTokens fileContent <= inject_Z (MAX_TOKENS_PER_CHUNK limit))%Q.
Proof.
  unfold needsChunking. rewrite negb_false_iff. apply Qle_bool_iff.
Qed.

(** What [processFile] adds around its [try] block. *)
Lemma processFile_around_try env chunker inputPath outputPath prompt model replies w
    r w' later :
  processFile env chunker inputPath outputPath prompt model replies w = (r, w', later) ->
  exists w2 r3 w3,
    trace w2 = trace w /\
    clock w2 = clock w /\
    (cancelled (processingProgress w) = true -> cancelled (processingProgress w2) = true) /\
    processFile_try env chunker (clock w) inputPath outputPath prompt model replies w2
      = (r3, w3, later) /\
    trace w' = trace w3 /\
    totalChunks (processingProgress w') = totalChunks (processingProgress w3) /\
    cancelled (processingProgress w') = cancelled (processingProgress w3) /\
    match r3 with
    | Return path => r = Return path /\ w' = w3
    | Throw message => r = Throw ("Failed to process file: " +:+ message)
    end.
Proof.
  unfold processFile.
  destruct (trackFileProcessing inputPath w) as [fileNumber w1] eqn:Htrack.
  pose proof (trackFileProcessing_frame inputPath w) as Hf1.
  rewrite Htrack in Hf1. cbn in Hf1. destruct Hf1 as (_ & Hx1 & Hc1 & Ht1 & _).
  match goal with |- context [updateProgress ?u w1] =>
    destruct (updateProgress_start (clock w) w1) as (_ & Hx2 & _);
    destruct (updateProgress_rest u w1) as (_ & Hc2 & _ & Ht2);
    set (w2 := updateProgress u w1) in * end.
  destruct (processFile_try env chunker (clock w) inputPath outputPath prompt model replies w2)
    as [[r3 w3] later3] eqn:Htry.
  destruct r3 as [path|message].
  - intros [= <- <- <-]. exists w2, (Return path), w3.
    repeat split; congruence.
  - unfold processFile_catch. intros [= <- <- <-].
    exists w2, (Throw message), w3.
    match goal with |- context [updateProgress [set_status ?a; set_error ?b;
                                    set_processingHistory ?c] ?x] =>
      destruct (updateProgress_outcome a b c x)
        as (_ & _ & _ & Htot & _ & _ & Hcan & _);
      destruct (updateProgress_rest [set_status a; set_error b; set_processingHistory c] x)
        as (_ & _ & _ & Ht4) end.
    repeat split; congruence.
Qed.

(** C1. Once the content has been read, with [L] its length and [T]
    the token limit of the selected model: if [L/4 <= floor(T*0.8)] the
    orchestrator makes exactly one completion call, on the whole
    content, and [totalChunks] is 1; otherwise it makes one completion
    call per chunk of the chunk array built for the character budget
    [floor(T*0.8)*4], in array order, [totalChunks] is the length of
    that array, and when the array respects the budget so does the
    content of every call; the array of the published source does. *)
Theorem processFile_completion_calls
    (env : Env) (chunker : string -> Z -> list string)
    (inputPath outputPath prompt : string) (model : option string)
    (replies : list HttpOutcome) (w : World)
    (fileContent : string) (r : Result string) (w' : World) (later : list HttpOutcome) :
  readFile env inputPath = Return fileContent ->
  processFile env chunker inputPath outputPath prompt model replies w = (r, w', later) ->
  let L := Z.of_nat (String.length fileContent) in
  let T := getModelTokenLimit env (selectModel env model) in
  let budget := Qfloor (inject_Z T * (8 # 10)) in
  let chunks := chunker fileContent (budget * 4) in
  exists events,
    trace w' = trace w ++ events /\
    ((inject_Z L / 4 <= inject_Z budget)%Q ->
       completionCalls events = [fileContent] /\
       totalChunks (processingProgress w') = 1) /\
    (~ (inject_Z L / 4 <= inject_Z budget)%Q ->
       completionCalls events = chunks /\
       length (completionCalls events) = length chunks /\
       totalChunks (processingProgress w') = Z.of_nat (length chunks) /\
       (withinBudget (budget * 4) chunks ->
        withinBudget (budget * 4) (completionCalls events))) /\
    withinBudget (budget * 4) (publishedChunks fileContent (budget * 4)).
Proof.
  intros Hread Hrun. cbn zeta.
  change (Qfloor (inject_Z (getModelTokenLimit env (selectModel env model)) * (8 # 10)))
    with (MAX_TOKENS_PER_CHUNK (getModelTokenLimit env (selectModel env model))).
  change (inject_Z (Z.of_nat (String.length fileContent)) / 4)%Q
    with (estimatedTokens fileContent).
  apply processFile_around_try in Hrun.
  destruct Hrun as (w2 & r3 & w3 & Ht2 & _ & _ & Htry & Ht' & Htot' & _ & _).
  apply processFile_try_run in Htry.
  destruct Htry as (_ & (events & Ht3 & Hcalls) & _).
  rewrite Hread in Hcalls. cbn zeta in Hcalls.
  exists events. split; [congruence|].
  split; [|split; [|constructor]].
  all: destruct (needsChunking fileContent (getModelTokenLimit env (selectModel env model)))
    eqn:Hneed.
  - intros Hle. apply needsChunking_spec in Hle. congruence.
  - intros _. destruct Hcalls as (Hcalls & Htot). split; congruence.
  - intros _. destruct Hcalls as (Hcalls & Htot & _). rewrite Hcalls, Htot'. auto.
  - intros Hnot. apply needsChunking_spec in Hneed. contradiction.
Qed.

Lemma publishedChunks_withinBudget fileContent charsPerChunk :
  withinBudget charsPerChunk (publishedChunks fileContent charsPerChunk).
Proof. constructor. Qed.

Lemma processFile_completion_calls_witness :
  exists events,
    trace (processFile (quietEnv [] (fun _ => Return "hello") 5) publishedChunks
             "/in/a.txt" "/out/a.txt" "Summarise" None
             [Resolved None (Some "fine")] (loadedWorld 1000)).1.2
    = trace (loadedWorld 1000) ++ events /\
    completionCalls events = ["hello"].
Proof.
  destruct (processFile (quietEnv [] (fun _ => Return "hello") 5) publishedChunks
              "/in/a.txt" "/out/a.txt" "Summarise" None
              [Resolved None (Some "fine")] (loadedWorld 1000))
    as [[r w'] later] eqn:Hrun.
  destruct (processFile_completion_calls
              (quietEnv [] (fun _ => Return "hello") 5) publishedChunks
              "/in/a.txt" "/out/a.txt" "Summarise" None
              [Resolved None (Some "fine")] (loadedWorld 1000)
              "hello" r w' later eq_refl Hrun) as (events & Ht & Hsmall & _ & _).
  exists events. split; [exact Ht|].
  apply Hsmall. vm_compute. discriminate.
Defined.

(** ** C10: failed chunks never fail the file *)



(** ** C8: progress after a chunk attempt *)

(** C8, as stated, fails for failed attempts: after a chunk whose
    request gets no answer [processedChunks] is updated but
    [estimatedEndTime] is still [null], not the extrapolation. *)
Lemma failed_chunk_keeps_estimate :
  let '(_, ok, w', _) :=
    processChunk tinyEnv 1 0 "abcd" "Summarise" "tiny" [NoReply] (busyWorld 1000) in
  ok = false /\
  processedChunks (processingProgress w') = 1 /\
  estimatedEndTime (processingProgress w') = None /\
  estimatedEndTime (processingProgress w') <> Some (extrapolatedEnd 0 1 w').
Proof. vm_compute. repeat split; discriminate. Qed.

(** C8, amended. After every chunk attempt, successful or not,
    [processedChunks] is the number of chunks attempted so far.  After
    a successful attempt [estimatedEndTime] is
    [startTime + (now - startTime) / (i + 1) * chunks.length]; after a
    failed attempt it keeps the value it had before the attempt. *)
Theorem chunk_attempt_updates_progress
    (env : Env) (n i : nat) (chunk prompt model : string)
    (replies : list HttpOutcome) (w : World)
    (text : string) (ok : bool) (w' : World) (later : list HttpOutcome) :
  processChunk env n i chunk prompt model replies w = (text, ok, w', later) ->
  let start := numberOf (startTime (processingProgress w)) in
  processedChunks (processingProgress w') = Z.of_nat (i + 1) /\
  (ok = true ->
   estimatedEndTime (processingProgress w') =
     Some (inject_Z start +
           inject_Z (clock w' - start) / inject_Z (Z.of_nat (i + 1)) *
           inject_Z (Z.of_nat n))%Q) /\
  (ok = false ->
   estimatedEndTime (processingProgress w') = estimatedEndTime (processingProgress w)).
Proof.
  intros Hbody. apply processChunk_run in Hbody.
  destruct Hbody as (Hf & _ & Hp & Hok & Hfail & _).
  cbn zeta. split; [exact Hp|]. split.
  - intros Htrue. rewrite (Hok Htrue). unfold extrapolatedEnd.
    destruct Hf as (_ & _ & _ & _ & -> & _). reflexivity.
  - intros Hfalse. apply (Hfail Hfalse).
Qed.

Lemma chunk_attempt_updates_progress_witness :
  let '(_, _, w', _) :=
    processChunk tinyEnv 2 0 "abcd" "Summarise" "tiny"
      [Resolved None (Some "A")] (busyWorld 1000) in
  processedChunks (processingProgress w') = 1 /\
  estimatedEndTime (processingProgress w') =
    Some (inject_Z 1000 + inject_Z (clock w' - 1000) / inject_Z 1 * inject_Z 2)%Q.
Proof.
  destruct (processChunk tinyEnv 2 0 "abcd" "Summarise" "tiny"
              [Resolved None (Some "A")] (busyWorld 1000))
    as [[[text ok] w'] later] eqn:Hbody.
  destruct (chunk_attempt_updates_progress _ _ _ _ _ _ _ _ _ _ _ _ Hbody)
    as (Hp & Hok & _).
  split; [exact Hp|].
  apply Hok. vm_compute in Hbody. congruence.
Defined.

(** ** C4: cancellation and the chunk loop *)





(** ** C5: admission and recording around every network attempt *)

(** C5, as stated, fails in the chunked path: the loop calls
    [checkRateLimits] and then the client calls it again, so the single
    request of a chunk is preceded by two admissions. *)
Lemma chunk_attempt_passes_limiter_twice :
  let '(_, _, w', _) :=
    processChunk tinyEnv 1 0 "abcd" "Summarise" "tiny"
      [Resolved None (Some "A")] (busyWorld 1000) in
  admissions (trace w') = 2%nat /\ posts (trace w') = 1%nat /\
  records (trace w') = 1%nat.
Proof. vm_compute. repeat split. Qed.

Lemma filter_sleeps (f : Event -> bool) sleeps :
  (forall ms, f (EvSleep ms) = false) ->
  Forall isSleep sleeps -> List.filter f sleeps = [].
Proof.
  intros Hf. induction 1 as [|e l He _ IH]; [reflexivity|].
  destruct e; try contradiction. cbn. rewrite Hf. exact IH.
Qed.

Lemma ClientRun_counts m consumed events :
  ClientRun m consumed events ->
  admissions events = posts events /\
  records events = resolvedReplies consumed.
Proof.
  unfold admissions, posts, records, resolvedReplies.
  induction 1 as [|s msg Hs|u c s msg t q Hs|u c s msg Hs Hinh|reply s msg Hf Hs
                  |ra em s msg co ev Hs _ IH];
    cbn [List.filter isAdmit isPost isRecord isResolved length];
    rewrite ?List.filter_app;
    rewrite ?(filter_sleeps isAdmit _ (fun _ => eq_refl) Hs);
    rewrite ?(filter_sleeps isPost _ (fun _ => eq_refl) Hs);
    rewrite ?(filter_sleeps isRecord _ (fun _ => eq_refl) Hs);
    cbn [List.filter isAdmit isPost isRecord isResolved length app];
    try (split; reflexivity).
  - destruct reply; cbn in Hf |- *; try contradiction; split; reflexivity.
  - destruct IH as [IH1 IH2]. split; congruence.
Qed.

(** C5, amended. Inside the API client every network attempt, first
    try or retry after a 429, is preceded by exactly one admission, and
    a request is recorded exactly once after a 2xx reply and never
    after any other reply; a 429 is followed by a sleep and a new
    admission.  In the chunked path the loop itself calls the rate
    limiter once more before each chunk's client call, so there the
    number of admissions is the number of attempts plus one per
    chunk. *)
Theorem limiter_calls_per_attempt (env : Env) :
  (forall fileContent prompt model replies w r w' later,
     callMonicaApi env fileContent prompt model replies w = (r, w', later) ->
     exists consumed events,
       replies = consumed ++ later /\
       trace w' = trace w ++ EvCompletion fileContent prompt model :: events /\
       ClientRun (selectModel env model) consumed events /\
       admissions events = posts events /\
       records events = resolvedReplies consumed) /\
  (forall n i chunk prompt model replies w text ok w' later,
     processChunk env n i chunk prompt model replies w = (text, ok, w', later) ->
     exists consumed sleeps clientEvents,
       let events :=
         EvAdmit model :: sleeps ++
         EvCompletion chunk (chunkPrompt prompt i n) (Some model) :: clientEvents in
       replies = consumed ++ later /\
       trace w' = trace w ++ events /\
       Forall isSleep sleeps /\
       ClientRun (selectModel env (Some model)) consumed clientEvents /\
       admissions events = S (posts events) /\
       records events = resolvedReplies consumed).
Proof.
  split.
  - intros fileContent prompt model replies w r w' later Hcall.
    apply callMonicaApi_run in Hcall.
    destruct Hcall as (_ & _ & consumed & events & Hsplit & Ht & Hrun & _).
    exists consumed, events. destruct (ClientRun_counts _ _ _ Hrun). auto.
  - intros n i chunk prompt model replies w text ok w' later Hbody.
    apply processChunk_run in Hbody.
    destruct Hbody as (_ & _ & _ & _ & _ & sleeps & consumed & events & Hsplit & Hs & Ht & Hrun & _).
    destruct (ClientRun_counts _ _ _ Hrun) as [Ha Hr].
    exists consumed, sleeps, events. cbn zeta.
    split; [exact Hsplit|]. split; [exact Ht|]. split; [exact Hs|].
    split; [exact Hrun|].
    unfold admissions, posts, records in *.
    cbn [List.filter isAdmit isPost isRecord length].
    rewrite !List.filter_app.
    rewrite (filter_sleeps isAdmit _ (fun _ => eq_refl) Hs).
    rewrite (filter_sleeps isPost _ (fun _ => eq_refl) Hs).
    rewrite (filter_sleeps isRecord _ (fun _ => eq_refl) Hs).
    cbn [List.filter isAdmit isPost isRecord length app].
    split; congruence.
Qed.

Lemma limiter_calls_per_attempt_witness :
  let '(_, w', _) :=
    callMonicaApi tinyEnv "abcd" "Summarise" (Some "tiny")
      [Rejected 429 (Some 1) None; Resolved None (Some "A")] (busyWorld 1000) in
  exists events,
    trace w' = trace (busyWorld 1000) ++
               EvCompletion "abcd" "Summarise" (Some "tiny") :: events /\
    admissions events = posts events /\ records events = 1%nat.
Proof.
  destruct (callMonicaApi tinyEnv "abcd" "Summarise" (Some "tiny")
              [Rejected 429 (Some 1) None; Resolved None (Some "A")] (busyWorld 1000))
    as [[r w'] later] eqn:Hcall.
  destruct (proj1 (limiter_calls_per_attempt tinyEnv) _ _ _ _ _ _ _ _ Hcall)
    as (consumed & events & Hsplit & Ht & _ & Ha & Hr).
  exists events. split; [exact Ht|]. split; [exact Ha|].
  rewrite Hr. vm_compute in Hcall.
  assert (later = []) as -> by congruence.
  rewrite app_nil_r in Hsplit. subst consumed. reflexivity.
Defined.

(** ** C3: the sliding window of the rate limiter *)

Lemma filter_recent_later c c' (l : list Z) :
  c <= c' -> filter (recent c') (filter (recent c) l) = filter (recent c') l.
Proof.
  intros Hle. apply list_filter_filter_l. unfold recent. intros x. lia.
Qed.

Lemma length_filter_recent_later c c' (l : list Z) :
  c <= c' -> (length (filter (recent c') l) <= length (filter (recent c) l))%nat.
Proof.
  intros Hle. rewrite <- (filter_recent_later c c' l Hle). apply length_filter.
Qed.

Lemma filter_recent_all c (l : list Z) :
  Forall (recent c) l -> filter (recent c) l = l.
Proof.
  induction 1 as [|x l Hx _ IH]; [reflexivity|].
  rewrite filter_cons_True by exact Hx. f_equal. exact IH.
Qed.

Lemma recordedAt_app modelKey a b :
  recordedAt modelKey (a ++ b) = recordedAt modelKey a ++ recordedAt modelKey b.
Proof. apply omap_app. Qed.

Lemma recordedAt_sleeps modelKey sleeps :
  Forall isSleep sleeps -> recordedAt modelKey sleeps = [].
Proof.
  induction 1 as [|e l He _ IH]; [reflexivity|].
  destruct e; try contradiction. exact IH.
Qed.

Lemma windowOf_insert modelKey window w :
  windowOf modelKey (with_rateLimits (insert modelKey window) w) = window.
Proof. unfold windowOf. cbn. rewrite lookup_insert_eq. reflexivity. Qed.

Lemma windowOf_ext modelKey w w' :
  rateLimits w' !! modelKey = rateLimits w !! modelKey ->
  windowOf modelKey w' = windowOf modelKey w.
Proof. unfold windowOf. intros ->. reflexivity. Qed.

(** Tracking survives the passing of time. *)
Lemma windowTracksTrace_later modelKey w w' :
  windowTracksTrace modelKey w ->
  clock w <= clock w' ->
  windowOf modelKey w' = windowOf modelKey w ->
  recordedAt modelKey (trace w') = recordedAt modelKey (trace w) ->
  windowTracksTrace modelKey w'.
Proof.
  unfold windowTracksTrace. intros Htr Hle -> ->.
  rewrite <- (filter_recent_later (clock w) (clock w')) by exact Hle.
  rewrite Htr. apply filter_recent_later. exact Hle.
Qed.

(** Tracking survives a purge at any time up to now. *)
Lemma windowTracksTrace_purged modelKey w w' c :
  windowTracksTrace modelKey w ->
  clock w <= c -> c <= clock w' ->
  requests (windowOf modelKey w') = filter (recent c) (requests (windowOf modelKey w)) ->
  recordedAt modelKey (trace w') = recordedAt modelKey (trace w) ->
  windowTracksTrace modelKey w'.
Proof.
  unfold windowTracksTrace. intros Htr Hle1 Hle2 -> ->.
  rewrite filter_recent_later by exact Hle2.
  rewrite <- (filter_recent_later (clock w) (clock w')) by lia.
  rewrite Htr. apply filter_recent_later. lia.
Qed.

Section RateLimiter.

Context (env : Env).

(** An activation that finds a free slot returns at once. *)
Lemma checkRateLimits_from_free budget modelKey model w :
  getModelInfo env modelKey = Some model ->
  (length (filter (recent (clock w)) (requests (windowOf modelKey w)))
   < Pos.to_nat (rpm model))%nat ->
  checkRateLimits_from env budget modelKey w =
  with_rateLimits
    (insert modelKey
       {| requests := filter (recent (clock w)) (requests (windowOf modelKey w));
          tokens := filter (fun entry => clock w - 60000 < tk_timestamp entry)
                      (tokens (windowOf modelKey w)) |}) w.
Proof.
  intros Hm Hfree. destruct budget; cbn [checkRateLimits_from]; rewrite Hm; cbn zeta.
  all: change (filter (fun timestamp : Z => clock w - 60000 < timestamp)
                 (requests (windowOf modelKey w)))
         with (filter (recent (clock w)) (requests (windowOf modelKey w))).
  all: cbn [requests].
  all: destruct (Z.leb_spec (Z.pos (rpm model))
                   (Z.of_nat (length (filter (recent (clock w))
                                        (requests (windowOf modelKey w)))))) as [Hle|Hlt];
    [lia | reflexivity].
Qed.

(** The window after an admission: the old requests purged at some
    time between call and return; with enough budget for the
    re-checks, purged at the time of return and below the limit. *)
Lemma checkRateLimits_from_window budget modelKey model w :
  getModelInfo env modelKey = Some model ->
  let w' := checkRateLimits_from env budget modelKey w in
  (exists c, clock w <= c /\ c <= clock w' /\
     requests (windowOf modelKey w') =
       filter (recent c) (requests (windowOf modelKey w))) /\
  ((length (filter (recent (clock w)) (requests (windowOf modelKey w))) <= budget)%nat ->
   requests (windowOf modelKey w') =
     filter (recent (clock w')) (requests (windowOf modelKey w)) /\
   (length (requests (windowOf modelKey w')) < Pos.to_nat (rpm model))%nat).
Proof.
  intros Hm. revert w. induction budget as [|budget IH]; intros w; cbn zeta.
  all: cbn [checkRateLimits_from]; rewrite Hm; cbn zeta.
  all: change (filter (fun timestamp : Z => clock w - 60000 < timestamp)
                 (requests (windowOf modelKey w)))
         with (filter (recent (clock w)) (requests (windowOf modelKey w))).
  all: cbn [requests].
  all: set (cleaned := filter (recent (clock w)) (requests (windowOf modelKey w))).
  all: set (window := (Build_RateWindow cleaned _)).
  all: destruct (Z.leb_spec (Z.pos (rpm model)) (Z.of_nat (length cleaned))) as [Hle|Hlt].
  all: try (rewrite windowOf_insert; cbn; split;
            [exists (clock w); repeat split; lia | intros _; split; [reflexivity | lia]]).
  all: destruct cleaned as [|oldest rest] eqn:Hcleaned; [cbn in Hle; lia|].
  all: assert (Hrecent : recent (clock w) oldest)
    by (assert (Hin : oldest ∈ (filter (recent (clock w)) (requests (windowOf modelKey w))))
          by (fold cleaned; rewrite Hcleaned; left);
        apply list_elem_of_filter in Hin; tauto).
  all: assert (Hwait : (0 <? Z.max 0 (oldest + 60000 - clock w)) = true)
    by (apply Z.ltb_lt; unfold recent in Hrecent; lia).
  all: rewrite Hwait.
  all: set (waitTime := Z.max 0 (oldest + 60000 - clock w)) in *.
  all: set (w1 := with_rateLimits (insert modelKey window) w).
  all: destruct (suspend_rest env waitTime (emit (EvSleep waitTime) w1)) as (Hr2 & _ & Hc2).
  all: set (w2 := suspend env waitTime (emit (EvSleep waitTime) w1)) in *.
  all: assert (Hw2 : requests (windowOf modelKey w2) = oldest :: rest)
    by (unfold windowOf; rewrite Hr2; cbn; rewrite lookup_insert_eq; reflexivity).
  all: assert (Hclock : oldest + 60000 <= clock w2)
    by (rewrite Hc2; cbn; unfold waitTime; lia).
  - (* no budget left: only reachable with a full window *)
    split.
    + exists (clock w). rewrite Hw2. unfold recent in Hrecent.
      split; [lia|]. split; [lia|]. symmetry. exact Hcleaned.
    + cbn. lia.
  - specialize (IH w2). cbn zeta in IH.
    set (w' := checkRateLimits_from env budget modelKey w2) in *.
    destruct IH as ((c & Hc1 & Hc3 & Hreq) & Henough).
    rewrite Hw2 in Hreq, Henough.
    assert (Hold : filter (recent (clock w)) (requests (windowOf modelKey w)) = oldest :: rest)
      by exact Hcleaned.
    split.
    + exists c. split; [unfold recent in Hrecent; lia|]. split; [exact Hc3|].
      rewrite Hreq, <- Hold. apply filter_recent_later.
      unfold recent in Hrecent. lia.
    + intros Hbudget. cbn [length] in Hbudget.
      assert (Hless : (length (filter (recent (clock w2)) (oldest :: rest)) <= budget)%nat).
      { rewrite filter_cons_False by (unfold recent; lia).
        pose proof (length_filter (recent (clock w2)) rest). lia. }
      destruct (Henough Hless) as (Hreq' & Hlen').
      split; [|exact Hlen'].
      rewrite Hreq', <- Hold. apply filter_recent_later.
      pose proof (proj1 (proj2 (checkRateLimits_from_frame env budget modelKey w2))) as Hmono.
      cbn zeta in Hmono. fold w' in Hmono. unfold recent in Hrecent. lia.
Qed.

Lemma rateInvariant_later w w' :
  rateInvariant env w ->
  clock w <= clock w' ->
  rateLimits w' = rateLimits w ->
  (forall modelKey, recordedAt modelKey (trace w') = recordedAt modelKey (trace w)) ->
  rateInvariant env w'.
Proof.
  intros Hinv Hle Hr Ht modelKey model Hm.
  destruct (Hinv modelKey model Hm) as [Htr Hrate]. split.
  - apply (windowTracksTrace_later modelKey w w' Htr Hle); [|apply Ht].
    apply windowOf_ext. rewrite Hr. reflexivity.
  - rewrite Ht. exact Hrate.
Qed.

Lemma hasSlot_later modelKey w w' :
  hasSlot env modelKey w ->
  clock w <= clock w' ->
  recordedAt modelKey (trace w') = recordedAt modelKey (trace w) ->
  hasSlot env modelKey w'.
Proof.
  intros Hslot Hle Ht model Hm. rewrite Ht.
  pose proof (length_filter_recent_later (clock w) (clock w')
                (recordedAt modelKey (trace w)) Hle).
  specialize (Hslot model Hm). lia.
Qed.

Lemma recordedAt_emit modelKey e w :
  recordedOf modelKey e = None ->
  recordedAt modelKey (trace (emit e w)) = recordedAt modelKey (trace w).
Proof.
  intros He. unfold emit. cbn [trace]. rewrite recordedAt_app.
  unfold recordedAt at 2. cbn [omap list_omap]. rewrite He. apply app_nil_r.
Qed.

Lemma suspend_rateInvariant d w :
  rateInvariant env w -> rateInvariant env (suspend env d w).
Proof.
  intros Hinv. destruct (suspend_rest env d w) as (Hr & Ht & Hc).
  apply (rateInvariant_later w);
    [exact Hinv | lia | exact Hr | intros; rewrite Ht; reflexivity].
Qed.

Lemma suspend_hasSlot modelKey d w :
  hasSlot env modelKey w -> hasSlot env modelKey (suspend env d w).
Proof.
  intros Hslot. destruct (suspend_rest env d w) as (Hr & Ht & Hc).
  apply (hasSlot_later modelKey w); [exact Hslot | lia | rewrite Ht; reflexivity].
Qed.

Lemma updateProgress_rateInvariant u w :
  rateInvariant env w -> rateInvariant env (updateProgress u w).
Proof.
  intros Hinv. destruct (updateProgress_rest u w) as (Hr & Hc & _ & Ht).
  apply (rateInvariant_later w);
    [exact Hinv | lia | exact Hr | intros; rewrite Ht; reflexivity].
Qed.

(** An admission keeps the invariant and, for a model of the
    registry, returns with a free slot. *)
Lemma checkRateLimits_rateInvariant modelKey w :
  rateInvariant env w ->
  rateInvariant env (checkRateLimits env modelKey w) /\
  hasSlot env modelKey (checkRateLimits env modelKey w).
Proof.
  intros Hinv.
  destruct (checkRateLimits_frame env modelKey w) as (_ & Hclock & Hothers & sleeps & Ht & Hs).
  cbn zeta in *. set (w' := checkRateLimits env modelKey w) in *.
  assert (Hrec : forall k, recordedAt k (trace w') = recordedAt k (trace w)).
  { intros k. rewrite Ht. change (EvAdmit modelKey :: sleeps) with ([EvAdmit modelKey] ++ sleeps).
    rewrite !recordedAt_app, (recordedAt_sleeps _ _ Hs). cbn. rewrite !app_nil_r. reflexivity. }
  assert (Hwin : forall model, getModelInfo env modelKey = Some model ->
            requests (windowOf modelKey w') =
              filter (recent (clock w')) (requests (windowOf modelKey w)) /\
            (length (requests (windowOf modelKey w')) < Pos.to_nat (rpm model))%nat).
  { intros model Hm. unfold w', checkRateLimits.
    set (w0 := emit (EvAdmit modelKey) w).
    destruct (checkRateLimits_from_window
                (length (requests (windowOf modelKey w))) modelKey model w0 Hm)
      as (_ & Henough).
    apply Henough.
    change (windowOf modelKey w0) with (windowOf modelKey w).
    apply length_filter. }
  split.
  - intros k model Hm. destruct (Hinv k model Hm) as [Htr Hrate]. split.
    + destruct (decide (k = modelKey)) as [->|Hne].
      * destruct (Hwin model Hm) as (Hreq & _).
        eapply (windowTracksTrace_purged modelKey w w' (clock w')); eauto. lia.
      * apply (windowTracksTrace_later k w w' Htr Hclock); [|apply Hrec].
        apply windowOf_ext, Hothers, Hne.
    + rewrite Hrec. exact Hrate.
  - intros model Hm. destruct (Hwin model Hm) as (Hreq & Hlen).
    destruct (Hinv modelKey model Hm) as [Htr _].
    assert (Htr' : windowTracksTrace modelKey w').
    { eapply (windowTracksTrace_purged modelKey w w' (clock w')); eauto. lia. }
    unfold windowTracksTrace in Htr'. rewrite <- Htr'.
    pose proof (length_filter (recent (clock w')) (requests (windowOf modelKey w'))). lia.
Qed.

(** The budget of re-checks handed to [checkRateLimits_from] is never
    the reason for returning: any two budgets that cover the recent
    requests of the window give the same run. *)
Lemma checkRateLimits_budget_irrelevant budget budget' modelKey w :
  (length (filter (recent (clock w)) (requests (windowOf modelKey w))) <= budget)%nat ->
  (length (filter (recent (clock w)) (requests (windowOf modelKey w))) <= budget')%nat ->
  checkRateLimits_from env budget modelKey w =
  checkRateLimits_from env budget' modelKey w.
Proof.
  revert budget' w. induction budget as [|budget IH]; intros budget' w Hb Hb'.
  all: destruct budget' as [|budget'].
  1: reflexivity.
  all: cbn [checkRateLimits_from].
  all: destruct (getModelInfo env modelKey) as [model|]; [|reflexivity].
  all: cbn zeta.
  all: change (filter (fun timestamp : Z => clock w - 60000 < timestamp)
                 (requests (windowOf modelKey w)))
         with (filter (recent (clock w)) (requests (windowOf modelKey w))).
  all: cbn [requests].
  all: set (cleaned := filter (recent (clock w)) (requests (windowOf modelKey w))) in *.
  all: destruct (Z.pos (rpm model) <=? Z.of_nat (length cleaned)); [|reflexivity].
  all: destruct cleaned as [|oldest rest] eqn:Hcleaned; [reflexivity|].
  all: cbn [length] in Hb, Hb'; try lia.
  assert (Hrecent : recent (clock w) oldest).
  { assert (Hin : oldest ∈ (filter (recent (clock w)) (requests (windowOf modelKey w))))
      by (fold cleaned; rewrite Hcleaned; left).
    apply list_elem_of_filter in Hin. tauto. }
  assert (Hwait : (0 <? Z.max 0 (oldest + 60000 - clock w)) = true)
    by (apply Z.ltb_lt; unfold recent in Hrecent; lia).
  rewrite Hwait.
  set (waitTime := Z.max 0 (oldest + 60000 - clock w)) in *.
  match goal with |- context [suspend env waitTime ?x] =>
    destruct (suspend_rest env waitTime x) as (Hr2 & _ & Hc2);
    set (w2 := suspend env waitTime x) in * end.
  assert (Hw2 : requests (windowOf modelKey w2) = oldest :: rest)
    by (unfold windowOf; rewrite Hr2; cbn; rewrite lookup_insert_eq; reflexivity).
  assert (Hless : (length (filter (recent (clock w2)) (requests (windowOf modelKey w2)))
                   <= length rest)%nat).
  { rewrite Hw2, filter_cons_False.
    - apply length_filter.
    - unfold recent in *. rewrite Hc2. cbn. unfold waitTime. lia. }
  apply IH; lia.
Qed.

Lemma withinRate_snoc R now recorded :
  withinRate R recorded ->
  (length (filter (recent now) recorded) < R)%nat ->
  withinRate R (recorded ++ [now]).
Proof.
  intros Hrate Hslot t. specialize (Hrate t). unfold inTrailingWindow in *.
  set (P := fun x : Z => t - 60000 < x /\ x <= t) in *.
  rewrite filter_app, length_app.
  destruct (decide (now <= t)) as [Hle|Hgt].
  - assert (Hsub : (length (filter P recorded)
                    <= length (filter (recent now) recorded))%nat).
    { rewrite <- (list_filter_filter_l P (recent now)).
      - apply length_filter.
      - unfold P, recent. intros x. lia. }
    pose proof (length_filter P [now]) as Hone.
    cbn [length] in Hone. lia.
  - rewrite (filter_cons_False P now []) by (unfold P; lia).
    rewrite filter_nil. cbn [length]. lia.
Qed.


Lemma emit_rateInvariant e w :
  (forall k, recordedOf k e = None) ->
  rateInvariant env w -> rateInvariant env (emit e w).
Proof.
  intros He Hinv.
  apply (rateInvariant_later w);
    [exact Hinv | cbn; lia | reflexivity | intros k; apply recordedAt_emit, He].
Qed.
Lemma trackRequest_rateInvariant modelKey i o w :
  modelKey <> EmptyString ->
  rateInvariant env w ->
  hasSlot env modelKey w ->
  rateInvariant env (trackRequest modelKey i o w).2.
Proof.
  intros Hne Hinv Hslot.
  destruct (inheritedOnly modelKey w) eqn:Hinh.
  { rewrite (trackRequest_thrown modelKey i o w Hne Hinh). cbn [snd].
    apply emit_rateInvariant; [reflexivity | exact Hinv]. }
  rewrite (trackRequest_recorded modelKey i o w Hne Hinh). cbn [snd].
  intros k model Hm.
  destruct (Hinv k model Hm) as [Htr Hrate].
  set (window := Build_RateWindow _ _).
  set (w1 := with_rateLimits (insert modelKey window) w).
  set (e := EvRecord modelKey (clock w) (i + o)%Q).
  destruct (decide (k = modelKey)) as [->|Hk].
  - assert (Hrec : recordedAt modelKey (trace (emit e w1)) =
                   recordedAt modelKey (trace w) ++ [clock w]).
    { unfold emit. cbn [trace]. rewrite recordedAt_app. f_equal.
      unfold recordedAt, e. cbn. rewrite String.eqb_refl. reflexivity. }
    split.
    + unfold windowTracksTrace. rewrite Hrec.
      change (clock (emit e w1)) with (clock w).
      change (windowOf modelKey (emit e w1)) with (windowOf modelKey w1).
      unfold w1. rewrite windowOf_insert. unfold window. cbn [requests].
      rewrite !filter_app. f_equal. exact Htr.
    + rewrite Hrec. apply withinRate_snoc; [exact Hrate | apply Hslot, Hm].
  - assert (Hrec : recordedAt k (trace (emit e w1)) = recordedAt k (trace w)).
    { apply (recordedAt_emit k e w1). unfold e. cbn.
      destruct (String.eqb modelKey k) eqn:E; [|reflexivity].
      apply String.eqb_eq in E. congruence. }
    split.
    + apply (windowTracksTrace_later k w (emit e w1) Htr); [cbn; lia| |exact Hrec].
      apply windowOf_ext. cbn. apply lookup_insert_ne. congruence.
    + rewrite Hrec. exact Hrate.
Qed.

Lemma emit_hasSlot modelKey e w :
  (forall k, recordedOf k e = None) ->
  hasSlot env modelKey w -> hasSlot env modelKey (emit e w).
Proof.
  intros He Hslot.
  apply (hasSlot_later modelKey w);
    [exact Hslot | cbn; lia | apply recordedAt_emit, He].
Qed.

(** The client keeps the invariant: it records only after an
    admission and the time the request took. *)
Lemma callMonicaApi_from_rateInvariant replies fileContent prompt model w :
  rateInvariant env w ->
  rateInvariant env (callMonicaApi_from env replies fileContent prompt model w).1.2.
Proof.
  revert w. induction replies as [|reply replies IH]; intros w Hinv;
    cbn [callMonicaApi_from].
  all: destruct (negb (truthy (MONICA_API_KEY env)) ||
                 negb (truthy (MONICA_API_ENDPOINT env))); [exact Hinv|].
  all: fold (selectModel env model); set (m := selectModel env model).
  all: set (message := prompt +:+ LF +:+ LF +:+ "File Content:" +:+ LF +:+ fileContent).
  all: destruct (checkRateLimits_rateInvariant m w Hinv) as [Hinv1 Hslot1].
  all: set (w1 := checkRateLimits env m w) in *.
  all: assert (Hinv2 : rateInvariant env (suspend env 0 (emit (EvPost m message) w1)))
    by (apply suspend_rateInvariant, emit_rateInvariant; [reflexivity | exact Hinv1]).
  all: assert (Hslot2 : hasSlot env m (suspend env 0 (emit (EvPost m message) w1)))
    by (apply suspend_hasSlot, emit_hasSlot; [reflexivity | exact Hslot1]).
  all: set (w2 := suspend env 0 (emit (EvPost m message) w1)) in *.
  - exact Hinv2.
  - destruct reply as [usage content|http_status retry_after error_message| |msg].
    + match goal with |- context [trackRequest m ?i ?o w2] =>
        pose proof (trackRequest_rateInvariant m i o w2
                      (selectModel_nonempty env model) Hinv2 Hslot2) as Hinv3
      end.
      destruct (trackRequest m _ _ w2) as [[[]|message3] w3];
        [destruct content|]; exact Hinv3.
    + destruct ((http_status =? 400) && truthy error_message &&
                includes "maximum context length" (orElse error_message EmptyString));
        [exact Hinv2|].
      destruct (http_status =? 429); [|exact Hinv2].
      apply IH. apply suspend_rateInvariant, emit_rateInvariant; [reflexivity | exact Hinv2].
    + exact Hinv2.
    + exact Hinv2.
Qed.

Lemma callMonicaApi_rateInvariant fileContent prompt model replies w :
  rateInvariant env w ->
  rateInvariant env (callMonicaApi env fileContent prompt model replies w).1.2.
Proof.
  intros Hinv. unfold callMonicaApi.
  apply callMonicaApi_from_rateInvariant, emit_rateInvariant; [reflexivity | exact Hinv].
Qed.

Lemma processChunk_rateInvariant n i chunk prompt model replies w :
  rateInvariant env w ->
  rateInvariant env (processChunk env n i chunk prompt model replies w).1.2.
Proof.
  intros Hinv. unfold processChunk.
  destruct (checkRateLimits_rateInvariant model w Hinv) as [Hinv1 _].
  pose proof (callMonicaApi_rateInvariant chunk (chunkPrompt prompt i n) (Some model)
                replies _ Hinv1) as Hinv2.
  destruct (callMonicaApi env chunk (chunkPrompt prompt i n) (Some model) replies
              (checkRateLimits env model w)) as [[[response|message] w2] later];
    cbn [fst snd] in *; apply updateProgress_rateInvariant, Hinv2.
Qed.

Lemma chunkLoop_rateInvariant n i remaining prompt model responses replies w :
  rateInvariant env w ->
  rateInvariant env (chunkLoop env n i remaining prompt model responses replies w).1.2.
Proof.
  revert i responses replies w.
  induction remaining as [|chunk rest IH]; intros i responses replies w Hinv;
    cbn [chunkLoop]; [exact Hinv|].
  pose proof (processChunk_rateInvariant n i chunk prompt model replies w Hinv) as Hinv1.
  destruct (processChunk env n i chunk prompt model replies w) as [[[text ok] w1] later].
  apply IH. exact Hinv1.
Qed.

Lemma processFile_rateInvariant chunker inputPath outputPath prompt model replies w :
  rateInvariant env w ->
  rateInvariant env
    (processFile env chunker inputPath outputPath prompt model replies w).1.2.
Proof.
  intros Hinv. unfold processFile.
  destruct (trackFileProcessing inputPath w) as [fileNumber w1] eqn:Htrack.
  pose proof (trackFileProcessing_frame inputPath w) as Hf.
  rewrite Htrack in Hf. cbn in Hf. destruct Hf as (_ & _ & Hc & Ht & Hr).
  assert (Hinv1 : rateInvariant env w1).
  { apply (rateInvariant_later w);
      [exact Hinv | lia | exact Hr | intros; rewrite Ht; reflexivity]. }
  match goal with |- context [updateProgress ?u w1] =>
    pose proof (updateProgress_rateInvariant u w1 Hinv1) as Hinv2;
    set (w2 := updateProgress u w1) in * end.
  assert (Htry : rateInvariant env
            (processFile_try env chunker (clock w) inputPath outputPath prompt model
               replies w2).1.2).
  { unfold processFile_try.
    pose proof (suspend_rateInvariant 0 w2 Hinv2) as Hinv3.
    set (w3 := suspend env 0 w2) in *.
    destruct (readFile env inputPath) as [fileContent|message]; [|exact Hinv3].
    cbn zeta.
    destruct (needsChunking fileContent (getModelTokenLimit env (selectModel env model))).
    - unfold processLargeFile.
      match goal with |- context [updateProgress ?u w3] =>
        pose proof (updateProgress_rateInvariant u w3 Hinv3) as Hinv4;
        set (w4 := updateProgress u w3) in * end.
      match goal with |- context [chunkLoop env ?n 0 ?cs prompt ?m [] replies w4] =>
        pose proof (chunkLoop_rateInvariant n 0 cs prompt m [] replies w4 Hinv4) as Hinv5;
        destruct (chunkLoop env n 0 cs prompt m [] replies w4) as [[responses w5] later]
      end.
      cbn [fst snd] in Hinv5.
      pose proof (suspend_rateInvariant 0 w5 Hinv5) as Hinv6.
      destruct (writeFile env outputPath (join chunkSeparator responses)) as [[]|message];
        [|exact Hinv6].
      apply updateProgress_rateInvariant, emit_rateInvariant; [reflexivity | exact Hinv6].
    - match goal with |- context [updateProgress ?u w3] =>
        pose proof (updateProgress_rateInvariant u w3 Hinv3) as Hinv4;
        set (w4 := updateProgress u w3) in * end.
      pose proof (callMonicaApi_rateInvariant fileContent prompt
                    (Some (selectModel env model)) replies w4 Hinv4) as Hinv5.
      destruct (callMonicaApi env fileContent prompt (Some (selectModel env model))
                  replies w4) as [[[response|message] w5] later];
        cbn [fst snd] in Hinv5; [|exact Hinv5].
      pose proof (updateProgress_rateInvariant [set_processedChunks 1] w5 Hinv5) as Hinv6.
      pose proof (suspend_rateInvariant 0 _ Hinv6) as Hinv7.
      destruct (writeFile env outputPath response) as [[]|message]; [|exact Hinv7].
      apply updateProgress_rateInvariant, emit_rateInvariant; [reflexivity | exact Hinv7]. }
  destruct (processFile_try env chunker (clock w) inputPath outputPath prompt model
              replies w2) as [[[path|message] w3] later]; cbn [fst snd] in *.
  - exact Htry.
  - unfold processFile_catch. cbn [fst snd].
    apply updateProgress_rateInvariant, Htry.
Qed.

(** The admission of a request that finds the window full. *)
Lemma checkRateLimits_full_window modelKey model w oldest rest :
  getModelInfo env modelKey = Some model ->
  requests (windowOf modelKey w) = oldest :: rest ->
  length (oldest :: rest) = Pos.to_nat (rpm model) ->
  Forall (recent (clock w)) (oldest :: rest) ->
  let w' := checkRateLimits env modelKey w in
  let waitTime := Z.max 0 (oldest + 60000 - clock w) in
  trace w' = trace w ++ [EvAdmit modelKey; EvSleep waitTime] /\
  clock w' = clock w + waitTime + Z.of_N (elapsed (schedule env (suspensions w))) /\
  oldest + 60000 <= clock w' /\
  requests (windowOf modelKey w') = filter (recent (clock w')) (oldest :: rest) /\
  (oldest ∉ requests (windowOf modelKey w')) /\
  (length (requests (windowOf modelKey w')) < Pos.to_nat (rpm model))%nat.
Proof.
  intros Hm Hreq Hlen Hall. cbn zeta.
  unfold checkRateLimits. rewrite Hreq.
  set (w0 := emit (EvAdmit modelKey) w).
  change (length (oldest :: rest)) with (S (length rest)).
  cbn [checkRateLimits_from]. rewrite Hm. cbn zeta.
  change (windowOf modelKey w0) with (windowOf modelKey w). rewrite Hreq.
  change (clock w0) with (clock w).
  change (filter (fun timestamp : Z => clock w - 60000 < timestamp) (oldest :: rest))
    with (filter (recent (clock w)) (oldest :: rest)).
  rewrite (filter_recent_all _ _ Hall). cbn [requests].
  assert (Hblocked : (Z.pos (rpm model) <=? Z.of_nat (length (oldest :: rest))) = true)
    by (apply Z.leb_le; lia).
  rewrite Hblocked.
  assert (Hrecent : recent (clock w) oldest) by (inversion Hall; assumption).
  unfold recent in Hrecent.
  set (waitTime := Z.max 0 (oldest + 60000 - clock w)).
  assert (Hwait : (0 <? waitTime) = true) by (apply Z.ltb_lt; unfold waitTime; lia).
  rewrite Hwait.
  set (window := Build_RateWindow _ _).
  set (w1 := with_rateLimits (insert modelKey window) w0).
  destruct (suspend_rest env waitTime (emit (EvSleep waitTime) w1)) as (Hr2 & Ht2 & Hc2).
  set (w2 := suspend env waitTime (emit (EvSleep waitTime) w1)) in *.
  assert (Hw2 : requests (windowOf modelKey w2) = oldest :: rest)
    by (unfold windowOf; rewrite Hr2; cbn; rewrite lookup_insert_eq; reflexivity).
  assert (Hclock : clock w2 = clock w + waitTime +
                     Z.of_N (elapsed (schedule env (suspensions w))))
    by (rewrite Hc2; cbn; unfold waitTime; lia).
  assert (Hgone : ~ recent (clock w2) oldest)
    by (unfold recent; rewrite Hclock; unfold waitTime; lia).
  assert (Hfree : (length (filter (recent (clock w2)) (requests (windowOf modelKey w2)))
                   < Pos.to_nat (rpm model))%nat).
  { rewrite Hw2, filter_cons_False by exact Hgone.
    pose proof (length_filter (recent (clock w2)) rest). cbn [length] in Hlen. lia. }
  rewrite (checkRateLimits_from_free (length rest) modelKey model w2 Hm Hfree).
  rewrite windowOf_insert. cbn [requests trace clock with_rateLimits].
  rewrite Hw2 in *. rewrite Ht2. cbn [trace emit w1 w0 with_rateLimits].
  rewrite <- app_assoc. cbn [app].
  repeat split; try assumption.
  - rewrite Hclock. unfold waitTime. lia.
  - intros Hin. apply list_elem_of_filter in Hin. tauto.
Qed.

Lemma loadedWorld_rateInvariant now : rateInvariant env (loadedWorld now).
Proof.
  intros modelKey model _. split; [reflexivity|].
  intros t. cbn. lia.
Qed.

End RateLimiter.

(** C3. For a model of the registry with [rpm = R]: an admission that
    finds [R] recorded requests, all inside the trailing 60-second
    window, sleeps [max(0, oldest + 60000 - now)] milliseconds and runs
    the check again; it returns no earlier than 60 seconds after the
    oldest of them, which is then purged, with fewer than [R] requests
    left in the window; with fewer than [R] it returns at once.  And
    in every state reached from the freshly loaded module by
    invocations of [processFile], and at every earlier moment of such
    a run (every prefix of its trace), no trailing 60-second window
    [(t - 60000, t]] contains more than [R] recorded requests of that
    model. *)
Theorem rate_limiter_sliding_window (env : Env) (modelKey : string) (model : Model) :
  getModelInfo env modelKey = Some model ->
  (forall w oldest rest,
     requests (windowOf modelKey w) = oldest :: rest ->
     length (oldest :: rest) = Pos.to_nat (rpm model) ->
     Forall (recent (clock w)) (oldest :: rest) ->
     let w' := checkRateLimits env modelKey w in
     let waitTime := Z.max 0 (oldest + 60000 - clock w) in
     trace w' = trace w ++ [EvAdmit modelKey; EvSleep waitTime] /\
     clock w' = clock w + waitTime + Z.of_N (elapsed (schedule env (suspensions w))) /\
     oldest + 60000 <= clock w' /\
     requests (windowOf modelKey w') = filter (recent (clock w')) (oldest :: rest) /\
     (oldest ∉ requests (windowOf modelKey w')) /\
     (length (requests (windowOf modelKey w')) < Pos.to_nat (rpm model))%nat) /\
  (forall w,
     (length (filter (recent (clock w)) (requests (windowOf modelKey w)))
      < Pos.to_nat (rpm model))%nat ->
     clock (checkRateLimits env modelKey w) = clock w /\
     trace (checkRateLimits env modelKey w) = trace w ++ [EvAdmit modelKey]) /\
  (forall now, rateInvariant env (loadedWorld now)) /\
  (forall chunker inputPath outputPath prompt selected replies w,
     rateInvariant env w ->
     let w' := (processFile env chunker inputPath outputPath prompt selected replies w).1.2 in
     rateInvariant env w' /\
     forall earlier later : list Event,
       trace w' = earlier ++ later ->
       forall t : Z,
         (length (inTrailingWindow t (recordedAt modelKey earlier))
          <= Pos.to_nat (rpm model))%nat).
Proof.
  intros Hm. split; [|split; [|split]].
  - intros w oldest rest Hreq Hlen Hall.
    exact (checkRateLimits_full_window env modelKey model w oldest rest Hm Hreq Hlen Hall).
  - intros w Hfree. unfold checkRateLimits.
    rewrite (checkRateLimits_from_free env _ modelKey model
               (emit (EvAdmit modelKey) w) Hm Hfree).
    split; reflexivity.
  - apply loadedWorld_rateInvariant.
  - intros chunker inputPath outputPath prompt selected replies w Hinv. cbn zeta.
    pose proof (processFile_rateInvariant env chunker inputPath outputPath prompt selected
                  replies w Hinv) as Hinv'.
    split; [exact Hinv'|].
    intros earlier later Hsplit t.
    destruct (Hinv' modelKey model Hm) as [_ Hrate]. specialize (Hrate t).
    rewrite Hsplit, recordedAt_app in Hrate. unfold inTrailingWindow in *.
    rewrite filter_app, length_app in Hrate. lia.
Qed.

Lemma rate_limiter_sliding_window_witness :
  trace (checkRateLimits tinyEnv "tiny" fullWindow) =
    trace fullWindow ++ [EvAdmit "tiny"; EvSleep (Z.max 0 (1000 + 60000 - clock fullWindow))] /\
  1000 + 60000 <= clock (checkRateLimits tinyEnv "tiny" fullWindow) /\
  rateInvariant tinyEnv
    (processFile tinyEnv (fixedChunks ["abcd"; "efgh"]) "/in/a.txt" "/out/a.txt"
       "Summarise" (Some "tiny") [Resolved None (Some "A"); Resolved None (Some "B")]
       (loadedWorld 1000)).1.2.
Proof.
  pose proof (rate_limiter_sliding_window tinyEnv "tiny" tinyModel eq_refl)
    as (Hfull & _ & Hloaded & Hrun).
  destruct (Hfull fullWindow 1000 [1000] eq_refl eq_refl) as (Ht & _ & Hc & _).
  - repeat constructor.
  - split; [exact Ht|]. split; [exact Hc|].
    apply Hrun, Hloaded.
Defined.

(** ** C2: the chunk array of the published source *)

(** C2 evaluated on the source as published, in the end-to-end
    scenario of the specification.  The content of 40,000 characters
    for a model with token limit 10,000 exceeds the budget of 8,000
    tokens (32,000 characters), so the chunked path is taken; the chunk
    array is empty, its concatenation is not the content, no completion
    call is made and the empty text is written as the result of a file
    reported as completed. *)
Lemma published_chunks_lose_the_content :
  let limit := getModelTokenLimit scenarioEnv "scenario" in
  let budget := MAX_TOKENS_PER_CHUNK limit in
  let run :=
    processFile scenarioEnv publishedChunks "/in/movie.srt" "/out/movie.srt" "Translate"
      (Some "scenario") [Resolved None (Some "A")] (loadedWorld 1000) in
  Z.of_nat (String.length scenarioContent) = 40000 /\
  budget = 8000 /\
  needsChunking scenarioContent limit = true /\
  publishedChunks scenarioContent (budget * 4) = [] /\
  String.concat EmptyString (publishedChunks scenarioContent (budget * 4))
    <> scenarioContent /\
  run.1.1 = Return "/out/movie.srt" /\
  trace run.1.2 = [EvWrite "/out/movie.srt" EmptyString] /\
  totalChunks (processingProgress run.1.2) = 0 /\
  status (processingProgress run.1.2) = completed.
Proof.
  cbn zeta.
  split; [vm_compute; reflexivity|]. split; [vm_compute; reflexivity|].
  split; [vm_compute; reflexivity|]. split; [reflexivity|]. split.
  { intros H.
    apply (f_equal (fun text => Z.of_nat (String.length text))) in H.
    vm_compute in H. discriminate H. }
  split; [vm_compute; reflexivity|]. split; [vm_compute; reflexivity|].
  split; vm_compute; reflexivity.
Qed.

(** * Further properties of the module and its callers *)

(** ** File name helpers *)

Lemma mapString_length f s : String.length (mapString f s) = String.length s.
Proof. induction s as [|c s IH]; cbn; congruence. Qed.

Lemma safe_after_replace c :
  isSafeChar (toLowerChar (if isAlphanumeric c then c else "_"%char)) = true.
Proof. destruct c as [[] [] [] [] [] [] [] []]; reflexivity. Qed.

Lemma safe_char_fixed c :
  isSafeChar c = true ->
  toLowerChar (if isAlphanumeric c then c else "_"%char) = c.
Proof.
  destruct c as [[] [] [] [] [] [] [] []]; vm_compute; intros H;
    first [reflexivity | discriminate H].
Qed.

Lemma fixed_char_safe c :
  toLowerChar (if isAlphanumeric c then c else "_"%char) = c ->
  isSafeChar c = true.
Proof.
  destruct c as [[] [] [] [] [] [] [] []]; vm_compute; intros H;
    first [reflexivity | discriminate H].
Qed.

Lemma createSafeFilename_cons c s :
  createSafeFilename (String c s) =
  String (toLowerChar (if isAlphanumeric c then c else "_"%char)) (createSafeFilename s).
Proof. reflexivity. Qed.

Lemma createSafeFilename_allSafe s :
  allChars isSafeChar (createSafeFilename s) = true.
Proof.
  induction s as [|c s IH]; [reflexivity|].
  rewrite createSafeFilename_cons. cbn [allChars].
  rewrite safe_after_replace, IH. reflexivity.
Qed.

(** X1. [createSafeFilename] keeps the length of the name and yields a
    name over the alphabet of lower-case letters, digits and
    underscore only: no dot, no path separator, no upper-case letter
    survives. *)
Theorem createSafeFilename_safe (filename : string) :
  String.length (createSafeFilename filename) = String.length filename /\
  allChars isSafeChar (createSafeFilename filename) = true.
Proof.
  split.
  - unfold createSafeFilename. rewrite !mapString_length. reflexivity.
  - apply createSafeFilename_allSafe.
Qed.

(** X2. A name is left unchanged by [createSafeFilename] exactly when
    it is already over the safe alphabet; in particular the function
    is idempotent. *)
Theorem createSafeFilename_fixed_points (filename : string) :
  (createSafeFilename filename = filename <-> allChars isSafeChar filename = true) /\
  createSafeFilename (createSafeFilename filename) = createSafeFilename filename.
Proof.
  assert (Hfix : forall s, createSafeFilename s = s <-> allChars isSafeChar s = true).
  { induction s as [|c s IH]; [cbn; tauto|].
    rewrite createSafeFilename_cons. cbn [allChars]. rewrite andb_true_iff, <- IH.
    split.
    - intros [= Hc Hs]. split; [apply fixed_char_safe, Hc | exact Hs].
    - intros [Hc Hs]. rewrite Hs. f_equal. apply safe_char_fixed, Hc. }
  split; [apply Hfix|].
  apply Hfix. apply createSafeFilename_allSafe.
Qed.

(** ** Deduplication of the files of a batch *)

Lemma dedupeFrom_names seenFiles files name :
  name ∈ map originalname (dedupeFrom seenFiles files) ->
  seenFiles !! name = None /\ name ∈ map originalname files.
Proof.
  revert seenFiles. induction files as [|file rest IH]; intros seenFiles; cbn.
  - intros H. apply elem_of_nil in H. contradiction.
  - destruct (seenFiles !! originalname file) eqn:Hseen.
    + intros H. apply IH in H as [Hnone Hin]. split; [exact Hnone | right; exact Hin].
    + cbn. intros H. apply elem_of_cons in H as [->|H].
      * split; [exact Hseen | left].
      * apply IH in H as [Hnone Hin].
        split; [|right; exact Hin].
        destruct (decide (originalname file = name)) as [<-|Hne].
        -- rewrite lookup_insert_eq in Hnone. discriminate.
        -- rewrite lookup_insert_ne in Hnone by exact Hne. exact Hnone.
Qed.

Lemma dedupeFrom_NoDup seenFiles files :
  NoDup (map originalname (dedupeFrom seenFiles files)).
Proof.
  revert seenFiles. induction files as [|file rest IH]; intros seenFiles; cbn.
  - constructor.
  - destruct (seenFiles !! originalname file) eqn:Hseen; [apply IH|].
    cbn. constructor; [|apply IH].
    intros H. apply dedupeFrom_names in H as [Hnone _].
    rewrite lookup_insert_eq in Hnone. discriminate.
Qed.

Lemma dedupeFrom_sublist seenFiles files :
  dedupeFrom seenFiles files `sublist_of` files.
Proof.
  revert seenFiles. induction files as [|file rest IH]; intros seenFiles; cbn.
  - constructor.
  - destruct (seenFiles !! originalname file).
    + apply sublist_cons, IH.
    + apply sublist_skip, IH.
Qed.

Lemma dedupeFrom_complete seenFiles files file :
  file ∈ files ->
  seenFiles !! originalname file = None ->
  originalname file ∈ map originalname (dedupeFrom seenFiles files).
Proof.
  revert seenFiles. induction files as [|first rest IH]; intros seenFiles Hin Hnone.
  - apply elem_of_nil in Hin. contradiction.
  - cbn. apply elem_of_cons in Hin as [<-|Hin].
    + rewrite Hnone. cbn. left.
    + destruct (seenFiles !! originalname first) eqn:Hseen.
      * apply IH; assumption.
      * cbn. destruct (decide (originalname first = originalname file)) as [->|Hne].
        -- left.
        -- right. apply IH; [exact Hin|].
           rewrite lookup_insert_ne by exact Hne. exact Hnone.
Qed.

Lemma dedupeFrom_first seenFiles files name :
  seenFiles !! name = None ->
  List.find (fun file => String.eqb (originalname file) name) (dedupeFrom seenFiles files) =
  List.find (fun file => String.eqb (originalname file) name) files.
Proof.
  revert seenFiles. induction files as [|first rest IH]; intros seenFiles Hnone;
    [reflexivity|].
  cbn. destruct (seenFiles !! originalname first) eqn:Hseen.
  - destruct (String.eqb_spec (originalname first) name) as [Heq|Hne].
    + congruence.
    + apply IH, Hnone.
  - cbn. destruct (String.eqb_spec (originalname first) name) as [Heq|Hne];
      [reflexivity|].
    apply IH. rewrite lookup_insert_ne by exact Hne. exact Hnone.
Qed.

Lemma dedupeFrom_distinct seenFiles files :
  NoDup (map originalname files) ->
  (forall file, file ∈ files -> seenFiles !! originalname file = None) ->
  dedupeFrom seenFiles files = files.
Proof.
  revert seenFiles. induction files as [|first rest IH]; intros seenFiles Hnd Hnone;
    [reflexivity|].
  cbn in *. apply NoDup_cons in Hnd as [Hfirst Hnd].
  rewrite (Hnone first) by left. f_equal. apply IH; [exact Hnd|].
  intros file Hin. rewrite lookup_insert_ne.
  - apply Hnone. right. exact Hin.
  - intros Heq. apply Hfirst. rewrite Heq.
    apply list_elem_of_fmap. exists file. auto.
Qed.

(** X3. The deduplication keeps, in their order, exactly the first
    file of every original name: the result is a sublist of the input
    with pairwise distinct names, no name of the input is lost, and a
    search by name finds the same file before and after. *)
Theorem dedupe_keeps_first_of_each_name (files : list UploadedFile) :
  dedupe files `sublist_of` files /\
  NoDup (map originalname (dedupe files)) /\
  (forall file, file ∈ files ->
     originalname file ∈ map originalname (dedupe files)) /\
  (forall name,
     List.find (fun file => String.eqb (originalname file) name) (dedupe files) =
     List.find (fun file => String.eqb (originalname file) name) files).
Proof.
  unfold dedupe. split; [apply dedupeFrom_sublist|].
  split; [apply dedupeFrom_NoDup|]. split.
  - intros file Hin. apply dedupeFrom_complete; [exact Hin | apply lookup_empty].
  - intros name. apply dedupeFrom_first, lookup_empty.
Qed.

Lemma dedupe_keeps_first_of_each_name_witness :
  let first := {| originalname := "a.txt"; path := "/up/1-a.txt"; isServerFile := false |} in
  let other := {| originalname := "b.txt"; path := "/srv/b.txt"; isServerFile := true |} in
  let again := {| originalname := "a.txt"; path := "/srv/a.txt"; isServerFile := true |} in
  originalname again ∈ map originalname (dedupe [first; other; again]).
Proof.
  cbn zeta.
  apply (proj1 (proj2 (proj2 (dedupe_keeps_first_of_each_name _)))).
  repeat constructor.
Defined.

(** X4. A list of files is left unchanged by the deduplication exactly
    when its original names are pairwise distinct; deduplicating twice
    is deduplicating once. *)
Theorem dedupe_fixed_points (files : list UploadedFile) :
  (dedupe files = files <-> NoDup (map originalname files)) /\
  dedupe (dedupe files) = dedupe files.
Proof.
  assert (Hfix : forall l, NoDup (map originalname l) -> dedupe l = l).
  { intros l Hnd. apply dedupeFrom_distinct; [exact Hnd|].
    intros file _. apply lookup_empty. }
  split; [split|].
  - intros Heq. rewrite <- Heq. apply dedupeFrom_NoDup.
  - apply Hfix.
  - apply Hfix. apply dedupeFrom_NoDup.
Qed.

(** ** Model registry *)

Lemma find_first {A} (p : A -> bool) (l : list A) (x : A) :
  List.find p l = Some x ->
  p x = true /\
  exists before after, l = before ++ x :: after /\ Forall (fun y => p y = false) before.
Proof.
  induction l as [|y l IH]; cbn; [discriminate|].
  destruct (p y) eqn:Hy.
  - intros [= ->]. split; [exact Hy|]. exists [], l. split; [reflexivity | constructor].
  - intros H. apply IH in H as (Hx & before & after & -> & Hall).
    split; [exact Hx|]. exists (y :: before), after.
    split; [reflexivity | constructor; assumption].
Qed.

Lemma find_none {A} (p : A -> bool) (l : list A) :
  List.find p l = None <-> Forall (fun y => p y = false) l.
Proof.
  induction l as [|y l IH]; cbn.
  - split; [constructor | reflexivity].
  - destruct (p y) eqn:Hy.
    + split; [discriminate|]. intros H. inversion H; congruence.
    + rewrite IH. split; [intros H; constructor; assumption|].
      intros H. inversion H; assumption.
Qed.

(** X5. [getModelInfo] finds the first registry entry whose key is
    exactly the given key, and nothing for the empty key or a key
    without entry; [getModelTokenLimit] is the limit of that entry and
    the default of 100,000 when there is none. *)
Theorem getModelInfo_first_match (env : Env) (modelKey : string) :
  (forall model,
     getModelInfo env modelKey = Some model ->
     key model = modelKey /\ modelKey <> EmptyString /\
     getModelTokenLimit env modelKey = tokenLimit model /\
     exists before after,
       modelData env = before ++ model :: after /\
       Forall (fun m => key m <> modelKey) before) /\
  (getModelInfo env modelKey = None <->
   modelKey = EmptyString \/ Forall (fun m => key m <> modelKey) (modelData env)) /\
  (getModelInfo env modelKey = None -> getModelTokenLimit env modelKey = 100000).
Proof.
  unfold getModelTokenLimit, getModelInfo.
  destruct (String.eqb_spec modelKey EmptyString) as [->|Hne].
  - split; [discriminate|]. split; [tauto | reflexivity].
  - split; [|split].
    + intros model Hfind. rewrite Hfind.
      apply find_first in Hfind as (Hkey & before & after & Hsplit & Hall).
      apply String.eqb_eq in Hkey.
      split; [exact Hkey|]. split; [exact Hne|]. split; [reflexivity|].
      exists before, after. split; [exact Hsplit|].
      eapply Forall_impl; [exact Hall|]. cbn. intros m Hm. apply String.eqb_neq, Hm.
    + rewrite find_none. split.
      * intros Hall. right. eapply Forall_impl; [exact Hall|].
        cbn. intros m Hm. apply String.eqb_neq, Hm.
      * intros [Hempty|Hall]; [contradiction|].
        eapply Forall_impl; [exact Hall|]. cbn. intros m Hm. apply String.eqb_neq, Hm.
    + intros ->. reflexivity.
Qed.

Lemma getModelInfo_first_match_witness :
  key tinyModel = "tiny" /\ getModelTokenLimit tinyEnv "tiny" = 2 /\
  getModelTokenLimit tinyEnv "gpt-4o" = 100000.
Proof.
  destruct (proj1 (getModelInfo_first_match tinyEnv "tiny") tinyModel eq_refl)
    as (Hkey & _ & Hlimit & _).
  split; [exact Hkey|]. split; [exact Hlimit|].
  apply (proj2 (proj2 (getModelInfo_first_match tinyEnv "gpt-4o"))). reflexivity.
Defined.

(** ** The file counter *)

(** X6. File tracking is idempotent per base name: a second call with
    a path of the same base name returns the number of the first call
    and changes nothing. *)
Theorem trackFileProcessing_idempotent (first second : string) (w : World) :
  basename first = basename second ->
  trackFileProcessing second (trackFileProcessing first w).2 =
  trackFileProcessing first w.
Proof.
  intros Hsame. unfold trackFileProcessing. rewrite <- Hsame.
  set (fileName := basename first).
  destruct (decide (fileName ∈ processedFiles (processingProgress w))) as [Hin|Hnew].
  - cbn [snd]. rewrite decide_True by exact Hin. reflexivity.
  - cbn [snd].
    match goal with |- (if decide (fileName ∈ ?s) then _ else _) = _ =>
      assert (Hin : fileName ∈ s) end.
    { destruct w as [[] ? ? ? ?]. cbn. set_solver. }
    rewrite decide_True by exact Hin.
    f_equal. destruct w as [[] ? ? ? ?]. reflexivity.
Qed.

Lemma trackFileProcessing_idempotent_witness :
  trackFileProcessing "/srv/uploads/b/a.txt"
    (trackFileProcessing "/srv/uploads/a.txt" (setTotalFiles 3 (loadedWorld 5))).2 =
  trackFileProcessing "/srv/uploads/a.txt" (setTotalFiles 3 (loadedWorld 5)).
Proof. apply trackFileProcessing_idempotent. reflexivity. Defined.

Lemma trackFileProcessing_counter filePath w :
  let p := processingProgress w in
  let p' := processingProgress (trackFileProcessing filePath w).2 in
  processedFiles p' = {[basename filePath]} ∪ processedFiles p /\
  totalFiles p' = totalFiles p /\
  (trackFileProcessing filePath w).1 = currentFileNumber p' /\
  (counterInvariant p ->
   counterInvariant p' /\ currentFileNumber p <= currentFileNumber p').
Proof.
  cbn zeta. unfold trackFileProcessing, counterInvariant.
  set (fileName := basename filePath).
  destruct (decide (fileName ∈ processedFiles (processingProgress w))) as [Hin|Hnew];
    cbn [fst snd].
  - split; [symmetry; apply subseteq_union_1_L, singleton_subseteq_l, Hin|].
    split; [reflexivity|]. split; [reflexivity|].
    intros Hinv. split; [exact Hinv | lia].
  - destruct w as [[cf cn tf tc pc st et s e lu ph pf c] rl ck su tr]. cbn in *.
    split; [reflexivity|]. split; [reflexivity|]. split; [reflexivity|].
    intros Hinv. rewrite Hinv.
    rewrite size_union by set_solver. rewrite size_singleton. lia.
Qed.

(** ** The steps of the worker *)

Lemma Worker_trans env key w1 w2 w3 :
  Worker env key w1 w2 -> Worker env key w2 w3 -> Worker env key w1 w3.
Proof.
  intros H12 H23. induction H23; [exact H12 | econstructor; eassumption ..].
Qed.

Lemma selectModel_chosen env model :
  model <> EmptyString -> selectModel env (Some model) = model.
Proof.
  intros Hne. unfold selectModel, orElse.
  destruct (String.eqb_spec model EmptyString); [contradiction | reflexivity].
Qed.

Section WorkerRuns.

Context (env : Env).

Lemma checkRateLimits_from_worker budget modelKey w :
  Worker env modelKey w (checkRateLimits_from env budget modelKey w).
Proof.
  revert w. induction budget as [|budget IH]; intros w; cbn [checkRateLimits_from].
  all: destruct (getModelInfo env modelKey) as [model|] eqn:Hm; [|constructor].
  all: cbn zeta.
  all: change (with_rateLimits (insert modelKey _) w) with (purge modelKey w).
  all: assert (Hp : Worker env modelKey w (purge modelKey w))
    by (eapply worker_purge; [exact Hm | constructor]).
  all: destruct (Z.pos (rpm model) <=? _); [|exact Hp].
  all: destruct (requests _) as [|oldest rest]; [exact Hp|].
  all: destruct (0 <? Z.max 0 (oldest + 60000 - clock w)).
  - apply worker_suspend, worker_emit; [exact I | exact Hp].
  - exact Hp.
  - eapply Worker_trans; [|apply IH].
    apply worker_suspend, worker_emit; [exact I | exact Hp].
  - eapply Worker_trans; [exact Hp | apply IH].
Qed.

Lemma checkRateLimits_worker modelKey w :
  Worker env modelKey w (checkRateLimits env modelKey w).
Proof.
  unfold checkRateLimits.
  eapply Worker_trans; [|apply checkRateLimits_from_worker].
  apply worker_emit; [exact I | constructor].
Qed.

Lemma callMonicaApi_from_worker replies fileContent prompt model w :
  Worker env (selectModel env model) w
    (callMonicaApi_from env replies fileContent prompt model w).1.2.
Proof.
  revert w. induction replies as [|reply replies IH]; intros w; cbn [callMonicaApi_from].
  all: destruct (negb (truthy (MONICA_API_KEY env)) ||
                 negb (truthy (MONICA_API_ENDPOINT env))); [constructor|].
  all: fold (selectModel env model); set (m := selectModel env model) in *.
  all: set (message := prompt +:+ LF +:+ LF +:+ "File Content:" +:+ LF +:+ fileContent).
  all: assert (H2 : Worker env m w (suspend env 0 (emit (EvPost m message)
                                                   (checkRateLimits env m w))))
    by (apply worker_suspend, worker_emit;
        [exact I | apply checkRateLimits_worker]).
  all: set (w2 := suspend env 0 (emit (EvPost m message) (checkRateLimits env m w))) in *.
  - exact H2.
  - destruct reply as [usage content|http_status retry_after error_message| |msg].
    + match goal with |- context [trackRequest m ?i ?o w2] =>
        assert (H3 : Worker env m w (trackRequest m i o w2).2)
          by (apply worker_record; [apply selectModel_nonempty | exact H2]) end.
      destruct (trackRequest m _ _ w2) as [[[]|message3] w3];
        [destruct content|]; exact H3.
    + destruct ((http_status =? 400) && truthy error_message &&
                includes "maximum context length" (orElse error_message EmptyString));
        [exact H2|].
      destruct (http_status =? 429); [|exact H2].
      eapply Worker_trans; [|apply IH].
      apply worker_suspend, worker_emit; [exact I | exact H2].
    + exact H2.
    + exact H2.
Qed.

Lemma callMonicaApi_worker fileContent prompt model replies w :
  Worker env (selectModel env model) w
    (callMonicaApi env fileContent prompt model replies w).1.2.
Proof.
  unfold callMonicaApi.
  eapply Worker_trans; [|apply callMonicaApi_from_worker].
  apply worker_emit; [exact I | constructor].
Qed.

Lemma processChunk_worker n i chunk prompt model replies w :
  model <> EmptyString ->
  Worker env model w (processChunk env n i chunk prompt model replies w).1.2.
Proof.
  intros Hne. unfold processChunk.
  pose proof (callMonicaApi_worker chunk (chunkPrompt prompt i n) (Some model) replies
                (checkRateLimits env model w)) as Hcall.
  rewrite (selectModel_chosen env model Hne) in Hcall.
  destruct (callMonicaApi env chunk (chunkPrompt prompt i n) (Some model) replies
              (checkRateLimits env model w)) as [[[response|message] w2] later];
    cbn [fst snd] in *.
  all: apply worker_update; [repeat constructor|].
  all: eapply Worker_trans; [apply checkRateLimits_worker | exact Hcall].
Qed.

Lemma chunkLoop_worker n i remaining prompt model responses replies w :
  model <> EmptyString ->
  Worker env model w
    (chunkLoop env n i remaining prompt model responses replies w).1.2.
Proof.
  intros Hne. revert i responses replies w.
  induction remaining as [|chunk rest IH]; intros i responses replies w;
    cbn [chunkLoop]; [constructor|].
  pose proof (processChunk_worker n i chunk prompt model replies w Hne) as Hbody.
  destruct (processChunk env n i chunk prompt model replies w) as [[[text ok] w1] later].
  eapply Worker_trans; [exact Hbody | apply IH].
Qed.

(** The [try] block: the steps of the worker, then on success the
    output file and the last update. *)
Lemma processFile_try_worker chunker start inputPath outputPath prompt model replies w
    r w' later :
  processFile_try env chunker start inputPath outputPath prompt model replies w
    = (r, w', later) ->
  exists w4,
    Worker env (selectModel env model) w w4 /\
    match r with
    | Return path =>
      path = outputPath /\
      exists text history,
        writeFile env outputPath text = Return tt /\
        w' = updateProgress
               [set_status completed; set_error None; set_processingHistory history]
               (emit (EvWrite outputPath text) w4)
    | Throw _ => w' = w4
    end.
Proof.
  unfold processFile_try.
  pose proof (selectModel_nonempty env model) as Hne.
  set (m := selectModel env model) in *.
  assert (H1 : Worker env m w (suspend env 0 w)) by (apply worker_suspend; constructor).
  set (w1 := suspend env 0 w) in *.
  destruct (readFile env inputPath) as [fileContent|message].
  2:{ intros [= <- <- <-]. exists w1. auto. }
  cbn zeta. set (limit := getModelTokenLimit env m).
  destruct (needsChunking fileContent limit).
  - unfold processLargeFile.
    match goal with |- context [chunkLoop env ?n 0 ?cs prompt m [] replies ?x] =>
      pose proof (chunkLoop_worker n 0 cs prompt m [] replies x Hne) as Hloop;
      assert (Hx : Worker env m w x)
        by (apply worker_update; [repeat constructor | exact H1]);
      destruct (chunkLoop env n 0 cs prompt m [] replies x) as [[responses w2] later2]
    end.
    cbn [fst snd] in Hloop.
    assert (H4 : Worker env m w (suspend env 0 w2))
      by (apply worker_suspend; eapply Worker_trans; eassumption).
    destruct (writeFile env outputPath (join chunkSeparator responses))
      as [[]|message] eqn:Hwrite; intros [= <- <- <-].
    + exists (suspend env 0 w2). split; [exact H4|]. split; [reflexivity|].
      eexists _, _. split; [exact Hwrite | reflexivity].
    + exists (suspend env 0 w2). auto.
  - match goal with |- context [callMonicaApi env fileContent prompt ?sm replies ?x] =>
      pose proof (callMonicaApi_worker fileContent prompt sm replies x) as Hcall;
      assert (Hx : Worker env m w x)
        by (apply worker_update; [repeat constructor | exact H1]);
      destruct (callMonicaApi env fileContent prompt sm replies x)
        as [[[response|message] w2] later2]
    end; cbn [fst snd] in Hcall; rewrite (selectModel_chosen env m Hne) in Hcall.
    2:{ intros [= <- <- <-]. exists w2. split; [|reflexivity].
        eapply Worker_trans; eassumption. }
    assert (H4 : Worker env m w
                   (suspend env 0 (updateProgress [set_processedChunks 1] w2))).
    { apply worker_suspend, worker_update; [repeat constructor|].
      eapply Worker_trans; eassumption. }
    destruct (writeFile env outputPath response) as [[]|message] eqn:Hwrite;
      intros [= <- <- <-].
    + eexists. split; [exact H4|]. split; [reflexivity|].
      eexists _, _. split; [exact Hwrite | reflexivity].
    + eexists. split; [exact H4 | reflexivity].
Qed.

(** One invocation of [processFile]: the first update, the steps of
    the worker, on success the output file, the last update. *)
Lemma processFile_worker chunker inputPath outputPath prompt model replies w r w' later :
  processFile env chunker inputPath outputPath prompt model replies w = (r, w', later) ->
  exists w4 err history,
    Worker env (selectModel env model) (processFile_started inputPath w) w4 /\
    match r with
    | Return path =>
      path = outputPath /\
      exists text,
        writeFile env outputPath text = Return tt /\
        w' = updateProgress
               [set_status completed; set_error err; set_processingHistory history]
               (emit (EvWrite outputPath text) w4)
    | Throw _ =>
      w' = updateProgress
             [set_status error_status; set_error err; set_processingHistory history] w4
    end.
Proof.
  unfold processFile, processFile_started.
  destruct (trackFileProcessing inputPath w) as [fileNumber w1]. cbn [snd].
  match goal with |- context [processFile_try env chunker (clock w) inputPath outputPath
                                prompt model replies ?x] =>
    destruct (processFile_try env chunker (clock w) inputPath outputPath prompt model
                replies x) as [[r3 w3] later3] eqn:Htry end.
  apply processFile_try_worker in Htry. destruct Htry as (w4 & Hw & Hend).
  destruct r3 as [path|message].
  - destruct Hend as (-> & text & history & Hwrite & ->). intros [= <- <- <-].
    exists w4, None, history. split; [exact Hw|]. split; [reflexivity|].
    exists text. auto.
  - subst w3. unfold processFile_catch. intros [= <- <- <-].
    eexists w4, _, _. auto.
Qed.

End WorkerRuns.

(** ** What the steps of the worker keep *)

Lemma sameJob_counters u p :
  Forall isCounterAssignment u -> sameJob p (fold_left assign u p).
Proof.
  intros Hu. revert p. induction Hu as [|a u Ha _ IH]; intros p; cbn [fold_left].
  - unfold sameJob, keepsBatch. tauto.
  - specialize (IH (assign p a)).
    assert (Hstep : sameJob p (assign p a)).
    { destruct p, a; cbn in Ha; try contradiction;
        unfold sameJob, keepsBatch; cbn; tauto. }
    unfold sameJob, keepsBatch in *.
    destruct IH as ((-> & -> & -> & -> & -> & -> & IHc) & -> & -> & ->).
    destruct Hstep as ((-> & -> & -> & -> & -> & -> & Hc) & -> & -> & ->).
    tauto.
Qed.

Lemma updateProgress_counters u w :
  Forall isCounterAssignment u ->
  sameJob (processingProgress w) (processingProgress (updateProgress u w)).
Proof.
  intros Hu. unfold updateProgress, with_progress, Object_assign. cbn.
  rewrite fold_left_app. cbn [fold_left].
  pose proof (sameJob_counters u (processingProgress w) Hu) as Hs.
  destruct (fold_left assign u (processingProgress w)).
  unfold sameJob, keepsBatch in *. cbn in *. exact Hs.
Qed.

Lemma suspend_suspensions env d w :
  suspensions (suspend env d w) = S (suspensions w).
Proof.
  unfold suspend. destruct (cancel_requested _); [|reflexivity].
  destruct (cancelProcessing_rest
              {| processingProgress := processingProgress w;
                 rateLimits := rateLimits w;
                 clock := clock w + Z.max 0 d +
                          Z.of_N (elapsed (schedule env (suspensions w)));
                 suspensions := S (suspensions w); trace := trace w |})
    as (_ & _ & -> & _).
  reflexivity.
Qed.

Lemma purge_rest modelKey w :
  processingProgress (purge modelKey w) = processingProgress w /\
  clock (purge modelKey w) = clock w /\
  suspensions (purge modelKey w) = suspensions w /\
  trace (purge modelKey w) = trace w.
Proof. unfold purge. cbn. tauto. Qed.

Lemma trackRequest_rest modelKey i o w :
  suspensions (trackRequest modelKey i o w).2 = suspensions w /\
  forall other, other <> modelKey ->
    rateLimits (trackRequest modelKey i o w).2 !! other = rateLimits w !! other.
Proof.
  unfold trackRequest. destruct (String.eqb modelKey EmptyString); [tauto|].
  destruct (inheritedOnly modelKey w); [cbn; tauto|].
  cbn. split; [reflexivity|]. intros other Hne.
  rewrite lookup_insert_ne by congruence. reflexivity.
Qed.

Lemma trackRequest_trace modelKey i o w :
  modelKey <> EmptyString ->
  exists e, trace (trackRequest modelKey i o w).2 = trace w ++ [e] /\
            (e = EvRecord modelKey (clock w) (i + o)%Q \/ e = EvRecordFailed modelKey).
Proof.
  intros Hne.
  destruct (trackRequest_frame modelKey i o w Hne)
    as (_ & _ & [(_ & _ & ->)|(_ & _ & _ & _ & ->)]); eauto.
Qed.

(** The steps of the worker leave the batch fields of the progress
    object and the windows of the other models alone; time, the number
    of suspensions and the trace only grow. *)
Lemma Worker_frame env key w w' :
  Worker env key w w' ->
  keepsBatch (processingProgress w) (processingProgress w') /\
  clock w <= clock w' /\
  (suspensions w <= suspensions w')%nat /\
  (exists events, trace w' = trace w ++ events) /\
  (forall other, other <> key -> rateLimits w' !! other = rateLimits w !! other).
Proof.
  induction 1 as [|u w' Hu _ IH|e w' He _ IH|d w' _ IH|model w' Hm _ IH|i o w' Hne _ IH].
  - split; [apply keepsBatch_refl|]. split; [lia|]. split; [lia|].
    split; [exists []; rewrite app_nil_r; reflexivity | reflexivity].
  - destruct IH as (Hp & Hc & Hs & (events & Ht) & Hr).
    destruct (updateProgress_rest u w') as (-> & -> & -> & ->).
    destruct (updateProgress_counters u w' Hu) as (Hk & _).
    split; [eapply keepsBatch_trans; eassumption|]. eauto.
  - destruct IH as (Hp & Hc & Hs & (events & Ht) & Hr). cbn.
    split; [exact Hp|]. split; [exact Hc|]. split; [exact Hs|]. split; [|exact Hr].
    exists (events ++ [e]). rewrite Ht, app_assoc. reflexivity.
  - destruct IH as (Hp & Hc & Hs & (events & Ht) & Hr).
    destruct (suspend_rest env d w') as (-> & -> & Hclock).
    rewrite suspend_suspensions.
    split; [eapply keepsBatch_trans;
            [exact Hp | apply keepsJob_keepsBatch, suspend_keepsJob]|].
    split; [lia|]. split; [lia|]. eauto.
  - destruct IH as (Hp & Hc & Hs & (events & Ht) & Hr).
    destruct (purge_rest key w') as (-> & -> & -> & ->).
    split; [exact Hp|]. split; [exact Hc|]. split; [exact Hs|]. split; [eauto|].
    intros other Hne. unfold purge. cbn.
    rewrite lookup_insert_ne by congruence. apply Hr, Hne.
  - destruct IH as (Hp & Hc & Hs & (events & Ht) & Hr).
    destruct (trackRequest_frame key i o w' Hne) as (-> & -> & _).
    destruct (trackRequest_trace key i o w' Hne) as (e & -> & _).
    destruct (trackRequest_rest key i o w') as (-> & Hother).
    split; [exact Hp|]. split; [exact Hc|]. split; [exact Hs|]. split.
    + eexists. rewrite Ht, <- app_assoc. reflexivity.
    + intros other Hne'. rewrite Hother by exact Hne'. apply Hr, Hne'.
Qed.

(** ** Cancel requests served while the worker is suspended *)

Lemma cancelServed_none env n : cancelServed env n n = false.
Proof. unfold cancelServed. rewrite Nat.sub_diag. reflexivity. Qed.

Lemma cancelServed_split env a b c :
  (a <= b)%nat -> (b <= c)%nat ->
  cancelServed env a c = cancelServed env a b || cancelServed env b c.
Proof.
  intros Hab Hbc. unfold cancelServed.
  replace (c - a)%nat with ((b - a) + (c - b))%nat by lia.
  rewrite seq_app, existsb_app.
  replace (a + (b - a))%nat with b by lia. reflexivity.
Qed.

Lemma cancelServed_step env a b :
  (a <= b)%nat ->
  cancelServed env a (S b) =
  cancelServed env a b || cancel_requested (schedule env b).
Proof.
  intros Hab. rewrite (cancelServed_split env a b (S b)) by lia.
  f_equal. unfold cancelServed.
  replace (S b - b)%nat with 1%nat by lia. cbn. apply orb_false_r.
Qed.

Lemma cancelServed_spec env a b :
  cancelServed env a b = true <->
  exists n, (a <= n < b)%nat /\ cancel_requested (schedule env n) = true.
Proof.
  unfold cancelServed. rewrite existsb_exists. split.
  - intros (n & Hin & Hn). apply in_seq in Hin. exists n. split; [lia | exact Hn].
  - intros (n & Hin & Hn). exists n. split; [apply in_seq; lia | exact Hn].
Qed.

Lemma suspend_progress env d w :
  let w' := suspend env d w in
  if cancel_requested (schedule env (suspensions w)) then
    if decide (status (processingProgress w) = processing) then
      status (processingProgress w') = cancelled_status /\
      cancelled (processingProgress w') = true /\
      error (processingProgress w') = Some "Processing cancelled by user"
    else processingProgress w' = processingProgress w
  else processingProgress w' = processingProgress w.
Proof.
  unfold suspend. destruct (cancel_requested _); [|reflexivity].
  unfold cancelProcessing. cbn [processingProgress].
  destruct (decide (status (processingProgress w) = processing)); [|reflexivity].
  destruct w as [[] ? ? ? ?]. cbn. tauto.
Qed.

(** While a job is processing, the first cancel request served during
    a suspension sets the flag and the status; without one both stay. *)
Lemma Worker_cancel env key w w' :
  Worker env key w w' ->
  status (processingProgress w) = processing ->
  if cancelServed env (suspensions w) (suspensions w') then
    status (processingProgress w') = cancelled_status /\
    cancelled (processingProgress w') = true
  else
    status (processingProgress w') = processing /\
    cancelled (processingProgress w') = cancelled (processingProgress w).
Proof.
  intros Hrun Hstart.
  induction Hrun as [|u w' Hu Hrun IH|e w' He Hrun IH|d w' Hrun IH
                     |model w' Hm Hrun IH|i o w' Hne Hrun IH].
  - rewrite cancelServed_none. auto.
  - destruct (updateProgress_rest u w') as (_ & _ & -> & _).
    destruct (updateProgress_counters u w' Hu) as (_ & -> & -> & _). exact IH.
  - exact IH.
  - destruct (Worker_frame env key w w' Hrun) as (_ & _ & Hs & _).
    rewrite suspend_suspensions, cancelServed_step by exact Hs.
    pose proof (suspend_progress env d w') as Hp. cbn zeta in Hp.
    destruct (cancelServed env (suspensions w) (suspensions w')).
    + cbn [orb]. destruct IH as (Hst & Hc).
      destruct (cancel_requested _).
      * rewrite Hst in Hp. destruct (decide (cancelled_status = processing));
          [discriminate|]. rewrite Hp. auto.
      * rewrite Hp. auto.
    + cbn [orb]. destruct IH as (Hst & Hc).
      destruct (cancel_requested _).
      * destruct (decide _); [|contradiction]. tauto.
      * rewrite Hp. auto.
  - destruct (purge_rest key w') as (-> & _ & -> & _). exact IH.
  - destruct (trackRequest_frame key i o w' Hne) as (-> & _).
    destruct (trackRequest_rest key i o w') as (-> & _). exact IH.
Qed.

(** ** Order of the request windows *)

Lemma filter_timestamps (bound : Z) (entries : list TokenEntry) :
  map tk_timestamp (filter (fun entry => bound < tk_timestamp entry) entries) =
  filter (fun timestamp => bound < timestamp) (map tk_timestamp entries).
Proof.
  induction entries as [|entry entries IH]; [reflexivity|].
  cbn [map]. rewrite !filter_cons.
  destruct (decide (bound < tk_timestamp entry)); cbn [map]; rewrite IH; reflexivity.
Qed.

Lemma StronglySorted_filter (P : Z -> Prop) `{!forall x, Decision (P x)} l :
  StronglySorted Z.le l -> StronglySorted Z.le (filter P l).
Proof.
  induction 1 as [|x l Hl IH Hx]; [constructor|].
  rewrite filter_cons. destruct (decide (P x)); [|exact IH].
  constructor; [exact IH|].
  rewrite Forall_forall in *. intros y Hy.
  apply Hx. apply list_elem_of_filter in Hy. tauto.
Qed.

Lemma Forall_filter_keep {A} (P Q : A -> Prop) `{!forall x, Decision (P x)} l :
  Forall Q l -> Forall Q (filter P l).
Proof.
  rewrite !Forall_forall. intros Hall x Hx. apply Hall.
  apply list_elem_of_filter in Hx. tauto.
Qed.

Lemma StronglySorted_snoc_le l (x : Z) :
  StronglySorted Z.le l -> Forall (fun y => y <= x) l ->
  StronglySorted Z.le (l ++ [x]).
Proof.
  induction 1 as [|y l Hl IH Hy]; intros Hx.
  - repeat constructor.
  - apply Forall_cons in Hx. destruct Hx as (Hyx & Hx).
    cbn. constructor; [apply IH, Hx|].
    apply Forall_app. split; [exact Hy | repeat constructor; exact Hyx].
Qed.

Lemma windowOrdered_later now later window :
  now <= later -> windowOrdered now window -> windowOrdered later window.
Proof.
  intros Hle (Hsync & Hsorted & Hpast). repeat split; try assumption.
  eapply Forall_impl; [exact Hpast|]. cbn. intros; lia.
Qed.

Lemma windowOrdered_windowOf modelKey w :
  windowsOrdered w -> windowOrdered (clock w) (windowOf modelKey w).
Proof.
  intros Hw. unfold windowOf.
  destruct (rateLimits w !! modelKey) as [window|] eqn:Hk; cbn.
  - apply (Hw modelKey window Hk).
  - repeat split; constructor.
Qed.

Lemma purge_ordered modelKey w : windowsOrdered w -> windowsOrdered (purge modelKey w).
Proof.
  intros Hw k window. unfold purge. cbn.
  destruct (decide (k = modelKey)) as [->|Hne].
  - rewrite lookup_insert_eq. intros [= <-].
    destruct (windowOrdered_windowOf modelKey w Hw) as (Hsync & Hsorted & Hpast).
    split; [|split]; cbn.
    + rewrite filter_timestamps, Hsync. reflexivity.
    + apply StronglySorted_filter, Hsorted.
    + apply Forall_filter_keep, Hpast.
  - rewrite lookup_insert_ne by congruence. apply Hw.
Qed.

Lemma trackRequest_ordered modelKey i o w :
  windowsOrdered w -> windowsOrdered (trackRequest modelKey i o w).2.
Proof.
  intros Hw. unfold trackRequest.
  destruct (String.eqb modelKey EmptyString); [exact Hw|].
  destruct (inheritedOnly modelKey w); [exact Hw|].
  intros k window. cbn.
  destruct (decide (k = modelKey)) as [->|Hne].
  - rewrite lookup_insert_eq. intros [= <-].
    destruct (windowOrdered_windowOf modelKey w Hw) as (Hsync & Hsorted & Hpast).
    split; [|split]; cbn.
    + rewrite map_app, Hsync. reflexivity.
    + apply StronglySorted_snoc_le; assumption.
    + apply Forall_app. split; [exact Hpast | repeat constructor; lia].
  - rewrite lookup_insert_ne by congruence. apply Hw.
Qed.

Lemma Worker_ordered env key w w' :
  Worker env key w w' -> windowsOrdered w -> windowsOrdered w'.
Proof.
  intros Hrun Hw.
  induction Hrun as [|u w' Hu Hrun IH|e w' He Hrun IH|d w' Hrun IH
                     |model w' Hm Hrun IH|i o w' Hne Hrun IH].
  - exact Hw.
  - unfold windowsOrdered.
    destruct (updateProgress_rest u w') as (-> & -> & _). exact IH.
  - exact IH.
  - unfold windowsOrdered. destruct (suspend_rest env d w') as (-> & _ & Hc).
    intros k window Hk. eapply windowOrdered_later; [|apply (IH k window Hk)].
    rewrite Hc. lia.
  - apply purge_ordered, IH.
  - apply trackRequest_ordered, IH.
Qed.

(** ** One file from the first to the last update *)

Lemma Worker_writes env key w w' :
  Worker env key w w' ->
  exists events, trace w' = trace w ++ events /\ writes events = [].
Proof.
  induction 1 as [|u w' Hu _ IH|e w' He _ IH|d w' _ IH|model w' Hm _ IH|i o w' Hne _ IH].
  - exists []. rewrite app_nil_r. auto.
  - destruct (updateProgress_rest u w') as (_ & _ & _ & ->). exact IH.
  - destruct IH as (events & Ht & Hw). exists (events ++ [e]). cbn.
    rewrite Ht, app_assoc. split; [reflexivity|].
    unfold writes in *. rewrite omap_app, Hw. destruct e; try reflexivity; contradiction.
  - destruct (suspend_rest env d w') as (_ & -> & _). exact IH.
  - destruct (purge_rest key w') as (_ & _ & _ & ->). exact IH.
  - destruct IH as (events & Ht & Hw).
    destruct (trackRequest_trace key i o w' Hne) as (e & -> & He).
    eexists. rewrite Ht, <- app_assoc. split; [reflexivity|].
    unfold writes in *. rewrite omap_app, Hw.
    destruct He as [->| ->]; reflexivity.
Qed.

Lemma trackFileProcessing_rest filePath w :
  let w' := (trackFileProcessing filePath w).2 in
  rateLimits w' = rateLimits w /\ clock w' = clock w /\
  suspensions w' = suspensions w /\ trace w' = trace w /\
  status (processingProgress w') = status (processingProgress w) /\
  startTime (processingProgress w') = startTime (processingProgress w) /\
  processingHistory (processingProgress w') = processingHistory (processingProgress w) /\
  cancelled (processingProgress w') = cancelled (processingProgress w).
Proof.
  unfold trackFileProcessing. cbn zeta. case_decide; cbn [snd]; [tauto|].
  destruct w as [[] ? ? ? ?]. cbn. tauto.
Qed.

Lemma processFile_started_fields inputPath w :
  let w1 := (trackFileProcessing inputPath w).2 in
  let ws := processFile_started inputPath w in
  status (processingProgress ws) = processing /\
  startTime (processingProgress ws) = Some (clock w) /\
  currentFile (processingProgress ws) = currentFile (processingProgress w1) /\
  currentFileNumber (processingProgress ws) = currentFileNumber (processingProgress w1) /\
  totalFiles (processingProgress ws) = totalFiles (processingProgress w1) /\
  processedFiles (processingProgress ws) = processedFiles (processingProgress w1) /\
  processingHistory (processingProgress ws) = processingHistory (processingProgress w) /\
  cancelled (processingProgress ws) = cancelled (processingProgress w) /\
  rateLimits ws = rateLimits w /\ clock ws = clock w /\
  suspensions ws = suspensions w /\ trace ws = trace w.
Proof.
  cbn zeta. unfold processFile_started.
  destruct (trackFileProcessing_rest inputPath w)
    as (Hr & Hc & Hs & Ht & _ & _ & Hh & Hx).
  cbn zeta in *. revert Hr Hc Hs Ht Hh Hx.
  generalize (trackFileProcessing inputPath w).2. intros w1 Hr Hc Hs Ht Hh Hx.
  destruct (updateProgress_rest
              [set_status processing; set_startTime (Some (clock w));
               set_totalChunks 0; set_processedChunks 0; set_error None] w1)
    as (-> & -> & -> & ->).
  rewrite <- Hh, <- Hx.
  split; [|split; [|split; [|split; [|split; [|split; [|split; [|split]]]]]]];
    [destruct w1 as [[] ? ? ? ?]; reflexivity .. |].
  tauto.
Qed.

(** Everything one invocation of [processFile] does to the state
    outside the chunk counters. *)
Lemma processFile_fields env chunker inputPath outputPath prompt model replies w
    r w' later :
  processFile env chunker inputPath outputPath prompt model replies w = (r, w', later) ->
  let p1 := processingProgress (trackFileProcessing inputPath w).2 in
  let p' := processingProgress w' in
  (currentFile p' = currentFile p1 /\
   currentFileNumber p' = currentFileNumber p1 /\
   totalFiles p' = totalFiles p1 /\
   processedFiles p' = processedFiles p1 /\
   startTime p' = Some (clock w)) /\
  (status p' = match r with Return _ => completed | Throw _ => error_status end /\
   cancelled p' =
     cancelled (processingProgress w) || cancelServed env (suspensions w) (suspensions w')) /\
  (clock w <= clock w' /\ (suspensions w <= suspensions w')%nat /\
   forall other, other <> selectModel env model ->
     rateLimits w' !! other = rateLimits w !! other) /\
  (windowsOrdered w -> windowsOrdered w') /\
  exists events,
    trace w' = trace w ++ events /\
    match r with
    | Return path =>
      path = outputPath /\
      exists earlier text,
        events = earlier ++ [EvWrite outputPath text] /\ writes earlier = [] /\
        writeFile env outputPath text = Return tt
    | Throw _ => writes events = []
    end.
Proof.
  intros Hrun. apply processFile_worker in Hrun.
  destruct Hrun as (w4 & err & history & Hw & Hend).
  destruct (processFile_started_fields inputPath w)
    as (Hst & Hstart & Hcf & Hcn & Htf & Hpf & Hh & Hx & Hr & Hc & Hs & Ht).
  cbn zeta in *.
  destruct (Worker_frame _ _ _ _ Hw) as (Hk & Hclock & Hsusp & _ & Hother).
  pose proof (Worker_cancel _ _ _ _ Hw Hst) as Hcancel.
  pose proof (Worker_ordered _ _ _ _ Hw) as Hord.
  destruct (Worker_writes _ _ _ _ Hw) as (events & Htrace & Hwrites).
  destruct Hk as (Kcf & Kcn & Ktf & Kst & Kh & Kpf & Kx).
  rewrite Hs in *. rewrite Hc in *. rewrite Ht in *. rewrite Hx in *.
  assert (Hflag : cancelled (processingProgress w4) =
                  cancelled (processingProgress w) ||
                  cancelServed env (suspensions w) (suspensions w4)).
  { destruct (cancelServed env (suspensions w) (suspensions w4)).
    - destruct Hcancel as (_ & ->). apply eq_sym, orb_true_r.
    - destruct Hcancel as (_ & ->). apply eq_sym, orb_false_r. }
  assert (Hord' : windowsOrdered w -> windowsOrdered w4).
  { intros Hw0. apply Hord. intros k window. rewrite Hr, Hc. apply Hw0. }
  set (final := fun st w6 =>
         updateProgress [set_status st; set_error err; set_processingHistory history] w6).
  assert (Hfinal : forall st w6,
             processingProgress w6 = processingProgress w4 ->
             rateLimits w6 = rateLimits w4 -> clock w6 = clock w4 ->
             suspensions w6 = suspensions w4 ->
             let p' := processingProgress (final st w6) in
             (currentFile p' = currentFile (processingProgress (trackFileProcessing inputPath w).2) /\
              currentFileNumber p' = currentFileNumber (processingProgress (trackFileProcessing inputPath w).2) /\
              totalFiles p' = totalFiles (processingProgress (trackFileProcessing inputPath w).2) /\
              processedFiles p' = processedFiles (processingProgress (trackFileProcessing inputPath w).2) /\
              startTime p' = Some (clock w)) /\
             (status p' = st /\
              cancelled p' =
                cancelled (processingProgress w) ||
                cancelServed env (suspensions w) (suspensions (final st w6))) /\
             (clock w <= clock (final st w6) /\
              (suspensions w <= suspensions (final st w6))%nat /\
              forall other, other <> selectModel env model ->
                rateLimits (final st w6) !! other = rateLimits w !! other) /\
             (windowsOrdered w -> windowsOrdered (final st w6))).
  { intros st w6 Hp6 Hr6 Hc6 Hs6. unfold final.
    destruct (updateProgress_rest
                [set_status st; set_error err; set_processingHistory history] w6)
      as (Er & Ec & Es & _).
    destruct (updateProgress_outcome st err history w6)
      as (Est & _ & _ & _ & _ & _ & Ex & Ecf & Ecn & Etf & Estart & Epf & _).
    cbn zeta in *. rewrite Es, Ec, Hs6, Hc6.
    rewrite Est, Ex, Ecf, Ecn, Etf, Estart, Epf, Hp6.
    split; [|split; [|split; [|]]].
    - rewrite Kcf, Kcn, Ktf, Kst, Kpf, Hcf, Hcn, Htf, Hpf, Hstart. tauto.
    - split; [reflexivity | exact Hflag].
    - split; [exact Hclock|]. split; [exact Hsusp|].
      intros other Hne. rewrite Er, Hr6, Hother, Hr by exact Hne. reflexivity.
    - intros Hw0 k window. rewrite Er, Ec, Hr6, Hc6. apply Hord', Hw0. }
  destruct r as [path|message].
  - destruct Hend as (-> & text & Hwrite & ->).
    destruct (Hfinal completed (emit (EvWrite outputPath text) w4))
      as (F1 & F2 & F3 & F4); try reflexivity.
    split; [exact F1|]. split; [exact F2|]. split; [exact F3|]. split; [exact F4|].
    exists (events ++ [EvWrite outputPath text]).
    destruct (updateProgress_rest
                [set_status completed; set_error err; set_processingHistory history]
                (emit (EvWrite outputPath text) w4)) as (_ & _ & _ & ->).
    cbn. rewrite Htrace, app_assoc. split; [reflexivity|]. split; [reflexivity|].
    exists events, text. auto.
  - subst w'.
    destruct (Hfinal error_status w4) as (F1 & F2 & F3 & F4); try reflexivity.
    split; [exact F1|]. split; [exact F2|]. split; [exact F3|]. split; [exact F4|].
    exists events.
    destruct (updateProgress_rest
                [set_status error_status; set_error err; set_processingHistory history]
                w4) as (_ & _ & _ & ->).
    auto.
Qed.

(** ** The file counter *)

Lemma setTotalFiles_counter total w :
  0 <= total -> counterInvariant (processingProgress (setTotalFiles total w)).
Proof.
  intros Hpos. unfold counterInvariant, setTotalFiles.
  destruct w as [[] ? ? ? ?]. cbn. rewrite size_empty. lia.
Qed.

Lemma processFile_counter env chunker inputPath outputPath prompt model replies w :
  let p := processingProgress w in
  let p' := processingProgress
              (processFile env chunker inputPath outputPath prompt model replies w).1.2 in
  processedFiles p' = {[basename inputPath]} ∪ processedFiles p /\
  totalFiles p' = totalFiles p /\
  (counterInvariant p ->
   counterInvariant p' /\ currentFileNumber p <= currentFileNumber p').
Proof.
  cbn zeta.
  destruct (processFile env chunker inputPath outputPath prompt model replies w)
    as [[r w'] later] eqn:Hrun.
  destruct (processFile_fields _ _ _ _ _ _ _ _ _ _ _ Hrun)
    as ((_ & Hcn & Htf & Hpf & _) & _).
  destruct (trackFileProcessing_counter inputPath w) as (Tpf & Ttf & _ & Tinv).
  cbn zeta in *. cbn [fst snd]. unfold counterInvariant in *.
  rewrite Hcn, Htf, Hpf. tauto.
Qed.

(** X7. The file counter of the progress object: after
    [setTotalFiles(total)] with a non-negative total, and then after
    every [processFile], [currentFileNumber] is the number of distinct
    base names processed so far, capped at [totalFiles]; one call adds
    the base name of its input to [processedFiles], never lowers the
    counter, and leaves [totalFiles] alone. *)
Theorem processFile_counts_distinct_files (env : Env)
    (chunker : string -> Z -> list string) :
  (forall total w,
     0 <= total -> counterInvariant (processingProgress (setTotalFiles total w))) /\
  (forall inputPath outputPath prompt model replies w,
     counterInvariant (processingProgress w) ->
     let p := processingProgress w in
     let p' := processingProgress
                 (processFile env chunker inputPath outputPath prompt model replies w).1.2 in
     counterInvariant p' /\
     processedFiles p' = {[basename inputPath]} ∪ processedFiles p /\
     totalFiles p' = totalFiles p /\
     currentFileNumber p <= currentFileNumber p' <= totalFiles p).
Proof.
  split; [apply setTotalFiles_counter|].
  intros inputPath outputPath prompt model replies w Hinv.
  destruct (processFile_counter env chunker inputPath outputPath prompt model replies w)
    as (Hpf & Htf & Hstep).
  cbn zeta in *. destruct (Hstep Hinv) as (Hinv' & Hle).
  split; [exact Hinv'|]. split; [exact Hpf|]. split; [exact Htf|].
  split; [exact Hle|]. unfold counterInvariant in Hinv'. rewrite Hinv', Htf. lia.
Qed.

Lemma processFile_counts_distinct_files_witness :
  let w := setTotalFiles 2 (loadedWorld 1000) in
  let p' := processingProgress
              (processFile tinyEnv publishedChunks "/in/a.txt" "/out/a.txt"
                 "Summarise" None [] w).1.2 in
  counterInvariant (processingProgress w) /\
  counterInvariant p' /\
  currentFileNumber (processingProgress w) <= currentFileNumber p' <= 2.
Proof.
  cbn zeta.
  pose proof (proj1 (processFile_counts_distinct_files tinyEnv publishedChunks)
                2 (loadedWorld 1000) ltac:(lia)) as Hstart.
  destruct (proj2 (processFile_counts_distinct_files tinyEnv publishedChunks)
              "/in/a.txt" "/out/a.txt" "Summarise" None []
              (setTotalFiles 2 (loadedWorld 1000)) Hstart) as (Hinv & _ & _ & Hle).
  split; [exact Hstart|]. split; [exact Hinv | exact Hle].
Defined.

(** ** Cancel requests during one file *)

(** X8. A cancel request served while [processFile] is suspended
    leaves nothing but the flag: at the end [cancelled] is set exactly
    when it was set before or a request was served during one of the
    suspensions of this call, while [status] is [completed] or
    [error] according to the result and never [cancelled]. *)
Theorem processFile_cancel_leaves_only_the_flag (env : Env)
    (chunker : string -> Z -> list string)
    (inputPath outputPath prompt : string) (model : option string)
    (replies : list HttpOutcome) (w : World) :
  let run := processFile env chunker inputPath outputPath prompt model replies w in
  let p' := processingProgress run.1.2 in
  cancelled p' =
    cancelled (processingProgress w) ||
    cancelServed env (suspensions w) (suspensions run.1.2) /\
  status p' = match run.1.1 with Return _ => completed | Throw _ => error_status end /\
  status p' <> cancelled_status.
Proof.
  cbn zeta.
  destruct (processFile env chunker inputPath outputPath prompt model replies w)
    as [[r w'] later] eqn:Hrun.
  destruct (processFile_fields _ _ _ _ _ _ _ _ _ _ _ Hrun)
    as (_ & (Hst & Hflag) & _).
  cbn zeta in *. cbn [fst snd].
  split; [exact Hflag|]. split; [exact Hst|].
  rewrite Hst. destruct r; discriminate.
Qed.

(** ** The request windows *)

(** X9. One [processFile] works on the window of one model, the one
    selected by [model || DEFAULT_MODEL || 'gpt-4o']: the entry of
    every other key of [rateLimits] is the same object before and
    after. *)
Theorem processFile_touches_one_window (env : Env)
    (chunker : string -> Z -> list string)
    (inputPath outputPath prompt : string) (model : option string)
    (replies : list HttpOutcome) (w : World) (other : string) :
  other <> selectModel env model ->
  rateLimits (processFile env chunker inputPath outputPath prompt model replies w).1.2
    !! other = rateLimits w !! other.
Proof.
  intros Hne.
  destruct (processFile env chunker inputPath outputPath prompt model replies w)
    as [[r w'] later] eqn:Hrun.
  destruct (processFile_fields _ _ _ _ _ _ _ _ _ _ _ Hrun)
    as (_ & _ & (_ & _ & Hother) & _).
  apply Hother, Hne.
Qed.

Lemma processFile_touches_one_window_witness :
  rateLimits (processFile tinyEnv (fixedChunks ["abcd"; "efgh"]) "/in/a.txt" "/out/a.txt"
                "Summarise" (Some "tiny")
                [Resolved None (Some "one"); Resolved None (Some "two")]
                (trackRequest "gpt-4o" 1 1 (loadedWorld 1000)).2).1.2 !! "gpt-4o"
  = rateLimits (trackRequest "gpt-4o" 1 1 (loadedWorld 1000)).2 !! "gpt-4o".
Proof.
  apply processFile_touches_one_window. vm_compute. discriminate.
Defined.

Lemma loadedWorld_ordered now : windowsOrdered (loadedWorld now).
Proof. intros k window Hk. cbn in Hk. rewrite lookup_empty in Hk. discriminate. Qed.

(** X10. The request windows stay ordered.  In the state after
    loading, and from then on after every [processFile], each window
    of [rateLimits] holds its timestamps in ascending order, none of
    them later than the clock, and its token entries carry the same
    timestamps in the same order; hence the first element, which the
    limiter takes for the oldest request, is the oldest. *)
Theorem request_windows_stay_ordered (env : Env)
    (chunker : string -> Z -> list string) :
  (forall now, windowsOrdered (loadedWorld now)) /\
  (forall inputPath outputPath prompt model replies w,
     windowsOrdered w ->
     windowsOrdered
       (processFile env chunker inputPath outputPath prompt model replies w).1.2) /\
  (forall w modelKey oldest rest,
     windowsOrdered w ->
     requests (windowOf modelKey w) = oldest :: rest ->
     Forall (fun timestamp => oldest <= timestamp <= clock w) (oldest :: rest) /\
     map tk_timestamp (tokens (windowOf modelKey w)) = oldest :: rest).
Proof.
  split; [apply loadedWorld_ordered|]. split.
  - intros inputPath outputPath prompt model replies w Hw.
    destruct (processFile env chunker inputPath outputPath prompt model replies w)
      as [[r w'] later] eqn:Hrun.
    destruct (processFile_fields _ _ _ _ _ _ _ _ _ _ _ Hrun)
      as (_ & _ & _ & Hord & _).
    apply Hord, Hw.
  - intros w modelKey oldest rest Hw Hreq.
    destruct (windowOrdered_windowOf modelKey w Hw) as (Hsync & Hsorted & Hpast).
    rewrite Hreq in *. split; [|exact Hsync].
    apply StronglySorted_inv in Hsorted. destruct Hsorted as (_ & Hhead).
    apply Forall_cons in Hpast. destruct Hpast as (Hfirst & Hpast).
    constructor; [lia|].
    rewrite Forall_forall in *. intros t Ht.
    specialize (Hhead t Ht). specialize (Hpast t Ht). cbn in Hpast. lia.
Qed.

Lemma request_windows_stay_ordered_witness :
  let w := (processFile tinyEnv (fixedChunks ["abcd"; "efgh"]) "/in/a.txt" "/out/a.txt"
              "Summarise" (Some "tiny")
              [Resolved None (Some "one"); Resolved None (Some "two")]
              (loadedWorld 1000)).1.2 in
  windowsOrdered w /\
  Forall (fun timestamp => 1010 <= timestamp <= clock w) [1010; 1015] /\
  map tk_timestamp (tokens (windowOf "tiny" w)) = [1010; 1015].
Proof.
  cbn zeta.
  pose proof (proj1 (proj2 (request_windows_stay_ordered tinyEnv
                              (fixedChunks ["abcd"; "efgh"])))
                "/in/a.txt" "/out/a.txt" "Summarise" (Some "tiny")
                [Resolved None (Some "one"); Resolved None (Some "two")]
                (loadedWorld 1000)
                (proj1 (request_windows_stay_ordered tinyEnv
                          (fixedChunks ["abcd"; "efgh"])) 1000)) as Hw.
  split; [exact Hw|].
  apply (proj2 (proj2 (request_windows_stay_ordered tinyEnv
                         (fixedChunks ["abcd"; "efgh"]))) _ "tiny" 1010 [1015] Hw).
  vm_compute. reflexivity.
Defined.

(** ** The output file *)

(** X11. [processFile] writes at most one file, the output file, and
    only as its last step: when it returns, the events of the call end
    with the write of [outputPath], which [fs.writeFile] accepted, and
    hold no other write; when it throws, nothing was written. *)
Theorem processFile_writes_output_last (env : Env)
    (chunker : string -> Z -> list string)
    (inputPath outputPath prompt : string) (model : option string)
    (replies : list HttpOutcome) (w : World) :
  let run := processFile env chunker inputPath outputPath prompt model replies w in
  exists events,
    trace run.1.2 = trace w ++ events /\
    match run.1.1 with
    | Return path =>
      path = outputPath /\
      exists earlier text,
        events = earlier ++ [EvWrite outputPath text] /\ writes earlier = [] /\
        writeFile env outputPath text = Return tt
    | Throw _ => writes events = []
    end.
Proof.
  cbn zeta.
  destruct (processFile env chunker inputPath outputPath prompt model replies w)
    as [[r w'] later] eqn:Hrun.
  destruct (processFile_fields _ _ _ _ _ _ _ _ _ _ _ Hrun) as (_ & _ & _ & _ & Hev).
  exact Hev.
Qed.

(** ** The window of a model outside the registry *)

Lemma recordedAt_worker_event key e :
  isWorkerEvent e -> recordedOf key e = None.
Proof. destruct e; cbn; intros H; first [reflexivity | contradiction]. Qed.

Lemma Worker_unregistered env key w w' :
  Worker env key w w' ->
  getModelInfo env key = None ->
  exists events,
    trace w' = trace w ++ events /\
    requests (windowOf key w') = requests (windowOf key w) ++ recordedAt key events.
Proof.
  intros Hrun Hnone.
  induction Hrun as [|u w' Hu Hrun IH|e w' He Hrun IH|d w' Hrun IH
                     |model w' Hm Hrun IH|i o w' Hne Hrun IH].
  - exists []. cbn. rewrite !app_nil_r. auto.
  - destruct IH as (events & Ht & Hreq). exists events.
    destruct (updateProgress_rest u w') as (Hr & _ & _ & ->).
    rewrite (windowOf_ext key w' _ (f_equal (fun m => m !! key) Hr)). auto.
  - destruct IH as (events & Ht & Hreq). exists (events ++ [e]). cbn.
    rewrite Ht, app_assoc. split; [reflexivity|].
    rewrite recordedAt_app. cbn. rewrite (recordedAt_worker_event key e He).
    cbn. rewrite app_nil_r. exact Hreq.
  - destruct IH as (events & Ht & Hreq). exists events.
    destruct (suspend_rest env d w') as (Hr & -> & _).
    rewrite (windowOf_ext key w' _ (f_equal (fun m => m !! key) Hr)). auto.
  - congruence.
  - destruct IH as (events & Ht & Hreq).
    destruct (trackRequest_frame key i o w' Hne)
      as (_ & _ & [(Hown & _ & Htr)|(_ & _ & _ & Hr & Htr)]).
    + exists (events ++ [EvRecord key (clock w') (i + o)%Q]).
      rewrite Htr, Ht, app_assoc. split; [reflexivity|].
      rewrite recordedAt_app. cbn. rewrite String.eqb_refl. cbn.
      rewrite (trackRequest_recorded key i o w' Hne Hown). cbn [snd].
      change (windowOf key (emit ?e ?x)) with (windowOf key x).
      rewrite windowOf_insert. cbn. rewrite Hreq, app_assoc. reflexivity.
    + exists (events ++ [EvRecordFailed key]).
      rewrite Htr, Ht, app_assoc. split; [reflexivity|].
      rewrite recordedAt_app. cbn. rewrite app_nil_r.
      rewrite (windowOf_ext key w' _ (f_equal (fun m => m !! key) Hr)).
      exact Hreq.
Qed.

(** X12. The window of a model that is not in the registry is never
    purged: when the selected model has no registry entry,
    [processFile] leaves every timestamp of its window in place and
    appends the time of each request it records, so the list only
    grows. *)
Theorem unregistered_window_is_never_purged (env : Env)
    (chunker : string -> Z -> list string)
    (inputPath outputPath prompt : string) (model : option string)
    (replies : list HttpOutcome) (w : World) :
  getModelInfo env (selectModel env model) = None ->
  let key := selectModel env model in
  let w' := (processFile env chunker inputPath outputPath prompt model replies w).1.2 in
  exists events,
    trace w' = trace w ++ events /\
    requests (windowOf key w') = requests (windowOf key w) ++ recordedAt key events.
Proof.
  intros Hnone. cbn zeta.
  destruct (processFile env chunker inputPath outputPath prompt model replies w)
    as [[r w'] later] eqn:Hrun. cbn [fst snd].
  apply processFile_worker in Hrun.
  destruct Hrun as (w4 & err & history & Hw & Hend).
  destruct (Worker_unregistered _ _ _ _ Hw Hnone) as (events & Ht & Hreq).
  destruct (processFile_started_fields inputPath w)
    as (_ & _ & _ & _ & _ & _ & _ & _ & Hr & _ & _ & Htr).
  cbn zeta in *. rewrite Htr in Ht.
  rewrite (windowOf_ext _ _ _ (f_equal (fun m => m !! selectModel env model) Hr)) in Hreq.
  destruct r as [path|message].
  - destruct Hend as (-> & text & Hwrite & ->).
    exists (events ++ [EvWrite outputPath text]).
    match goal with |- context [updateProgress ?u ?x] =>
      destruct (updateProgress_rest u x) as (Er & _ & _ & ->);
      rewrite (windowOf_ext _ x _ (f_equal (fun m => m !! selectModel env model) Er))
    end.
    cbn [trace emit]. rewrite Ht, app_assoc. split; [reflexivity|].
    change (windowOf ?k (emit ?e ?x)) with (windowOf k x).
    rewrite recordedAt_app. cbn. rewrite app_nil_r. exact Hreq.
  - subst w'. exists events.
    match goal with |- context [updateProgress ?u ?x] =>
      destruct (updateProgress_rest u x) as (Er & _ & _ & ->);
      rewrite (windowOf_ext _ x _ (f_equal (fun m => m !! selectModel env model) Er))
    end.
    auto.
Qed.

Lemma unregistered_window_is_never_purged_witness :
  let env := quietEnv [] (fun _ => Return "hello") 5 in
  let w := (trackRequest "gpt-4o" 1 1 (loadedWorld 0)).2 in
  let w' := (processFile env publishedChunks "/in/a.txt" "/out/a.txt" "Summarise" None
               [Resolved None (Some "fine")] w).1.2 in
  exists events,
    trace w' = trace w ++ events /\
    requests (windowOf "gpt-4o" w') = requests (windowOf "gpt-4o" w) ++
                                      recordedAt "gpt-4o" events.
Proof.
  apply (unregistered_window_is_never_purged
           (quietEnv [] (fun _ => Return "hello") 5) publishedChunks
           "/in/a.txt" "/out/a.txt" "Summarise" None [Resolved None (Some "fine")]
           (trackRequest "gpt-4o" 1 1 (loadedWorld 0)).2).
  reflexivity.
Defined.

(** ** The wait imposed by the limiter *)

Lemma filter_agree {A} (P Q : A -> Prop)
    `{!forall x, Decision (P x)} `{!forall x, Decision (Q x)} (l : list A) :
  (forall x, x ∈ l -> (P x <-> Q x)) -> filter P l = filter Q l.
Proof.
  induction l as [|x l IH]; intros Hpq; [reflexivity|].
  rewrite !filter_cons.
  assert (Hx : P x <-> Q x) by (apply Hpq; left).
  assert (Hl : filter P l = filter Q l) by (apply IH; intros y Hy; apply Hpq; right; exact Hy).
  destruct (decide (P x)), (decide (Q x)); try tauto; rewrite Hl; reflexivity.
Qed.

(** Under the invariants the purged window never exceeds the limit. *)
Lemma recent_requests_within_limit env modelKey model w :
  getModelInfo env modelKey = Some model ->
  rateInvariant env w -> windowsOrdered w ->
  (length (filter (recent (clock w)) (requests (windowOf modelKey w)))
   <= Pos.to_nat (rpm model))%nat.
Proof.
  intros Hm Hinv Hord. destruct (Hinv modelKey model Hm) as (Htrack & Hrate).
  destruct (windowOrdered_windowOf modelKey w Hord) as (_ & _ & Hpast).
  unfold windowTracksTrace in Htrack. rewrite Htrack.
  specialize (Hrate (clock w)). unfold inTrailingWindow in Hrate.
  rewrite (filter_agree (recent (clock w))
             (fun x => clock w - 60000 < x /\ x <= clock w)); [exact Hrate|].
  intros x Hx. unfold recent. split; [|tauto].
  intros Hrecent. split; [exact Hrecent|].
  assert (Hin : x ∈ filter (recent (clock w)) (recordedAt modelKey (trace w)))
    by (apply list_elem_of_filter; split; assumption).
  rewrite <- Htrack in Hin. apply list_elem_of_filter in Hin.
  rewrite Forall_forall in Hpast. apply Hpast. tauto.
Qed.

(** X13. The limiter delays a caller at most once and for at most a
    minute.  In a state that satisfies the invariants of the windows
    (they hold after loading and after every [processFile]),
    [checkRateLimits] either returns at once or sleeps one time, for
    more than 0 and at most 60000 ms, and returns when that sleep is
    over. *)
Theorem limiter_waits_once_at_most_a_minute (env : Env) (modelKey : string) (w : World) :
  rateInvariant env w -> windowsOrdered w ->
  let w' := checkRateLimits env modelKey w in
  (trace w' = trace w ++ [EvAdmit modelKey] /\ clock w' = clock w) \/
  (exists ms,
     0 < ms <= 60000 /\
     trace w' = trace w ++ [EvAdmit modelKey; EvSleep ms] /\
     clock w' = clock w + ms + Z.of_N (elapsed (schedule env (suspensions w)))).
Proof.
  intros Hinv Hord. cbn zeta. unfold checkRateLimits.
  set (w0 := emit (EvAdmit modelKey) w).
  set (budget := length (requests (windowOf modelKey w))).
  destruct (getModelInfo env modelKey) as [model|] eqn:Hm.
  2:{ left. destruct budget; cbn [checkRateLimits_from]; rewrite Hm; auto. }
  pose proof (recent_requests_within_limit env modelKey model w Hm Hinv Hord) as Hlimit.
  destruct (windowOrdered_windowOf modelKey w Hord) as (_ & _ & Hpast).
  destruct (decide (length (filter (recent (clock w)) (requests (windowOf modelKey w)))
                    < Pos.to_nat (rpm model))%nat) as [Hfree|Hfull].
  { left. rewrite (checkRateLimits_from_free env budget modelKey model w0 Hm Hfree). auto. }
  assert (Hlen : length (filter (recent (clock w)) (requests (windowOf modelKey w)))
                 = Pos.to_nat (rpm model)) by lia.
  clear Hfull Hlimit.
  pose proof (length_filter (recent (clock w)) (requests (windowOf modelKey w))) as Hb.
  assert (Hbudget : exists b, budget = S b).
  { exists (Nat.pred budget). unfold budget in *. lia. }
  destruct Hbudget as (b & ->).
  right. cbn [checkRateLimits_from]. rewrite Hm. cbn zeta.
  change (windowOf modelKey w0) with (windowOf modelKey w).
  change (clock w0) with (clock w).
  change (filter (fun timestamp : Z => clock w - 60000 < timestamp)
            (requests (windowOf modelKey w)))
    with (filter (recent (clock w)) (requests (windowOf modelKey w))).
  cbn [requests].
  destruct (Z.leb_spec (Z.pos (rpm model))
              (Z.of_nat (length (filter (recent (clock w))
                                   (requests (windowOf modelKey w))))))
    as [_|Hlt]; [|lia].
  destruct (filter (recent (clock w)) (requests (windowOf modelKey w)))
    as [|oldest rest] eqn:Hcleaned; [cbn in Hlen; lia|].
  assert (Hold : recent (clock w) oldest /\ oldest <= clock w).
  { assert (Hin : oldest ∈ filter (recent (clock w)) (requests (windowOf modelKey w)))
      by (rewrite Hcleaned; left).
    apply list_elem_of_filter in Hin. destruct Hin as (Hrecent & Hin).
    rewrite Forall_forall in Hpast. split; [exact Hrecent | apply Hpast, Hin]. }
  destruct Hold as (Hrecent & Hle). unfold recent in Hrecent.
  set (waitTime := Z.max 0 (oldest + 60000 - clock w)).
  assert (Hwait : 0 < waitTime <= 60000) by (unfold waitTime; lia).
  destruct (Z.ltb_spec 0 waitTime) as [_|Hno]; [|lia].
  exists waitTime. split; [exact Hwait|].
  match goal with |- context [checkRateLimits_from env b modelKey ?x] =>
    set (w2 := x) end.
  assert (Hr2 : requests (windowOf modelKey w2) = oldest :: rest).
  { unfold w2, windowOf.
    match goal with |- context [rateLimits (suspend env waitTime ?x)] =>
      destruct (suspend_rest env waitTime x) as (-> & _ & _) end.
    cbn. rewrite lookup_insert_eq. reflexivity. }
  assert (Hc2 : clock w2 = clock w + waitTime +
                           Z.of_N (elapsed (schedule env (suspensions w)))).
  { unfold w2. match goal with |- clock (suspend env waitTime ?x) = _ =>
      destruct (suspend_rest env waitTime x) as (_ & _ & ->) end.
    cbn. lia. }
  assert (Ht2 : trace w2 = trace w ++ [EvAdmit modelKey; EvSleep waitTime]).
  { unfold w2. match goal with |- trace (suspend env waitTime ?x) = _ =>
      destruct (suspend_rest env waitTime x) as (_ & -> & _) end.
    cbn. rewrite <- app_assoc. reflexivity. }
  assert (Hfree2 : (length (filter (recent (clock w2)) (requests (windowOf modelKey w2)))
                    < Pos.to_nat (rpm model))%nat).
  { rewrite Hr2.
    rewrite filter_cons_False by (unfold recent, waitTime in *; lia).
    pose proof (length_filter (recent (clock w2)) rest). cbn in Hlen. lia. }
  rewrite (checkRateLimits_from_free env b modelKey model w2 Hm Hfree2).
  cbn [trace clock with_rateLimits]. auto.
Qed.

Lemma limiter_waits_once_at_most_a_minute_witness :
  let w := (processFile tinyEnv (fixedChunks ["abcd"; "efgh"]) "/in/a.txt" "/out/a.txt"
              "Summarise" (Some "tiny")
              [Resolved None (Some "one"); Resolved None (Some "two")]
              (loadedWorld 1000)).1.2 in
  let w' := checkRateLimits tinyEnv "tiny" w in
  (trace w' = trace w ++ [EvAdmit "tiny"] /\ clock w' = clock w) \/
  (exists ms,
     0 < ms <= 60000 /\
     trace w' = trace w ++ [EvAdmit "tiny"; EvSleep ms] /\
     clock w' = clock w + ms + Z.of_N (elapsed (schedule tinyEnv (suspensions w)))).
Proof.
  apply limiter_waits_once_at_most_a_minute.
  - apply processFile_rateInvariant, loadedWorld_rateInvariant.
  - destruct (processFile tinyEnv (fixedChunks ["abcd"; "efgh"]) "/in/a.txt" "/out/a.txt"
                "Summarise" (Some "tiny")
                [Resolved None (Some "one"); Resolved None (Some "two")]
                (loadedWorld 1000)) as [[r w'] later] eqn:Hrun.
    destruct (processFile_fields _ _ _ _ _ _ _ _ _ _ _ Hrun) as (_ & _ & _ & Hord & _).
    apply Hord, loadedWorld_ordered.
Defined.

(** ** The wait after a 429 *)





(** ** Missing credentials *)

Lemma offline_counts events :
  Forall isOffline events ->
  posts events = 0%nat /\ records events = 0%nat /\ writes events = [].
Proof.
  unfold posts, records, writes.
  induction 1 as [|e events He _ IH]; [auto|].
  destruct e; cbn in *; try contradiction; exact IH.
Qed.

Lemma callMonicaApi_unconfigured env fileContent prompt model replies w :
  unconfigured env = true ->
  callMonicaApi env fileContent prompt model replies w =
  (Throw notConfigured, emit (EvCompletion fileContent prompt model) w, replies).
Proof.
  unfold unconfigured, callMonicaApi. intros Hun.
  destruct replies; cbn [callMonicaApi_from]; rewrite Hun; reflexivity.
Qed.

Lemma sleeps_offline sleeps : Forall isSleep sleeps -> Forall isOffline sleeps.
Proof.
  intros Hs. eapply Forall_impl; [exact Hs|].
  intros e He. destruct e; first [exact I | contradiction].
Qed.

Lemma processChunk_unconfigured env n i chunk prompt model replies w :
  unconfigured env = true ->
  let run := processChunk env n i chunk prompt model replies w in
  run.1.1.1 = chunkErrorText notConfigured /\
  run.2 = replies /\
  exists events, trace run.1.2 = trace w ++ events /\ Forall isOffline events.
Proof.
  intros Hun. cbn zeta. unfold processChunk.
  rewrite (callMonicaApi_unconfigured env _ _ _ _ _ Hun). cbn [fst snd].
  split; [reflexivity|]. split; [reflexivity|].
  destruct (checkRateLimits_frame env model w) as (_ & _ & _ & sleeps & Ht & Hs).
  cbn zeta in Ht.
  match goal with |- context [updateProgress ?u ?x] =>
    destruct (updateProgress_rest u x) as (_ & _ & _ & ->) end.
  cbn [trace emit]. rewrite Ht.
  exists ((EvAdmit model :: sleeps) ++
          [EvCompletion chunk (chunkPrompt prompt i n) (Some model)]).
  rewrite app_assoc. split; [reflexivity|].
  apply Forall_app. split; [|repeat constructor].
  constructor; [exact I | apply sleeps_offline, Hs].
Qed.

Lemma chunkLoop_unconfigured env n i remaining prompt model responses replies w :
  unconfigured env = true ->
  let run := chunkLoop env n i remaining prompt model responses replies w in
  run.1.1 = responses ++ map (fun _ => chunkErrorText notConfigured) remaining /\
  run.2 = replies /\
  exists events, trace run.1.2 = trace w ++ events /\ Forall isOffline events.
Proof.
  intros Hun. cbn zeta. revert i responses w.
  induction remaining as [|chunk rest IH]; intros i responses w; cbn [chunkLoop map].
  - rewrite app_nil_r. split; [reflexivity|]. split; [reflexivity|].
    exists []. rewrite app_nil_r. auto.
  - destruct (processChunk_unconfigured env n i chunk prompt model replies w Hun)
      as (Htext & Hlater & events & Ht & Hoff).
    cbn zeta in *.
    destruct (processChunk env n i chunk prompt model replies w)
      as [[[text ok] w1] later]. cbn [fst snd] in *. subst text later.
    destruct (IH (S i) (responses ++ [chunkErrorText notConfigured]) w1)
      as (Hresp & Hrest & events' & Ht' & Hoff').
    rewrite Hresp, <- app_assoc. split; [reflexivity|]. split; [exact Hrest|].
    exists (events ++ events'). rewrite Ht', Ht, app_assoc.
    split; [reflexivity | apply Forall_app; auto].
Qed.

(** X15. Without credentials the outcome depends on the size of the
    file.  When [MONICA_API_KEY] or [MONICA_API_ENDPOINT] is missing
    and the input can be read, [processFile] sends no request, records
    none and consumes no reply; a file below the chunking threshold
    fails with the configuration error, while a file above it is
    reported as processed and its output, if it can be written, is the
    error placeholder of every chunk. *)
Theorem missing_credentials_fail_small_files_only (env : Env)
    (chunker : string -> Z -> list string)
    (inputPath outputPath prompt : string) (model : option string)
    (replies : list HttpOutcome) (w : World) (fileContent : string) :
  unconfigured env = true ->
  readFile env inputPath = Return fileContent ->
  let run := processFile env chunker inputPath outputPath prompt model replies w in
  let limit := getModelTokenLimit env (selectModel env model) in
  let chunks := chunker fileContent (MAX_TOKENS_PER_CHUNK limit * 4) in
  let text := join chunkSeparator (map (fun _ => chunkErrorText notConfigured) chunks) in
  run.2 = replies /\
  exists events,
    trace run.1.2 = trace w ++ events /\
    posts events = 0%nat /\ records events = 0%nat /\
    if needsChunking fileContent limit then
      match writeFile env outputPath text with
      | Return _ => run.1.1 = Return outputPath /\ writes events = [(outputPath, text)]
      | Throw message =>
        run.1.1 = Throw ("Failed to process file: " +:+ message) /\ writes events = []
      end
    else
      run.1.1 = Throw ("Failed to process file: " +:+ notConfigured) /\
      writes events = [].
Proof.
  intros Hun Hread. cbn zeta.
  unfold processFile.
  destruct (trackFileProcessing_rest inputPath w) as (_ & _ & _ & Ht1 & _).
  cbn zeta in Ht1.
  destruct (trackFileProcessing inputPath w) as [fileNumber w1]. cbn [snd] in Ht1.
  match goal with |- context [processFile_try env chunker (clock w) inputPath outputPath
                                prompt model replies ?x] =>
    destruct (updateProgress_rest
                [set_status processing; set_startTime (Some (clock w));
                 set_totalChunks 0; set_processedChunks 0; set_error None] w1)
      as (_ & _ & _ & Ht2);
    set (w2 := x) in * end.
  unfold processFile_try. rewrite Hread. cbn zeta.
  destruct (suspend_rest env 0 w2) as (_ & Ht3 & _).
  set (w3 := suspend env 0 w2) in *.
  set (limit := getModelTokenLimit env (selectModel env model)).
  destruct (needsChunking fileContent limit).
  - unfold processLargeFile.
    match goal with |- context [chunkLoop env ?n 0 ?cs prompt ?m [] replies ?x] =>
      destruct (chunkLoop_unconfigured env n 0 cs prompt m [] replies x Hun)
        as (Hresp & Hlater & events & Ht4 & Hoff);
      destruct (updateProgress_rest
                  [set_totalChunks (Z.of_nat n); set_processedChunks 0] w3)
        as (_ & _ & _ & Ht5);
      cbn zeta in Hresp, Hlater, Ht4;
      destruct (chunkLoop env n 0 cs prompt m [] replies x) as [[responses w4] later]
    end.
    cbn [fst snd app] in Hresp, Hlater, Ht4. subst responses later.
    destruct (suspend_rest env 0 w4) as (_ & Ht6 & _).
    destruct (offline_counts events Hoff) as (Hposts & Hrecords & Hwrites).
    destruct (writeFile env outputPath _) as [[]|message].
    + cbn [fst snd]. split; [reflexivity|].
      exists (events ++ [EvWrite outputPath
                           (join chunkSeparator
                              (map (fun _ => chunkErrorText notConfigured)
                                 (chunker fileContent (MAX_TOKENS_PER_CHUNK limit * 4))))]).
      match goal with |- context [updateProgress ?u ?x] =>
        destruct (updateProgress_rest u x) as (_ & _ & _ & ->) end.
      cbn [trace emit]. rewrite Ht6, Ht4, Ht5, Ht3, Ht2, Ht1, app_assoc.
      split; [reflexivity|].
      unfold posts, records, writes in *.
      rewrite !List.filter_app, omap_app, !length_app, Hposts, Hrecords, Hwrites.
      cbn. auto.
    + unfold processFile_catch. cbn [fst snd]. split; [reflexivity|].
      exists events.
      match goal with |- context [updateProgress ?u ?x] =>
        destruct (updateProgress_rest u x) as (_ & _ & _ & ->) end.
      rewrite Ht6, Ht4, Ht5, Ht3, Ht2, Ht1. auto.
  - rewrite (callMonicaApi_unconfigured env _ _ _ _ _ Hun).
    unfold processFile_catch. cbn [fst snd]. split; [reflexivity|].
    exists [EvCompletion fileContent prompt (Some (selectModel env model))].
    match goal with |- context [updateProgress ?u (emit ?e ?x)] =>
      destruct (updateProgress_rest u (emit e x)) as (_ & _ & _ & ->) end.
    cbn [trace emit].
    match goal with |- context [updateProgress ?u w3] =>
      destruct (updateProgress_rest u w3) as (_ & _ & _ & ->) end.
    rewrite Ht3, Ht2, Ht1. auto.
Qed.

Lemma missing_credentials_fail_small_files_only_witness :
  let env := {| MONICA_API_KEY := None; MONICA_API_ENDPOINT := None;
                DEFAULT_MODEL := None; modelData := [tinyModel];
                readFile := fun _ => Return "abcdefgh";
                writeFile := fun _ _ => Return tt;
                schedule := fun _ => {| elapsed := 5; cancel_requested := false |} |} in
  let run := processFile env (fixedChunks ["abcd"; "efgh"]) "/in/a.txt" "/out/a.txt"
               "Summarise" (Some "tiny") [Resolved None (Some "never used")]
               (loadedWorld 1000) in
  run.1.1 = Return "/out/a.txt" /\
  run.2 = [Resolved None (Some "never used")].
Proof.
  cbn zeta.
  destruct (missing_credentials_fail_small_files_only
              {| MONICA_API_KEY := None; MONICA_API_ENDPOINT := None;
                 DEFAULT_MODEL := None; modelData := [tinyModel];
                 readFile := fun _ => Return "abcdefgh";
                 writeFile := fun _ _ => Return tt;
                 schedule := fun _ => {| elapsed := 5; cancel_requested := false |} |}
              (fixedChunks ["abcd"; "efgh"]) "/in/a.txt" "/out/a.txt"
              "Summarise" (Some "tiny") [Resolved None (Some "never used")]
              (loadedWorld 1000) "abcdefgh" eq_refl eq_refl)
    as (Hlater & events & _ & _ & _ & Hend).
  split; [|exact Hlater].
  cbn in Hend. apply Hend.
Defined.

(** ** The loop of [POST /process-files] *)

Lemma setTotalFiles_fields total w :
  let w' := setTotalFiles total w in
  let p' := processingProgress w' in
  (currentFileNumber p' = 0 /\ totalFiles p' = total /\ processedFiles p' = ∅ /\
   processingHistory p' = [] /\ cancelled p' = false /\ status p' = idle) /\
  rateLimits w' = rateLimits w /\ clock w' = clock w /\
  suspensions w' = suspensions w /\ trace w' = trace w.
Proof. destruct w as [[] ? ? ? ?]. cbn. tauto. Qed.

Section HandlerRuns.

Context (env : Env) (chunker : string -> Z -> list string) (req : Request).

(** What one iteration does, in terms of the call of [processFile] it
    makes. *)
Lemma processUpload_fields file replies b :
  let run := processUpload env chunker req file replies b in
  let outputPath := path_join req (outputDir req) ("processed_" +:+ originalname file) in
  let call := processFile env chunker (path file) outputPath (req_prompt req)
                (req_model req) replies (world b) in
  world run.1 = call.1.2 /\ run.2 = call.2 /\
  (exists entry,
     results run.1 = results b ++ [entry] /\
     resultOf (outputFolderName req) file entry /\
     duration entry = clock call.1.2 - clock (world b) /\
     successCount run.1 = (successCount b + if success entry then 1 else 0)%nat /\
     failCount run.1 = (failCount b + if success entry then 0 else 1)%nat /\
     (success entry = true <->
      (exists written, call.1.1 = Return written) /\
      (exists size, fs_statSync req call.1.2 outputPath = Return size))) /\
  unlinked run.1 = unlinked b ++ (if isServerFile file then [] else [path file]).
Proof.
  cbn zeta. unfold processUpload.
  destruct (processFile env chunker (path file) _ (req_prompt req) (req_model req)
              replies (world b)) as [[r w1] later].
  cbn [fst snd].
  set (outputPath := path_join req (outputDir req) ("processed_" +:+ originalname file)).
  assert (Hun : (if isServerFile file then unlinked b else unlinked b ++ [path file]) =
                unlinked b ++ (if isServerFile file then [] else [path file])).
  { destruct (isServerFile file); [rewrite app_nil_r|]; reflexivity. }
  destruct r as [written|message];
    [destruct (fs_statSync req w1 outputPath) as [size|message]|].
  - cbn [fst snd world results successCount failCount unlinked].
    split; [reflexivity|]. split; [reflexivity|]. split; [|exact Hun].
    eexists. split; [reflexivity|]. unfold resultOf. cbn.
    split; [auto|]. split; [reflexivity|]. split; [lia|]. split; [lia|].
    split; [eauto | reflexivity].
  - cbn [fst snd world results successCount failCount unlinked].
    split; [reflexivity|]. split; [reflexivity|]. split; [|exact Hun].
    eexists. split; [reflexivity|]. unfold resultOf. cbn.
    split; [auto|]. split; [reflexivity|]. split; [lia|]. split; [lia|].
    split; [discriminate|]. intros (_ & size & Hsize). discriminate.
  - cbn [fst snd world results successCount failCount unlinked].
    split; [reflexivity|]. split; [reflexivity|]. split; [|exact Hun].
    eexists. split; [reflexivity|]. unfold resultOf. cbn.
    split; [auto|]. split; [reflexivity|]. split; [lia|]. split; [lia|].
    split; [discriminate|]. intros ((written & Hw) & _). discriminate.
Qed.

(** The loop processes a prefix of the files and stops either at the
    end or at a head where it sees a cancellation. *)
Lemma uploadLoop_uploads files replies b :
  let run := uploadLoop env chunker req files replies b in
  exists done rest,
    files = done ++ rest /\
    Uploads env chunker req b replies done run.1 run.2 /\
    (rest = [] \/
     cancelled (processingProgress (world run.1)) = true \/
     status (processingProgress (world run.1)) = cancelled_status).
Proof.
  cbn zeta. revert replies b.
  induction files as [|file files IH]; intros replies b; cbn [uploadLoop].
  - exists [], []. split; [reflexivity|]. split; [constructor | auto].
  - destruct (cancelled (processingProgress (world b))) eqn:Hflag.
    { exists [], (file :: files). cbn. split; [reflexivity|].
      split; [constructor | auto]. }
    cbn [orb]. case_bool_decide as Hst.
    { exists [], (file :: files). cbn. split; [reflexivity|].
      split; [constructor | auto]. }
    destruct (processUpload env chunker req file replies b) as [b1 later] eqn:Hstep.
    destruct (IH later b1) as (done & rest & -> & Hrun & Hstop).
    exists (file :: done), rest. split; [reflexivity|]. split; [|exact Hstop].
    constructor; [exact Hflag | exact Hst |]. rewrite Hstep. exact Hrun.
Qed.

(** The files processed are those of the results. *)
Lemma Uploads_results b replies done b' later :
  Uploads env chunker req b replies done b' later ->
  exists entries,
    results b' = results b ++ entries /\
    Forall2 (resultOf (outputFolderName req)) done entries /\
    successCount b' = (successCount b + length (List.filter success entries))%nat /\
    failCount b' =
      (failCount b + length (List.filter (fun entry => negb (success entry)) entries))%nat /\
    unlinked b' =
      unlinked b ++ map path (List.filter (fun file => negb (isServerFile file)) done).
Proof.
  induction 1 as [b replies|b replies file done b' later Hflag Hst Hrun IH].
  - exists []. cbn. rewrite !app_nil_r, !Nat.add_0_r. auto using Forall2_nil.
  - destruct (processUpload_fields file replies b)
      as (_ & _ & (entry & Hres & Hentry & _ & Hsucc & Hfail & _) & Hun).
    cbn zeta in *.
    destruct IH as (entries & Hres' & Hall & Hsucc' & Hfail' & Hun').
    exists (entry :: entries).
    rewrite Hres', Hres, Hsucc', Hsucc, Hfail', Hfail, Hun', Hun, <- !app_assoc.
    split; [reflexivity|]. split; [constructor; assumption|].
    cbn [List.filter map]. destruct (success entry), (isServerFile file); cbn;
      (split; [lia|]); (split; [lia|]); reflexivity.
Qed.

(** Cancel requests and the loop: the flag at the end is the flag at
    the start or a request served meanwhile. *)
Lemma Uploads_cancel b replies done b' later :
  Uploads env chunker req b replies done b' later ->
  (suspensions (world b) <= suspensions (world b'))%nat /\
  cancelled (processingProgress (world b')) =
    cancelled (processingProgress (world b)) ||
    cancelServed env (suspensions (world b)) (suspensions (world b')) /\
  (status (processingProgress (world b)) <> cancelled_status ->
   status (processingProgress (world b')) <> cancelled_status).
Proof.
  induction 1 as [b replies|b replies file done b' later Hflag Hst Hrun IH].
  - rewrite cancelServed_none, orb_false_r. auto.
  - destruct (processUpload_fields file replies b) as (Hw & _).
    cbn zeta in Hw.
    destruct (processFile env chunker (path file)
                (path_join req (outputDir req) ("processed_" +:+ originalname file))
                (req_prompt req) (req_model req) replies (world b))
      as [[r w1] later1] eqn:Hcall.
    destruct (processFile_fields _ _ _ _ _ _ _ _ _ _ _ Hcall)
      as (_ & (Hst1 & Hflag1) & (_ & Hs1 & _) & _).
    cbn zeta in *. cbn [fst snd] in Hw. rewrite Hw in IH.
    destruct IH as (Hs & Hflag' & Hst').
    split; [lia|]. split.
    + rewrite Hflag', Hflag1, <- orb_assoc.
      rewrite <- (cancelServed_split env _ _ _ Hs1 Hs). reflexivity.
    + intros _. apply Hst'. rewrite Hst1. destruct r; discriminate.
Qed.

Lemma slice_last_snoc {A} (n : nat) (l : list A) (x : A) :
  slice_last (S n) (l ++ [x]) = slice_last n l ++ [x].
Proof.
  unfold slice_last. rewrite length_app. cbn [length].
  replace (length l + 1 - S n)%nat with (length l - n)%nat by lia.
  rewrite skipn_app.
  replace (length l - n - length l)%nat with 0%nat by lia. reflexivity.
Qed.

Lemma slice_last_slice_last {A} (n m : nat) (l : list A) :
  (n <= m)%nat -> slice_last n (slice_last m l) = slice_last n l.
Proof.
  intros Hle. unfold slice_last. rewrite length_skipn, skipn_skipn. f_equal. lia.
Qed.

Lemma slice_last_map {A B} (f : A -> B) (n : nat) (l : list A) :
  map f (slice_last n l) = slice_last n (map f l).
Proof. unfold slice_last. rewrite length_map. apply eq_sym, skipn_map. Qed.

(** The progress object over the loop: counter, base names, history. *)
Lemma Uploads_progress b replies done b' later :
  Uploads env chunker req b replies done b' later ->
  let p := processingProgress (world b) in
  let p' := processingProgress (world b') in
  totalFiles p' = totalFiles p /\
  processedFiles p' =
    list_to_set (map (fun file => basename (path file)) done) ∪ processedFiles p /\
  (counterInvariant p -> counterInvariant p') /\
  (forall names,
     map h_file (processingHistory p) = slice_last 10 names ->
     map h_file (processingHistory p') =
       slice_last 10 (names ++ map (fun file => basename (path file)) done)).
Proof.
  cbn zeta.
  induction 1 as [b replies|b replies file done b' later Hflag Hst Hrun IH].
  - cbn. split; [reflexivity|].
    split; [rewrite (left_id_L ∅ (∪)); reflexivity|]. split; [auto|].
    intros names Hn. rewrite app_nil_r. exact Hn.
  - destruct (processUpload_fields file replies b) as (Hw & _).
    cbn zeta in Hw. rewrite Hw in IH.
    set (outputPath := path_join req (outputDir req)
                         ("processed_" +:+ originalname file)) in *.
    destruct (processFile_counter env chunker (path file) outputPath (req_prompt req)
                (req_model req) replies (world b)) as (Hpf & Htf & Hinv).
    destruct (processFile env chunker (path file) outputPath (req_prompt req)
                (req_model req) replies (world b)) as [[r w1] later1] eqn:Hcall.
    pose proof (processFile_outcome _ _ _ _ _ _ _ _ _ _ _ Hcall) as Hout.
    cbn zeta in *. cbn [fst snd] in *.
    destruct IH as (Htf' & Hpf' & Hinv' & Hhist').
    split; [congruence|].
    split; [rewrite Hpf', Hpf; cbn [map list_to_set];
            rewrite (assoc_L (∪)),
              (comm_L (∪) (list_to_set (map (fun file => basename (path file)) done)));
            reflexivity|].
    split; [intros Hc; apply Hinv', Hinv, Hc|].
    intros names Hn. cbn [map].
    change (names ++ basename (path file) :: ?l)
      with (names ++ [basename (path file)] ++ l).
    rewrite app_assoc. apply Hhist'.
    assert (Hentry : exists entry,
               processingHistory (processingProgress w1) =
                 slice_last 9 (processingHistory (processingProgress (world b))) ++ [entry] /\
               h_file entry = basename (path file)).
    { destruct Hout as [(_ & _ & _ & entry & He & Hf & _)
                       |(message & _ & _ & _ & entry & He & Hf & _)]; eauto. }
    destruct Hentry as (entry & -> & Hfile).
    rewrite map_app, slice_last_map, Hn. cbn [map]. rewrite Hfile.
    rewrite slice_last_slice_last by lia. symmetry. apply slice_last_snoc.
Qed.


End HandlerRuns.

(** The batch as a run of the loop from the reset progress object. *)
Lemma processBatch_uploads env chunker req files replies w :
  let run := processBatch env chunker req files replies w in
  let start := {| world := setTotalFiles (Z.of_nat (length files)) w;
                  results := []; successCount := 0; failCount := 0; unlinked := [] |} in
  exists rest,
    files = processed run.1 files ++ rest /\
    Uploads env chunker req start replies (processed run.1 files) run.1 run.2 /\
    (rest = [] \/ cancelled (processingProgress (world run.1)) = true).
Proof.
  cbn zeta. unfold processBatch.
  set (start := {| world := setTotalFiles (Z.of_nat (length files)) w;
                   results := []; successCount := 0; failCount := 0; unlinked := [] |}).
  destruct (uploadLoop_uploads env chunker req files replies start)
    as (done & rest & Hfiles & Hrun & Hstop).
  cbn zeta in *.
  destruct (Uploads_results _ _ _ _ _ _ _ _ Hrun) as (entries & Hres & Hall & _).
  destruct (Uploads_cancel _ _ _ _ _ _ _ _ Hrun) as (_ & _ & Hst).
  assert (Hdone : processed (uploadLoop env chunker req files replies start).1 files = done).
  { unfold processed. rewrite Hres. cbn [results start app].
    rewrite <- (Forall2_length _ _ _ Hall), Hfiles.
    rewrite take_app_length. reflexivity. }
  rewrite Hdone. exists rest. split; [exact Hfiles|]. split; [exact Hrun|].
  destruct Hstop as [Hrest|[Hflag|Hstatus]]; [auto | auto |].
  exfalso. apply Hst; [|exact Hstatus].
  destruct (setTotalFiles_fields (Z.of_nat (length files)) w)
    as ((_ & _ & _ & _ & _ & Hidle) & _).
  cbn zeta in Hidle. cbn [world start]. rewrite Hidle. discriminate.
Qed.

(** X16. The results of a batch follow the files: [results] holds one
    entry for each file of a prefix of [filesToProcess], in order and
    under the original name, with the name and the URL of the output
    for a success and an error message for a failure; [successCount]
    and [failCount] count these entries, so a failed file never stops
    the batch and the two counters add up to the number of results;
    distinct original names give distinct result names. *)
Theorem batch_results_follow_the_files (env : Env)
    (chunker : string -> Z -> list string) (req : Request)
    (files : list UploadedFile) (replies : list HttpOutcome) (w : World) :
  let b' := (processBatch env chunker req files replies w).1 in
  Forall2 (resultOf (outputFolderName req)) (processed b' files) (results b') /\
  successCount b' = length (List.filter success (results b')) /\
  failCount b' = length (List.filter (fun entry => negb (success entry)) (results b')) /\
  (successCount b' + failCount b' = length (results b'))%nat /\
  (length (results b') <= length files)%nat /\
  (NoDup (map originalname files) -> NoDup (map originalName (results b'))).
Proof.
  cbn zeta.
  destruct (processBatch_uploads env chunker req files replies w)
    as (rest & Hfiles & Hrun & _).
  cbn zeta in *.
  destruct (Uploads_results _ _ _ _ _ _ _ _ Hrun)
    as (entries & Hres & Hall & Hsucc & Hfail & _).
  cbn [results successCount failCount app] in *. rewrite Hres, Hsucc, Hfail.
  assert (Hlen : (length entries <= length files)%nat).
  { rewrite <- (Forall2_length _ _ _ Hall). unfold processed.
    rewrite length_take. lia. }
  assert (Hcount : forall l : list BatchResult,
             (length (List.filter success l) +
              length (List.filter (fun entry => negb (success entry)) l))%nat = length l).
  { induction l as [|entry l IH]; [reflexivity|].
    cbn. destruct (success entry); cbn; lia. }
  split; [exact Hall|]. split; [reflexivity|]. split; [reflexivity|].
  split; [apply Hcount|]. split; [exact Hlen|].
  intros Hnodup.
  assert (Hnames : map originalName entries =
                   map originalname
                     (processed (processBatch env chunker req files replies w).1 files)).
  { clear -Hall. induction Hall as [|file entry done entries (Hname & _) _ IH];
      [reflexivity|]. cbn. rewrite Hname, IH. reflexivity. }
  rewrite Hnames. rewrite Hfiles, map_app in Hnodup.
  apply NoDup_app in Hnodup. tauto.
Qed.

Lemma batch_results_follow_the_files_witness :
  let req := {| path_join := fun dir name => dir +:+ "/" +:+ name;
                fs_statSync := fun _ _ => Return 1;
                outputFolderName := "2024-01-01_00-00-00";
                outputDir := "/data/outputs/2024-01-01_00-00-00";
                req_prompt := "Summarise"; req_model := Some "tiny" |} in
  let files := [{| originalname := "a.txt"; path := "/up/1-a.txt"; isServerFile := false |};
                {| originalname := "b.txt"; path := "/srv/b.txt"; isServerFile := true |}] in
  NoDup (map originalName
           (results (processBatch tinyEnv publishedChunks req files [] (loadedWorld 0)).1)).
Proof.
  cbn zeta.
  apply (batch_results_follow_the_files tinyEnv publishedChunks).
  apply (bool_decide_unpack _). vm_compute. exact I.
Defined.

(** X17. Cancellation takes effect between two files.  In a loop
    state in which no cancellation is visible, the loop processes the
    next file to its end and records its result; it stops after that
    file exactly when a cancel request was served during one of the
    suspensions of that file, and otherwise goes on with the rest.
    Over a whole batch: the first file is always processed, the flag
    at the end tells whether a request was served, and without one
    every file has a result. *)
Theorem batch_stops_after_the_cancelled_file (env : Env)
    (chunker : string -> Z -> list string) (req : Request) :
  (forall file rest replies b,
     cancelled (processingProgress (world b)) = false ->
     status (processingProgress (world b)) <> cancelled_status ->
     let step := processUpload env chunker req file replies b in
     uploadLoop env chunker req (file :: rest) replies b =
     if cancelServed env (suspensions (world b)) (suspensions (world step.1))
     then step
     else uploadLoop env chunker req rest step.2 step.1) /\
  (forall files replies w,
     let b' := (processBatch env chunker req files replies w).1 in
     cancelled (processingProgress (world b')) =
       cancelServed env (suspensions w) (suspensions (world b')) /\
     (cancelled (processingProgress (world b')) = false ->
      length (results b') = length files) /\
     (files <> [] -> results b' <> [])).
Proof.
  split.
  - intros file rest replies b Hflag Hst. cbn zeta. cbn [uploadLoop].
    rewrite Hflag. cbn [orb]. rewrite bool_decide_eq_false_2 by exact Hst.
    destruct (processUpload_fields env chunker req file replies b) as (Hw & _).
    cbn zeta in Hw.
    destruct (processFile env chunker (path file)
                (path_join req (outputDir req) ("processed_" +:+ originalname file))
                (req_prompt req) (req_model req) replies (world b))
      as [[r w1] later1] eqn:Hcall.
    destruct (processFile_fields _ _ _ _ _ _ _ _ _ _ _ Hcall)
      as (_ & (_ & Hflag1) & _).
    cbn zeta in Hflag1. cbn [fst snd] in Hw. rewrite Hflag in Hflag1. cbn [orb] in Hflag1.
    destruct (processUpload env chunker req file replies b) as [b1 later].
    cbn [fst snd] in *. rewrite Hw, <- Hflag1.
    destruct (cancelled (processingProgress w1)) eqn:Hc; [|reflexivity].
    destruct rest; cbn [uploadLoop]; [reflexivity|].
    rewrite Hw, Hc. reflexivity.
  - intros files replies w. cbn zeta.
    destruct (processBatch_uploads env chunker req files replies w)
      as (rest & Hfiles & Hrun & Hstop).
    cbn zeta in *.
    destruct (Uploads_cancel _ _ _ _ _ _ _ _ Hrun) as (_ & Hflag & _).
    destruct (Uploads_results _ _ _ _ _ _ _ _ Hrun) as (entries & Hres & Hall & _).
    destruct (setTotalFiles_fields (Z.of_nat (length files)) w)
      as ((_ & _ & _ & _ & Hclear & _) & _ & _ & Hsusp & _).
    cbn zeta in *. cbn [world results app] in *.
    rewrite Hclear, Hsusp in Hflag. cbn [orb] in Hflag.
    split; [exact Hflag|]. split.
    + intros Hnot. destruct Hstop as [->|Hset]; [|congruence].
      rewrite app_nil_r in Hfiles. rewrite Hres, <- (Forall2_length _ _ _ Hall).
      rewrite <- Hfiles. reflexivity.
    + intros Hne Hnil.
      rewrite Hres in Hnil. rewrite Hnil in Hall.
      apply Forall2_nil_inv_r in Hall.
      rewrite Hall in Hfiles, Hrun. cbn [app] in Hfiles. subst rest.
      inversion Hrun as [b0 replies0 Hb Hr Hd Hb' Hl|]; subst.
      destruct Hstop as [->|Hset]; [contradiction|].
      rewrite <- Hb' in Hset. cbn [world] in Hset. congruence.
Qed.

Lemma batch_stops_after_the_cancelled_file_witness :
  let req := {| path_join := fun dir name => dir +:+ "/" +:+ name;
                fs_statSync := fun _ _ => Return 1;
                outputFolderName := "2024-01-01_00-00-00";
                outputDir := "/data/outputs/2024-01-01_00-00-00";
                req_prompt := "Summarise"; req_model := Some "tiny" |} in
  let first := {| originalname := "a.txt"; path := "/up/1-a.txt"; isServerFile := false |} in
  let second := {| originalname := "b.txt"; path := "/srv/b.txt"; isServerFile := true |} in
  let start := {| world := setTotalFiles 2 (loadedWorld 0);
                  results := []; successCount := 0; failCount := 0; unlinked := [] |} in
  uploadLoop (cancelDuring 0) publishedChunks req [first; second] [] start =
    processUpload (cancelDuring 0) publishedChunks req first [] start /\
  length (results (processBatch tinyEnv publishedChunks req [first; second] []
                     (loadedWorld 0)).1) = 2%nat.
Proof.
  cbn zeta. split.
  - match goal with |- uploadLoop _ _ ?r [?f; ?s] [] ?b = _ =>
      rewrite (proj1 (batch_stops_after_the_cancelled_file (cancelDuring 0)
                        publishedChunks r) f [s] [] b);
        [|reflexivity | vm_compute; discriminate]
    end.
    vm_compute. reflexivity.
  - apply (proj2 (batch_stops_after_the_cancelled_file tinyEnv publishedChunks _)).
    vm_compute. reflexivity.
Defined.

(** X18. Which files the loop removes: [fs.unlinkSync] is called, in
    order, for every processed file that was uploaded, whether its
    processing succeeded or failed, and for no other file; server files
    and the files skipped after a cancellation are left alone. *)
Theorem batch_unlinks_processed_uploads (env : Env)
    (chunker : string -> Z -> list string) (req : Request)
    (files : list UploadedFile) (replies : list HttpOutcome) (w : World) :
  let b' := (processBatch env chunker req files replies w).1 in
  unlinked b' =
  map path (List.filter (fun file => negb (isServerFile file)) (processed b' files)).
Proof.
  cbn zeta.
  destruct (processBatch_uploads env chunker req files replies w)
    as (rest & _ & Hrun & _).
  cbn zeta in *.
  destruct (Uploads_results _ _ _ _ _ _ _ _ Hrun) as (entries & _ & _ & _ & _ & Hun).
  exact Hun.
Qed.

(** X19. The history after a batch names its last ten files:
    [processingHistory] is emptied when the batch starts, every
    processed file appends one entry, and the file names of the
    entries are the base names of the last ten processed paths, oldest
    first. *)
Theorem batch_history_names_last_ten_files (env : Env)
    (chunker : string -> Z -> list string) (req : Request)
    (files : list UploadedFile) (replies : list HttpOutcome) (w : World) :
  let b' := (processBatch env chunker req files replies w).1 in
  let history := processingHistory (processingProgress (world b')) in
  map h_file history =
    slice_last 10 (map (fun file => basename (path file)) (processed b' files)) /\
  length history = Nat.min (length (results b')) 10.
Proof.
  cbn zeta.
  destruct (processBatch_uploads env chunker req files replies w)
    as (rest & _ & Hrun & _).
  cbn zeta in *.
  destruct (Uploads_progress _ _ _ _ _ _ _ _ Hrun) as (_ & _ & _ & Hhist).
  destruct (Uploads_results _ _ _ _ _ _ _ _ Hrun) as (entries & Hres & Hall & _).
  destruct (setTotalFiles_fields (Z.of_nat (length files)) w)
    as ((_ & _ & _ & Hempty & _) & _).
  cbn zeta in *. cbn [world results app] in *.
  specialize (Hhist []). rewrite Hempty in Hhist. specialize (Hhist eq_refl).
  cbn [app] in Hhist. split; [exact Hhist|].
  rewrite <- (length_map h_file), Hhist. unfold slice_last.
  rewrite length_skipn, length_map, Hres, (Forall2_length _ _ _ Hall). lia.
Qed.

(** X20. The file counter after a batch: [currentFileNumber] is the
    number of distinct base names among the processed paths, capped at
    the number of files of the batch; when the base names are distinct
    it is the number of results. *)
Theorem batch_counter_counts_base_names (env : Env)
    (chunker : string -> Z -> list string) (req : Request)
    (files : list UploadedFile) (replies : list HttpOutcome) (w : World) :
  let b' := (processBatch env chunker req files replies w).1 in
  let p' := processingProgress (world b') in
  let names := map (fun file => basename (path file)) (processed b' files) in
  totalFiles p' = Z.of_nat (length files) /\
  currentFileNumber p' =
    Z.min (Z.of_nat (size (list_to_set names : gset string))) (Z.of_nat (length files)) /\
  (NoDup names -> currentFileNumber p' = Z.of_nat (length (results b'))).
Proof.
  cbn zeta.
  destruct (processBatch_uploads env chunker req files replies w)
    as (rest & Hfiles & Hrun & _).
  cbn zeta in *.
  destruct (Uploads_progress _ _ _ _ _ _ _ _ Hrun) as (Htf & Hpf & Hinv & _).
  destruct (Uploads_results _ _ _ _ _ _ _ _ Hrun) as (entries & Hres & Hall & _).
  pose proof (setTotalFiles_counter (Z.of_nat (length files)) w ltac:(lia)) as Hstart.
  destruct (setTotalFiles_fields (Z.of_nat (length files)) w)
    as ((_ & Htotal & Hnone & _) & _).
  cbn zeta in *. cbn [world results app] in *.
  specialize (Hinv Hstart). unfold counterInvariant in Hinv.
  rewrite Hnone, (right_id_L ∅ (∪)) in Hpf. rewrite Htotal in Htf.
  rewrite Hinv, Hpf, Htf.
  split; [reflexivity|]. split; [reflexivity|].
  intros Hnodup. rewrite size_list_to_set by exact Hnodup.
  rewrite length_map, Hres, <- (Forall2_length _ _ _ Hall).
  assert (Hle : (length (processed (processBatch env chunker req files replies w).1 files)
                 <= length files)%nat)
    by (unfold processed; rewrite length_take; lia).
  lia.
Qed.

Lemma batch_counter_counts_base_names_witness :
  let req := {| path_join := fun dir name => dir +:+ "/" +:+ name;
                fs_statSync := fun _ _ => Return 1;
                outputFolderName := "2024-01-01_00-00-00";
                outputDir := "/data/outputs/2024-01-01_00-00-00";
                req_prompt := "Summarise"; req_model := Some "tiny" |} in
  let files := [{| originalname := "a.txt"; path := "/up/1-a.txt"; isServerFile := false |};
                {| originalname := "b.txt"; path := "/srv/b.txt"; isServerFile := true |}] in
  let b' := (processBatch tinyEnv publishedChunks req files [] (loadedWorld 0)).1 in
  currentFileNumber (processingProgress (world b')) = Z.of_nat (length (results b')).
Proof.
  cbn zeta.
  apply (batch_counter_counts_base_names tinyEnv publishedChunks).
  apply (bool_decide_unpack _). vm_compute. exact I.
Defined.



(** ** The chunk counters at the end of a file *)

Lemma updateProgress_processed done w :
  let p' := processingProgress (updateProgress [set_processedChunks done] w) in
  processedChunks p' = done /\
  totalChunks p' = totalChunks (processingProgress w).
Proof. destruct w as [[] ? ? ? ?]. cbn. tauto. Qed.

Lemma processFile_try_counters env chunker start inputPath outputPath prompt model
    replies w r w' later :
  processFile_try env chunker start inputPath outputPath prompt model replies w
    = (r, w', later) ->
  let p := processingProgress w in
  let p' := processingProgress w' in
  let limit := getModelTokenLimit env (selectModel env model) in
  match readFile env inputPath with
  | Throw _ =>
    totalChunks p' = totalChunks p /\ processedChunks p' = processedChunks p
  | Return fileContent =>
    if needsChunking fileContent limit then
      totalChunks p' =
        Z.of_nat (length (chunker fileContent (MAX_TOKENS_PER_CHUNK limit * 4))) /\
      processedChunks p' = totalChunks p'
    else
      totalChunks p' = 1 /\
      processedChunks p' = match r with Return _ => 1 | Throw _ => 0 end \/
      totalChunks p' = 1 /\ processedChunks p' = 1
  end.
Proof.
  unfold processFile_try.
  destruct (suspend_keepsJob env 0 w) as (_ & _ & _ & Htc1 & Hpc1 & _).
  set (w1 := suspend env 0 w) in *.
  destruct (readFile env inputPath) as [fileContent|message].
  2:{ intros [= <- <- <-]. cbn zeta. auto. }
  cbn zeta. set (limit := getModelTokenLimit env (selectModel env model)).
  destruct (needsChunking fileContent limit).
  - unfold processLargeFile.
    set (chunks := chunker fileContent (MAX_TOKENS_PER_CHUNK limit * 4)).
    destruct (updateProgress_chunk_counters (Z.of_nat (length chunks)) 0 w1)
      as (Htc2 & Hpc2 & _).
    cbn zeta in Htc2, Hpc2.
    set (w2 := updateProgress
                 [set_totalChunks (Z.of_nat (length chunks)); set_processedChunks 0] w1)
      in *.
    destruct (chunkLoop env (length chunks) 0 chunks prompt (selectModel env model) []
                replies w2) as [[responses w3] later3] eqn:Hloop.
    destruct (chunkLoop_run env _ _ _ _ _ _ _ _ _ _ _ Hloop)
      as ((_ & _ & _ & Htc3 & _) & _ & _ & Hpc3 & _).
    assert (Hdone : processedChunks (processingProgress w3) =
                    totalChunks (processingProgress w3)).
    { rewrite Hpc3, Htc3, Htc2. destruct chunks; [exact Hpc2 | reflexivity]. }
    destruct (suspend_keepsJob env 0 w3) as (_ & _ & _ & Htc4 & Hpc4 & _).
    destruct (writeFile env outputPath (join chunkSeparator responses)) as [[]|message];
      intros [= <- <- <-].
    + match goal with |- context [updateProgress [set_status ?st; set_error ?e;
                                                  set_processingHistory ?h] ?x] =>
        destruct (updateProgress_outcome st e h x)
          as (_ & _ & _ & Htc5 & Hpc5 & _) end.
      cbn zeta in Htc5, Hpc5. rewrite Htc5, Hpc5. cbn [processingProgress emit].
      rewrite Htc4, Hpc4, Hdone, Htc3, Htc2. auto.
    + rewrite Htc4, Hpc4, Hdone, Htc3, Htc2. auto.
  - destruct (updateProgress_chunk_counters 1 0 w1) as (Htc2 & Hpc2 & _).
    cbn zeta in Htc2, Hpc2.
    set (w2 := updateProgress [set_totalChunks 1; set_processedChunks 0] w1) in *.
    destruct (callMonicaApi env fileContent prompt (Some (selectModel env model))
                replies w2) as [[[response|message] w3] later3] eqn:Hcall.
    + destruct (callMonicaApi_run env _ _ _ _ _ _ _ _ Hcall)
        as ((_ & _ & _ & Htc3 & _) & _).
      destruct (updateProgress_processed 1 w3) as (Hpc4 & Htc4). cbn zeta in Hpc4, Htc4.
      destruct (suspend_keepsJob env 0 (updateProgress [set_processedChunks 1] w3))
        as (_ & _ & _ & Htc5 & Hpc5 & _).
      destruct (writeFile env outputPath response) as [[]|message];
        intros [= <- <- <-].
      * match goal with |- context [updateProgress [set_status ?st; set_error ?e;
                                                    set_processingHistory ?h] ?x] =>
          destruct (updateProgress_outcome st e h x)
            as (_ & _ & _ & Htc6 & Hpc6 & _) end.
        cbn zeta in Htc6, Hpc6. rewrite Htc6, Hpc6. cbn [processingProgress emit].
        rewrite Htc5, Hpc5, Htc4, Hpc4, Htc3, Htc2. auto.
      * rewrite Htc5, Hpc5, Htc4, Hpc4, Htc3, Htc2. auto.
    + destruct (callMonicaApi_run env _ _ _ _ _ _ _ _ Hcall)
        as ((_ & _ & _ & Htc3 & Hpc3 & _) & _).
      intros [= <- <- <-]. rewrite Htc3, Hpc3, Htc2, Hpc2. auto.
Qed.

(** X22. The chunk counters when [processFile] ends: [processedChunks]
    never exceeds [totalChunks]; the two are equal whenever the call
    returns, and also when a chunked file could not be written; the
    total is the number of chunks for a chunked file, 1 for a file
    sent in one piece and 0 when the input could not be read. *)
Theorem processFile_final_chunk_counters (env : Env)
    (chunker : string -> Z -> list string)
    (inputPath outputPath prompt : string) (model : option string)
    (replies : list HttpOutcome) (w : World) :
  let run := processFile env chunker inputPath outputPath prompt model replies w in
  let p' := processingProgress run.1.2 in
  let limit := getModelTokenLimit env (selectModel env model) in
  0 <= processedChunks p' <= totalChunks p' /\
  (forall written, run.1.1 = Return written -> processedChunks p' = totalChunks p') /\
  totalChunks p' =
    match readFile env inputPath with
    | Throw _ => 0
    | Return fileContent =>
      if needsChunking fileContent limit
      then Z.of_nat (length (chunker fileContent (MAX_TOKENS_PER_CHUNK limit * 4)))
      else 1
    end.
Proof.
  cbn zeta. unfold processFile.
  destruct (trackFileProcessing inputPath w) as [fileNumber w1].
  assert (Hstart : forall x,
            let ws := updateProgress
                        [set_status processing; set_startTime (Some (clock w));
                         set_totalChunks 0; set_processedChunks 0; set_error None] x in
            totalChunks (processingProgress ws) = 0 /\
            processedChunks (processingProgress ws) = 0).
  { intros [[] ? ? ? ?]. cbn. auto. }
  destruct (Hstart w1) as (Htc0 & Hpc0). cbn zeta in Htc0, Hpc0.
  set (ws := updateProgress
               [set_status processing; set_startTime (Some (clock w));
                set_totalChunks 0; set_processedChunks 0; set_error None] w1) in *.
  destruct (processFile_try env chunker (clock w) inputPath outputPath prompt model
              replies ws) as [[r3 w3] later3] eqn:Htry.
  pose proof (processFile_try_counters _ _ _ _ _ _ _ _ _ _ _ _ Htry) as Hc.
  cbn zeta in Hc. rewrite Htc0, Hpc0 in Hc.
  assert (Hend : exists w',
            (match r3 with
             | Return path => (Return path, w3, later3)
             | Throw message =>
               let '(failure, w4) :=
                 processFile_catch (clock w) inputPath model message w3 in
               (failure, w4, later3)
             end) = (match r3 with
                     | Return path => Return path
                     | Throw message => Throw ("Failed to process file: " +:+ message)
                     end, w', later3) /\
            totalChunks (processingProgress w') = totalChunks (processingProgress w3) /\
            processedChunks (processingProgress w') =
              processedChunks (processingProgress w3)).
  { destruct r3 as [path|message].
    - exists w3. auto.
    - unfold processFile_catch.
      match goal with |- context [updateProgress [set_status ?st; set_error ?e;
                                                  set_processingHistory ?h] w3] =>
        destruct (updateProgress_outcome st e h w3)
          as (_ & _ & _ & Htc & Hpc & _) end.
      eexists. split; [reflexivity|]. cbn zeta in Htc, Hpc. auto. }
  destruct Hend as (w' & -> & Htc & Hpc). cbn [fst snd]. rewrite Htc, Hpc.
  destruct (readFile env inputPath) as [fileContent|message].
  - destruct (needsChunking fileContent _).
    + destruct Hc as (Ht & Hp). rewrite Hp, Ht.
      split; [lia|]. split; [reflexivity | reflexivity].
    + destruct Hc as [(Ht & Hp)|(Ht & Hp)]; rewrite Hp, Ht.
      * split; [destruct r3; lia|]. split; [|reflexivity].
        intros written Hr. destruct r3; [reflexivity | discriminate].
      * split; [lia|]. split; [reflexivity | reflexivity].
  - destruct Hc as (Ht & Hp). rewrite Hp, Ht.
    split; [lia|]. split; [reflexivity | reflexivity].
Qed.

Lemma processFile_final_chunk_counters_witness :
  let run := processFile tinyEnv (fixedChunks ["abcd"; "efgh"]) "/in/a.txt" "/out/a.txt"
               "Summarise" (Some "tiny")
               [Resolved None (Some "one"); Resolved None (Some "two")]
               (loadedWorld 1000) in
  processedChunks (processingProgress run.1.2) = totalChunks (processingProgress run.1.2).
Proof.
  cbn zeta.
  apply (proj1 (proj2 (processFile_final_chunk_counters tinyEnv
                         (fixedChunks ["abcd"; "efgh"]) "/in/a.txt" "/out/a.txt"
                         "Summarise" (Some "tiny")
                         [Resolved None (Some "one"); Resolved None (Some "two")]
                         (loadedWorld 1000))) "/out/a.txt").
  vm_compute. reflexivity.
Defined.

(** ** The prompts of the chunks *)

Lemma omap_skip {A} (f : Event -> option A) e events :
  f e = None -> omap f (e :: events) = omap f events.
Proof. intros He. cbn. rewrite He. reflexivity. Qed.

Lemma omap_sleeps {A} (f : Event -> option A) sleeps :
  (forall ms, f (EvSleep ms) = None) ->
  Forall isSleep sleeps -> omap f sleeps = [].
Proof.
  intros Hf. induction 1 as [|e l He _ IH]; [reflexivity|].
  destruct e; try contradiction. rewrite omap_skip by apply Hf. exact IH.
Qed.

(** The events of a client call are admissions, sleeps, posts and
    recordings. *)
Lemma omap_client {A} (f : Event -> option A) m consumed events :
  (forall k, f (EvAdmit k) = None) ->
  (forall ms, f (EvSleep ms) = None) ->
  (forall a b, f (EvPost a b) = None) ->
  (forall a b c, f (EvRecord a b c) = None) ->
  (forall k, f (EvRecordFailed k) = None) ->
  ClientRun m consumed events -> omap f events = [].
Proof.
  intros Ha Hs Hp Hr Hf.
  induction 1 as [|sleeps message Hsl|usage content sleeps message at_time total Hsl
                  |usage content sleeps message Hsl Hinh
                  |reply sleeps message Hfail Hsl
                  |retry_after error_message sleeps message consumed events Hsl _ IH];
    [reflexivity|..];
    rewrite omap_skip by apply Ha;
    rewrite omap_app, (omap_sleeps f _ Hs Hsl);
    cbn [app]; rewrite omap_skip by apply Hp;
    [reflexivity
    |rewrite omap_skip by apply Hr; reflexivity
    |rewrite omap_skip by apply Hf; reflexivity
    |reflexivity
    |rewrite omap_skip by apply Hs; exact IH].
Qed.

Lemma chunkLoop_prompts env n i remaining prompt model responses replies w :
  let run := chunkLoop env n i remaining prompt model responses replies w in
  exists events,
    trace run.1.2 = trace w ++ events /\
    writes events = [] /\
    completionPrompts events =
      imap (fun j _ => (chunkPrompt prompt (i + j) n, Some model)) remaining.
Proof.
  cbn zeta. revert i responses replies w.
  induction remaining as [|chunk rest IH]; intros i responses replies w; cbn [chunkLoop].
  - exists []. rewrite app_nil_r. auto.
  - destruct (processChunk env n i chunk prompt model replies w)
      as [[[text ok] w1] later] eqn:Hchunk.
    destruct (processChunk_run env _ _ _ _ _ _ _ _ _ _ _ Hchunk)
      as (_ & _ & _ & _ & _ & sleeps & consumed & events & _ & Hs & Ht & Hclient & _).
    destruct (IH (S i) (responses ++ [text]) later w1) as (events' & Ht' & Hw' & Hp').
    eexists. rewrite Ht', Ht, <- app_assoc. split; [reflexivity|].
    assert (Hnone : forall {A} (f : Event -> option A),
               (forall k, f (EvAdmit k) = None) ->
               (forall ms, f (EvSleep ms) = None) ->
               (forall a b, f (EvPost a b) = None) ->
               (forall a b c, f (EvRecord a b c) = None) ->
               (forall k, f (EvRecordFailed k) = None) ->
               omap f (EvAdmit model :: sleeps ++
                       EvCompletion chunk (chunkPrompt prompt i n) (Some model) :: events)
               = omap f [EvCompletion chunk (chunkPrompt prompt i n) (Some model)]).
    { intros A f Ha Hsl Hpo Hre Hrf.
      rewrite omap_skip by apply Ha.
      rewrite omap_app, (omap_sleeps f _ Hsl Hs). cbn [app].
      change (EvCompletion ?a ?b ?c :: events) with ([EvCompletion a b c] ++ events).
      rewrite omap_app, (omap_client f _ _ _ Ha Hsl Hpo Hre Hrf Hclient).
      apply app_nil_r. }
    split.
    { unfold writes in *. rewrite omap_app, Hw', Hnone by reflexivity. reflexivity. }
    unfold completionPrompts in *. rewrite omap_app, Hp', Hnone by reflexivity.
    cbn. rewrite Nat.add_0_r. f_equal.
    apply imap_ext. intros j x _. cbn. rewrite Nat.add_succ_r. reflexivity.
Qed.

(** X23. The chunks are announced in order: for a file that is
    chunked into [n] pieces, [processFile] calls the API client [n]
    times, for the selected model, and the call for the chunk at index
    [i] carries the user prompt followed by the note that this is chunk
    [i + 1] of [n]. *)
Theorem chunk_prompts_are_numbered (env : Env)
    (chunker : string -> Z -> list string)
    (inputPath outputPath prompt : string) (model : option string)
    (replies : list HttpOutcome) (w : World) (fileContent : string) :
  readFile env inputPath = Return fileContent ->
  let limit := getModelTokenLimit env (selectModel env model) in
  let chunks := chunker fileContent (MAX_TOKENS_PER_CHUNK limit * 4) in
  needsChunking fileContent limit = true ->
  let run := processFile env chunker inputPath outputPath prompt model replies w in
  exists events,
    trace run.1.2 = trace w ++ events /\
    completionPrompts events =
      imap (fun i _ =>
              (prompt +:+ LF +:+ LF +:+ "[This is chunk " +:+ pretty (i + 1)%nat +:+
               " of " +:+ pretty (length chunks) +:+ " from the original file]",
               Some (selectModel env model))) chunks.
Proof.
  intros Hread limit chunks Hbig. cbn zeta.
  unfold processFile.
  destruct (trackFileProcessing_rest inputPath w) as (_ & _ & _ & Ht1 & _).
  cbn zeta in Ht1.
  destruct (trackFileProcessing inputPath w) as [fileNumber w1]. cbn [snd] in Ht1.
  match goal with |- context [processFile_try env chunker (clock w) inputPath outputPath
                                prompt model replies ?x] =>
    destruct (updateProgress_rest
                [set_status processing; set_startTime (Some (clock w));
                 set_totalChunks 0; set_processedChunks 0; set_error None] w1)
      as (_ & _ & _ & Ht2);
    set (w2 := x) in * end.
  unfold processFile_try. rewrite Hread. cbn zeta. fold limit. rewrite Hbig.
  destruct (suspend_rest env 0 w2) as (_ & Ht3 & _).
  set (w3 := suspend env 0 w2) in *.
  unfold processLargeFile. fold chunks.
  destruct (chunkLoop_prompts env (length chunks) 0 chunks prompt (selectModel env model)
              [] replies
              (updateProgress
                 [set_totalChunks (Z.of_nat (length chunks)); set_processedChunks 0] w3))
    as (events & Ht4 & _ & Hp).
  destruct (updateProgress_rest
              [set_totalChunks (Z.of_nat (length chunks)); set_processedChunks 0] w3)
    as (_ & _ & _ & Ht5).
  cbn zeta in Ht4, Hp.
  destruct (chunkLoop env (length chunks) 0 chunks prompt (selectModel env model) []
              replies _) as [[responses w4] later].
  cbn [fst snd] in Ht4.
  destruct (suspend_rest env 0 w4) as (_ & Ht6 & _).
  assert (Hprompts : completionPrompts events =
            imap (fun i _ =>
                    (prompt +:+ LF +:+ LF +:+ "[This is chunk " +:+ pretty (i + 1)%nat +:+
                     " of " +:+ pretty (length chunks) +:+ " from the original file]",
                     Some (selectModel env model))) chunks).
  { rewrite Hp. apply imap_ext. intros i x _. reflexivity. }
  destruct (writeFile env outputPath (join chunkSeparator responses)) as [[]|message].
  - cbn [fst snd].
    exists (events ++ [EvWrite outputPath (join chunkSeparator responses)]).
    match goal with |- context [updateProgress ?u ?x] =>
      destruct (updateProgress_rest u x) as (_ & _ & _ & ->) end.
    cbn [trace emit]. rewrite Ht6, Ht4, Ht5, Ht3, Ht2, Ht1, app_assoc.
    split; [reflexivity|].
    unfold completionPrompts in *. rewrite omap_app, Hprompts. cbn.
    apply app_nil_r.
  - unfold processFile_catch. cbn [fst snd]. exists events.
    match goal with |- context [updateProgress ?u ?x] =>
      destruct (updateProgress_rest u x) as (_ & _ & _ & ->) end.
    rewrite Ht6, Ht4, Ht5, Ht3, Ht2, Ht1. auto.
Qed.

Lemma chunk_prompts_are_numbered_witness :
  exists events,
    trace (processFile tinyEnv (fixedChunks ["abcd"; "efgh"]) "/in/a.txt" "/out/a.txt"
             "Summarise" (Some "tiny") [] (loadedWorld 1000)).1.2
    = trace (loadedWorld 1000) ++ events /\
    map snd (completionPrompts events) = [Some "tiny"; Some "tiny"].
Proof.
  destruct (chunk_prompts_are_numbered tinyEnv (fixedChunks ["abcd"; "efgh"])
              "/in/a.txt" "/out/a.txt" "Summarise" (Some "tiny") [] (loadedWorld 1000)
              "abcdefgh" eq_refl eq_refl) as (events & Ht & Hp).
  exists events. split; [exact Ht|]. rewrite Hp. reflexivity.
Defined.

(** * The prompt store *)

Lemma savePrompt_upsert entry prompts :
  match findIndex (fun p => String.eqb (prompt_name p) (prompt_name entry)) prompts with
  | Some index => <[index := entry]> prompts
  | None => prompts ++ [entry]
  end = upsert entry prompts.
Proof.
  induction prompts as [|p rest IH]; [reflexivity|].
  cbn [findIndex upsert].
  destruct (String.eqb (prompt_name p) (prompt_name entry)); [reflexivity|].
  destruct (findIndex _ rest) as [index|]; cbn in *; rewrite <- IH; reflexivity.
Qed.

Lemma findIndex_some entry prompts :
  is_Some (findIndex (fun p => String.eqb (prompt_name p) (prompt_name entry)) prompts)
  <-> prompt_name entry ∈ map prompt_name prompts.
Proof.
  induction prompts as [|p rest IH]; cbn [findIndex map].
  - split; [intros [? [=]] | intros Hin; inversion Hin].
  - destruct (String.eqb_spec (prompt_name p) (prompt_name entry)) as [Heq|Hne].
    + split; [intros _; rewrite Heq; left | eauto].
    + rewrite elem_of_cons. split.
      * intros Hs. right. apply IH.
        destruct (findIndex _ rest); [eauto | destruct Hs as [? [=]]].
      * intros [Heq|Hin]; [congruence|].
        apply IH in Hin. destruct Hin as (index & ->). cbn. eauto.
Qed.

Lemma upsert_text entry prompts :
  promptText (prompt_name entry) (upsert entry prompts) = Some (prompt_text entry).
Proof.
  unfold promptText.
  induction prompts as [|p rest IH]; cbn [upsert List.find].
  - rewrite String.eqb_refl. reflexivity.
  - destruct (String.eqb (prompt_name p) (prompt_name entry)) eqn:Hp; cbn [List.find].
    + rewrite String.eqb_refl. reflexivity.
    + rewrite Hp. exact IH.
Qed.

Lemma upsert_other entry prompts other :
  other <> prompt_name entry ->
  promptText other (upsert entry prompts) = promptText other prompts.
Proof.
  intros Hne. unfold promptText.
  assert (Hother : String.eqb (prompt_name entry) other = false)
    by (apply String.eqb_neq; congruence).
  induction prompts as [|p rest IH]; cbn [upsert List.find].
  - rewrite Hother. reflexivity.
  - destruct (String.eqb_spec (prompt_name p) (prompt_name entry)) as [Heq|Hp];
      cbn [List.find].
    + rewrite Hother, Heq, Hother. reflexivity.
    + destruct (String.eqb (prompt_name p) other); [reflexivity | exact IH].
Qed.

Lemma upsert_names entry prompts :
  map prompt_name (upsert entry prompts) =
  if decide (prompt_name entry ∈ map prompt_name prompts)
  then map prompt_name prompts
  else map prompt_name prompts ++ [prompt_name entry].
Proof.
  induction prompts as [|p rest IH]; cbn [upsert map].
  - rewrite decide_False by (intros Hin; inversion Hin). reflexivity.
  - destruct (String.eqb_spec (prompt_name p) (prompt_name entry)) as [Heq|Hp]; cbn [map].
    + rewrite decide_True by (rewrite Heq; left). rewrite Heq. reflexivity.
    + rewrite IH. destruct (decide (prompt_name entry ∈ map prompt_name rest)) as [Hin|Hout].
      * rewrite decide_True by (right; exact Hin). reflexivity.
      * rewrite decide_False; [reflexivity|].
        rewrite elem_of_cons. intros [Heq|Hin]; [congruence | contradiction].
Qed.

(** X24. Saving a prompt is an insert-or-update by name.  With a
    non-empty name and text and a writable file, [POST /prompts]
    stores the text under the name, so that a reader finds it there,
    and leaves what is found under every other name unchanged; it
    answers "updated" exactly when the name was present, keeping the
    order of the names, and otherwise appends the name at the end;
    names that were distinct remain distinct. *)
Theorem savePrompt_inserts_or_updates (name text : string)
    (stored : option (list Prompt)) :
  name <> EmptyString -> text <> EmptyString ->
  let prompts := default [] stored in
  let run := savePrompt (Some name) (Some text) stored true in
  exists prompts',
    run.2 = Some prompts' /\
    promptText name prompts' = Some text /\
    (forall other, other <> name -> promptText other prompts' = promptText other prompts) /\
    (name ∈ map prompt_name prompts ->
     run.1 = save_updated /\ map prompt_name prompts' = map prompt_name prompts) /\
    (name ∉ map prompt_name prompts ->
     run.1 = save_added /\ map prompt_name prompts' = map prompt_name prompts ++ [name]) /\
    (NoDup (map prompt_name prompts) -> NoDup (map prompt_name prompts')).
Proof.
  intros Hname Htext. cbn zeta. unfold savePrompt. cbn [truthy].
  change (default EmptyString (Some name)) with name.
  change (default EmptyString (Some text)) with text.
  rewrite (String_eqb_empty_false name Hname), (String_eqb_empty_false text Htext).
  cbn [negb orb]. cbn zeta.
  set (entry := {| prompt_name := name; prompt_text := text |}).
  set (prompts := default [] stored).
  pose proof (savePrompt_upsert entry prompts) as Hup.
  pose proof (findIndex_some entry prompts) as Hfound.
  pose proof (upsert_names entry prompts) as Hnames.
  cbn [prompt_name entry] in Hnames.
  change (prompt_name entry) with name in Hfound.
  change (prompt_name entry) with name in Hup.
  change (prompt_name entry) with name.
  exists (upsert entry prompts). cbn [fst snd].
  split; [rewrite <- Hup; reflexivity|].
  split; [apply (upsert_text entry)|].
  split; [intros other Hne; apply (upsert_other entry), Hne|].
  split; [|split].
  - intros Hin. rewrite decide_True in Hnames by exact Hin.
    split; [|exact Hnames].
    destruct (proj2 Hfound Hin) as (index & ->). reflexivity.
  - intros Hout. rewrite decide_False in Hnames by exact Hout.
    split; [|exact Hnames].
    destruct (findIndex _ prompts) as [index|] eqn:Hidx; [|reflexivity].
    exfalso. apply Hout, Hfound. eauto.
  - intros Hnodup. rewrite Hnames.
    destruct (decide (name ∈ map prompt_name prompts)) as [Hin|Hout]; [exact Hnodup|].
    apply NoDup_app. split; [exact Hnodup|]. split.
    + intros x Hx Hx'. apply list_elem_of_singleton in Hx'. subst x. contradiction.
    + apply NoDup_singleton.
Qed.

Lemma savePrompt_inserts_or_updates_witness :
  let stored := Some [{| prompt_name := "short"; prompt_text := "Summarise" |}] in
  exists prompts',
    (savePrompt (Some "long") (Some "Explain in detail") stored true).2 = Some prompts' /\
    promptText "long" prompts' = Some "Explain in detail" /\
    promptText "short" prompts' = Some "Summarise".
Proof.
  cbn zeta.
  destruct (savePrompt_inserts_or_updates "long" "Explain in detail"
              (Some [{| prompt_name := "short"; prompt_text := "Summarise" |}])
              ltac:(discriminate) ltac:(discriminate))
    as (prompts' & Hstored & Htext & Hother & _).
  exists prompts'. split; [exact Hstored|]. split; [exact Htext|].
  rewrite (Hother "short") by discriminate. reflexivity.
Defined.

Lemma filter_other_names promptName prompts :
  let remaining :=
    List.filter (fun p => negb (String.eqb (prompt_name p) promptName)) prompts in
  (promptName ∉ map prompt_name remaining) /\
  (forall other, other <> promptName ->
     promptText other remaining = promptText other prompts) /\
  (promptName ∉ map prompt_name prompts -> remaining = prompts) /\
  (promptName ∈ map prompt_name prompts -> (length remaining < length prompts)%nat) /\
  (length remaining <= length prompts)%nat /\
  remaining `sublist_of` prompts.
Proof.
  cbn zeta. unfold promptText.
  induction prompts as [|p rest IH]; cbn [List.filter map List.find length].
  - split; [intros Hin; inversion Hin|]. split; [auto|]. split; [auto|].
    split; [intros Hin; inversion Hin|]. split; [lia | constructor].
  - destruct IH as (Hout & Hother & Hsame & Hless & Hle & Hsub).
    destruct (String.eqb_spec (prompt_name p) promptName) as [Heq|Hne]; cbn [negb].
    + split; [exact Hout|]. split.
      { intros other Hne. rewrite Hother by exact Hne.
        rewrite (proj2 (String.eqb_neq (prompt_name p) other)) by congruence.
        reflexivity. }
      split; [intros Hnot; exfalso; apply Hnot; rewrite Heq; left|].
      split; [intros _; lia|]. split; [lia|]. constructor. exact Hsub.
    + cbn [map List.find length]. split.
      { rewrite elem_of_cons. intros [Heq|Hin]; [congruence | contradiction]. }
      split.
      { intros other Hno. destruct (String.eqb (prompt_name p) other);
          [reflexivity | apply Hother, Hno]. }
      split.
      { intros Hnot. f_equal. apply Hsame. intros Hin. apply Hnot. right. exact Hin. }
      split.
      { rewrite elem_of_cons. intros [Heq|Hin]; [congruence|]. specialize (Hless Hin). lia. }
      split; [lia|]. constructor. exact Hsub.
Qed.

(** X25. Deleting a prompt removes every entry of that name and
    nothing else.  With a readable and writable file,
    [DELETE /prompts/:name] answers "not found" and leaves the file
    alone exactly when no entry has the name; otherwise no entry of
    the stored array has the name any more, the other entries stay in
    their order, and what a reader finds under any other name is
    unchanged. *)
Theorem deletePrompt_removes_the_name (promptName : string) (prompts : list Prompt) :
  let run := deletePrompt promptName (Some prompts) true in
  (promptName ∉ map prompt_name prompts ->
   run = (delete_not_found, Some prompts)) /\
  (promptName ∈ map prompt_name prompts ->
   exists remaining,
     run = (delete_done, Some remaining) /\
     (promptName ∉ map prompt_name remaining) /\
     promptText promptName remaining = None /\
     remaining `sublist_of` prompts /\
     forall other, other <> promptName ->
       promptText other remaining = promptText other prompts).
Proof.
  cbn zeta. unfold deletePrompt.
  destruct (filter_other_names promptName prompts)
    as (Hout & Hother & Hsame & Hless & _ & Hsub).
  cbn zeta in *.
  set (remaining := List.filter
                      (fun p => negb (String.eqb (prompt_name p) promptName)) prompts) in *.
  split.
  - intros Hnot. rewrite (Hsame Hnot), Nat.eqb_refl. reflexivity.
  - intros Hin. specialize (Hless Hin).
    rewrite (proj2 (Nat.eqb_neq _ _)) by lia.
    exists remaining. split; [reflexivity|]. split; [exact Hout|].
    split; [|split; [exact Hsub | exact Hother]].
    unfold promptText.
    destruct (List.find _ remaining) as [p|] eqn:Hfind; [|reflexivity].
    exfalso. apply List.find_some in Hfind. destruct Hfind as (Hp & Heq).
    apply String.eqb_eq in Heq. apply Hout. rewrite <- Heq.
    apply list_elem_of_fmap_2, list_elem_of_In, Hp.
Qed.

Lemma deletePrompt_removes_the_name_witness :
  let prompts := [{| prompt_name := "short"; prompt_text := "Summarise" |};
                  {| prompt_name := "long"; prompt_text := "Explain in detail" |}] in
  deletePrompt "other" (Some prompts) true = (delete_not_found, Some prompts) /\
  exists remaining,
    deletePrompt "short" (Some prompts) true = (delete_done, Some remaining) /\
    promptText "short" remaining = None.
Proof.
  cbn zeta. split.
  - apply (proj1 (deletePrompt_removes_the_name "other" _)).
    apply (bool_decide_unpack _). vm_compute. exact I.
  - destruct (proj2 (deletePrompt_removes_the_name "short"
                       [{| prompt_name := "short"; prompt_text := "Summarise" |};
                        {| prompt_name := "long"; prompt_text := "Explain in detail" |}]))
      as (remaining & Hrun & _ & Hnone & _).
    + apply (bool_decide_unpack _). vm_compute. exact I.
    + exists remaining. split; [exact Hrun | exact Hnone].
Defined.

Lemma filter_upsert entry prompts :
  List.filter (fun p => negb (String.eqb (prompt_name p) (prompt_name entry)))
    (upsert entry prompts) =
  List.filter (fun p => negb (String.eqb (prompt_name p) (prompt_name entry))) prompts.
Proof.
  induction prompts as [|p rest IH]; cbn [upsert List.filter].
  - rewrite String.eqb_refl. reflexivity.
  - destruct (String.eqb (prompt_name p) (prompt_name entry)) eqn:Hp; cbn [List.filter].
    + rewrite String.eqb_refl. reflexivity.
    + rewrite Hp. cbn [negb]. rewrite IH. reflexivity.
Qed.

(** X26. Saving and deleting compose as on a map.  For a non-empty
    name and text and a writable file: saving the same prompt twice
    changes nothing the second time; deleting a prompt that was just
    added under a new name gives back the stored array; deleting a
    name twice finds nothing the second time. *)
Theorem prompt_store_round_trips (name text : string) (prompts : list Prompt) :
  name <> EmptyString -> text <> EmptyString ->
  let saved := savePrompt (Some name) (Some text) (Some prompts) true in
  savePrompt (Some name) (Some text) saved.2 true = (save_updated, saved.2) /\
  (name ∉ map prompt_name prompts ->
   deletePrompt name saved.2 true = (delete_done, Some prompts)) /\
  let deleted := deletePrompt name (Some prompts) true in
  deletePrompt name deleted.2 true = (delete_not_found, deleted.2).
Proof.
  intros Hname Htext. cbn zeta.
  set (entry := {| prompt_name := name; prompt_text := text |}).
  assert (Hsave : forall l,
            savePrompt (Some name) (Some text) (Some l) true =
            (if decide (name ∈ map prompt_name l) then save_updated else save_added,
             Some (upsert entry l))).
  { intros l. unfold savePrompt. cbn [truthy].
    change (default EmptyString (Some name)) with name.
    change (default EmptyString (Some text)) with text.
    rewrite (String_eqb_empty_false name Hname), (String_eqb_empty_false text Htext).
    cbn [negb orb]. cbn zeta. fold entry.
    pose proof (savePrompt_upsert entry l) as Hup.
    pose proof (findIndex_some entry l) as Hfound.
    change (default [] (Some l)) with l.
    rewrite <- Hup.
    destruct (findIndex _ l) as [index|].
    - rewrite decide_True by (apply Hfound; eauto). reflexivity.
    - rewrite decide_False; [reflexivity|].
      intros Hin. apply Hfound in Hin. destruct Hin as (? & [=]). }
  assert (Hin : name ∈ map prompt_name (upsert entry prompts)).
  { pose proof (upsert_names entry prompts) as Hn. cbn [prompt_name entry] in Hn.
    rewrite Hn. destruct (decide _) as [Hin|_]; [exact Hin|].
    apply elem_of_app. right. left. }
  assert (Hagain : upsert entry (upsert entry prompts) = upsert entry prompts).
  { clear. induction prompts as [|p rest IH]; cbn [upsert].
    - cbn. rewrite String.eqb_refl. reflexivity.
    - destruct (String.eqb (prompt_name p) (prompt_name entry)) eqn:Hp; cbn [upsert].
      + cbn [prompt_name entry]. rewrite String.eqb_refl. reflexivity.
      + rewrite Hp, IH. reflexivity. }
  rewrite (Hsave prompts). cbn [fst snd].
  split; [|split].
  - rewrite (Hsave (upsert entry prompts)), decide_True by exact Hin.
    rewrite Hagain. reflexivity.
  - intros Hnew. unfold deletePrompt.
    pose proof (filter_upsert entry prompts) as Hf. cbn [prompt_name entry] in Hf.
    rewrite Hf.
    destruct (filter_other_names name prompts) as (_ & _ & Hsame & _).
    cbn zeta in Hsame. rewrite (Hsame Hnew).
    pose proof (upsert_names entry prompts) as Hn. cbn [prompt_name entry] in Hn.
    rewrite decide_False in Hn by exact Hnew.
    assert (Hlen : length (upsert entry prompts) = S (length prompts)).
    { rewrite <- (length_map prompt_name), Hn, length_app, length_map. cbn. lia. }
    rewrite Hlen, (proj2 (Nat.eqb_neq _ _)) by lia. reflexivity.
  - destruct (filter_other_names name prompts) as (Hout & _ & Hsame & Hless & _).
    cbn zeta in *.
    set (remaining := List.filter
                        (fun p => negb (String.eqb (prompt_name p) name)) prompts) in *.
    assert (Hdeleted : (deletePrompt name (Some prompts) true).2 =
                       Some (if decide (name ∈ map prompt_name prompts)
                             then remaining else prompts)).
    { unfold deletePrompt. fold remaining.
      destruct (decide (name ∈ map prompt_name prompts)) as [Hi|Hno].
      - specialize (Hless Hi). rewrite (proj2 (Nat.eqb_neq _ _)) by lia. reflexivity.
      - rewrite (Hsame Hno), Nat.eqb_refl. reflexivity. }
    rewrite Hdeleted.
    assert (Hnone : forall l, name ∉ map prompt_name l ->
              deletePrompt name (Some l) true = (delete_not_found, Some l)).
    { intros l Hl. unfold deletePrompt.
      destruct (filter_other_names name l) as (_ & _ & Hkeep & _).
      cbn zeta in Hkeep. rewrite (Hkeep Hl), Nat.eqb_refl. reflexivity. }
    destruct (decide (name ∈ map prompt_name prompts)) as [Hi|Hno];
      apply Hnone; assumption.
Qed.

Lemma prompt_store_round_trips_witness :
  let prompts := [{| prompt_name := "short"; prompt_text := "Summarise" |}] in
  deletePrompt "long"
    (savePrompt (Some "long") (Some "Explain in detail") (Some prompts) true).2 true
  = (delete_done, Some prompts).
Proof.
  cbn zeta.
  apply (prompt_store_round_trips "long" "Explain in detail"
           [{| prompt_name := "short"; prompt_text := "Summarise" |}]
           ltac:(discriminate) ltac:(discriminate)).
  apply (bool_decide_unpack _). vm_compute. exact I.
Defined.

(** * The estimate of the end time *)

Lemma extrapolation_bound (a k m : Q) :
  (0 <= a)%Q -> (0 < k)%Q -> (k <= m)%Q ->
  (a <= a / k * m)%Q /\ (k == m -> a / k * m == a)%Q.
Proof.
  intros Ha Hk Hm.
  assert (Hd : (a / k * k == a)%Q) by (field; lra).
  assert (H0 : (0 <= a / k)%Q) by (apply Qle_shift_div_l; lra).
  split; [nra|]. intros Heq. rewrite <- Heq. exact Hd.
Qed.

(** X27. The estimate is never in the past.  After a successful
    attempt on the chunk at index [i] of [n], in a job whose start time
    is not later than the clock, [estimatedEndTime] is set to a time
    not earlier than the moment of the update, and to that very moment
    after the last chunk. *)
Theorem chunk_estimate_is_not_in_the_past (env : Env) (n i : nat)
    (chunk prompt model : string) (replies : list HttpOutcome) (w : World)
    (start : Z) (text : string) (w' : World) (later : list HttpOutcome) :
  processChunk env n i chunk prompt model replies w = (text, true, w', later) ->
  startTime (processingProgress w) = Some start ->
  start <= clock w ->
  (i < n)%nat ->
  exists estimate,
    estimatedEndTime (processingProgress w') = Some estimate /\
    (inject_Z (clock w') <= estimate)%Q /\
    (S i = n -> estimate == inject_Z (clock w'))%Q.
Proof.
  intros Hrun Hstart Hle Hin.
  destruct (processChunk_run env _ _ _ _ _ _ _ _ _ _ _ Hrun)
    as ((_ & _ & _ & _ & Hst & _) & Hclock & _ & Hok & _).
  specialize (Hok eq_refl).
  exists (extrapolatedEnd i n w'). split; [exact Hok|].
  unfold extrapolatedEnd, numberOf. rewrite Hst, Hstart.
  change (default 0 (Some start)) with start.
  set (a := inject_Z (clock w' - start)).
  set (k := inject_Z (Z.of_nat (i + 1))).
  set (m := inject_Z (Z.of_nat n)).
  assert (Ha : (0 <= a)%Q)
    by (unfold a; change 0%Q with (inject_Z 0); rewrite <- Zle_Qle; lia).
  assert (Hk : (0 < k)%Q)
    by (unfold k; change 0%Q with (inject_Z 0); rewrite <- Zlt_Qlt; lia).
  assert (Hm : (k <= m)%Q) by (unfold k, m; rewrite <- Zle_Qle; lia).
  destruct (extrapolation_bound a k m Ha Hk Hm) as (Hbound & Hlast).
  assert (Hnow : (inject_Z (clock w') == inject_Z start + a)%Q).
  { unfold a. rewrite <- inject_Z_plus.
    replace (start + (clock w' - start)) with (clock w') by lia. reflexivity. }
  split.
  - rewrite Hnow. lra.
  - intros Hend. rewrite Hnow.
    assert (Hkm : (k == m)%Q).
    { unfold k, m. rewrite <- Hend.
      replace (i + 1)%nat with (S i) by lia. reflexivity. }
    rewrite (Hlast Hkm). reflexivity.
Qed.

Lemma chunk_estimate_is_not_in_the_past_witness :
  let run := processChunk tinyEnv 2 1 "efgh" "Summarise" "tiny"
               [Resolved None (Some "two")] (busyWorld 1000) in
  exists estimate,
    estimatedEndTime (processingProgress run.1.2) = Some estimate /\
    (inject_Z (clock run.1.2) <= estimate)%Q.
Proof.
  cbn zeta.
  destruct (processChunk tinyEnv 2 1 "efgh" "Summarise" "tiny"
              [Resolved None (Some "two")] (busyWorld 1000))
    as [[[text ok] w'] later] eqn:Hrun.
  assert (Hok : ok = true) by (vm_compute in Hrun; congruence).
  subst ok.
  destruct (chunk_estimate_is_not_in_the_past tinyEnv 2 1 "efgh" "Summarise" "tiny"
              [Resolved None (Some "two")] (busyWorld 1000) 1000 text w' later Hrun
              eq_refl ltac:(cbn; lia) ltac:(lia)) as (estimate & Hset & Hbound & _).
  exists estimate. split; [exact Hset | exact Hbound].
Defined.
